(** * hass-sidecar: the state and listener broker (lib/API) and the
      automation module base (interfaces/Automation)

    A shallow embedding of the two TypeScript classes and the properties of
    their event dispatch, cache synchronisation, service calls, subscription
    ids, scheduling primitives and [destroy].

    Methods are state-passing functions in a small monad of completions
    (normal or thrown). What the classes do to the outside is kept in a
    journal. Random numbers and clock readings are arguments of the methods
    that draw them. The websocket connection, the mqtt client and the
    parsing of date strings are parameters. The queue of delayed tasks is
    an array in a store, because a poll that is suspended in an [await]
    keeps the array it iterates while other code replaces the queue.
    The loading and unloading of the automation modules is modelled over
    a host whose module cache, constructors and [destroy] calls are
    parameters, and the handlers of two shipped modules are modelled as
    the code they run when they are notified.
    Outside the model: the underlying file watcher, [setState],
    [searchEntities], [onConcretState], and the logger below its error
    level. *)

From stdpp Require Import gmap strings list pretty.

Open Scope Z_scope.

(** ** The host language: completions, promises, dates and arrays *)

Module JS.

(** A thrown value; the code only ever logs or forwards it. *)
Definition error := string.

(** How a statement or a call ends: normally with a value, or abruptly
    with a thrown error. *)
Inductive completion (A : Type) : Type :=
| Normal (a : A)
| Abrupt (e : error).
Arguments Normal {A} a.
Arguments Abrupt {A} e.

(** Code that runs against a mutable state [S]: the state it leaves is
    kept also when it throws. *)
Definition js (S A : Type) : Type := S → completion A * S.

Definition ret {S A} (a : A) : js S A := λ s, (Normal a, s).

Definition throw {S A} (e : error) : js S A := λ s, (Abrupt e, s).

Definition bind {S A B} (m : js S A) (k : A → js S B) : js S B :=
  λ s, match m s with
       | (Normal a, s') => k a s'
       | (Abrupt e, s') => (Abrupt e, s')
       end.

Definition gets {S A} (f : S → A) : js S A := λ s, (Normal (f s), s).

Definition modify {S} (f : S → S) : js S unit := λ s, (Normal tt, f s).

(** A call used as a statement: what it returns is dropped. *)
Definition discard {A} (c : completion A) : completion unit :=
  match c with
  | Normal _ => Normal tt
  | Abrupt e => Abrupt e
  end.

(** [try { body } catch (e) { handler e }] *)
Definition try_catch {S} (body : js S unit) (handler : error → js S unit)
  : js S unit :=
  λ s, match body s with
       | (Normal a, s') => (Normal a, s')
       | (Abrupt e, s') => handler e s'
       end.

(** [for (const x of xs) { body x }] over an array that the body does not
    itself resize. *)
Fixpoint for_of {S A} (xs : list A) (body : A → js S unit) : js S unit :=
  match xs with
  | [] => ret tt
  | x :: rest => bind (body x) (λ _, for_of rest body)
  end.

(** [for (let i = n - 1; i >= 0; i--) { body i }] *)
Fixpoint count_down {T} (n : nat) (body : nat → js T unit) : js T unit :=
  match n with
  | O => ret tt
  | S i => bind (body i) (λ _, count_down i body)
  end.

(** Run code written against a part [T] of the state [S]. *)
Definition zoom {S T A} (get : S → T) (put : T → S → S) (m : js T A)
  : js S A :=
  λ s, let '(r, t) := m (get s) in (r, put t s).

(** A promise settles once: later calls of [resolve] or [reject] are
    ignored. *)
Inductive promise (A : Type) : Type :=
| Pending
| Fulfilled (a : A)
| Rejected (e : error).
Arguments Pending {A}.
Arguments Fulfilled {A} a.
Arguments Rejected {A} e.

Definition resolve {A} (a : A) (p : promise A) : promise A :=
  match p with Pending => Fulfilled a | _ => p end.

Definition reject {A} (e : error) (p : promise A) : promise A :=
  match p with Pending => Rejected e | _ => p end.

(** The time value of a [Date]: milliseconds since the epoch, or [None]
    for an invalid date (NaN). *)
Definition Date := option Z.

(** [a >= b] and [a < b] on dates: both are false when a side is NaN. *)
Definition date_ge (a b : Date) : bool :=
  match a, b with Some x, Some y => bool_decide (y ≤ x) | _, _ => false end.

Definition date_lt (a b : Date) : bool :=
  match a, b with Some x, Some y => bool_decide (x < y) | _, _ => false end.

Arguments date_ge : simpl never.
Arguments date_lt : simpl never.

(** [xs.indexOf(x)]: the first position of [x], or -1. *)
Fixpoint indexOf `{EqDecision A} (x : A) (xs : list A) : Z :=
  match xs with
  | [] => -1
  | y :: rest =>
      if decide (y = x) then 0
      else match indexOf x rest with
           | Zneg _ => -1
           | i => i + 1
           end
  end.

(** [xs.splice(start, 1)]: a negative [start] counts from the end (and is
    clamped at 0), a [start] past the end removes nothing. *)
Definition splice1 {A} (start : Z) (xs : list A) : list A :=
  let len := Z.of_nat (length xs) in
  let from := if bool_decide (start < 0) then Z.max (len + start) 0
              else Z.min start len in
  delete (Z.to_nat from) xs.

(** Values that flow through the broker untouched. *)
Inductive value : Type :=
| VNull
| VBool (b : bool)
| VNum (n : Z)
| VStr (s : string)
| VRef (address : nat).

End JS.

Import JS.

#[global] Instance js_ret {S} : MRet (js S) := @ret S.
#[global] Instance js_bind {S} : MBind (js S) := λ A B k m, bind m k.

(** ** Data shared by the broker and the modules *)

Module Data.

(** A timestamp as it arrives (a JSON string) or after [new Date(...)]. *)
Inductive timestamp : Type :=
| Raw (s : string)
| Parsed (d : Date).

(** Modelled from the spec: the interface [IState] (interfaces/IState is
    not among the sources). An entity state has its identifier, a status
    value, a mapping of named attributes and two timestamps; these are the
    fields the two classes read. *)
Record IState : Type := {
  entity_id : string;
  state : string;
  attributes : gmap string value;
  last_changed : timestamp;
  last_updated : timestamp;
}.

(** What the code does to the outside, oldest first: [Logger.error]
    calls, calls of registered callbacks (with the cache as the callback
    finds it) and requests sent over the connection. The other levels of
    the logger are not recorded. *)
Inductive event : Type :=
| LoggerError (e : error)
| StateListenerCalled (id : Z) (newState : IState)
    (oldState : option IState) (cache : gmap string IState)
| AutomationListenerCalled (id : Z) (cache : gmap string IState)
| ConnectionCallService (domain service : string)
    (options : gmap string value)
| QueueCallbackCalled (id : string)
| EachMinuteCallbackCalled (id : string).

(** What a listener hands back when it returns: nothing, or, when it is an
    async function, a promise together with the way that promise settles
    later. *)
Inductive returned : Type :=
| Nothing
| APromise (settles : completion unit).

(** Modelled from the spec: the type [IStateCallback] (interfaces/IState):
    a callback taking the new and the previous state. A callback can read
    the broker's cache, and it returns or throws; it does not itself add or
    remove listeners while it is being dispatched to. *)
Definition IStateCallback : Type :=
  IState → option IState → gmap string IState → completion returned.

(** The callback of an automation listener takes no argument. *)
Definition ITriggerCallback : Type :=
  gmap string IState → completion returned.

(** The handle [onState] and [onAutomation] return. *)
Record listenerInfo : Type := {
  id : Z;
  entityId : string;
}.

(** The [any] argument of [callService]: a falsy value, or a truthy one
    with its own enumerable properties (what the spread copies). *)
Inductive any : Type :=
| Falsy
| Truthy (props : gmap string value).

End Data.

Import Data.

(** ** lib/API: the state and listener broker *)

Module API.

Record StateListener : Type := {
  sl_id : Z;
  sl_callback : IStateCallback;
}.

Record AutomationListener : Type := {
  al_id : Z;
  al_callback : ITriggerCallback;
}.

Record t : Type := {
  _states : gmap string IState;
  _stateListeners : gmap string (list StateListener);
  _automationListeners : gmap string (list AutomationListener);
}.

Definition set_states (f : gmap string IState → gmap string IState)
    (a : t) : t :=
  {| _states := f (_states a);
     _stateListeners := _stateListeners a;
     _automationListeners := _automationListeners a |}.

Definition set_stateListeners
    (f : gmap string (list StateListener) →
         gmap string (list StateListener)) (a : t) : t :=
  {| _states := _states a;
     _stateListeners := f (_stateListeners a);
     _automationListeners := _automationListeners a |}.

Definition set_automationListeners
    (f : gmap string (list AutomationListener) →
         gmap string (list AutomationListener)) (a : t) : t :=
  {| _states := _states a;
     _stateListeners := _stateListeners a;
     _automationListeners := f (_automationListeners a) |}.

(** The broker together with the journal of what it did. *)
Definition running : Type := t * list event.

Definition log (ev : event) : js running unit :=
  modify (λ '(a, journal), (a, journal ++ [ev])).

Definition update (f : t → t) : js running unit :=
  modify (λ '(a, journal), (f a, journal)).

(** [onState]: [rnd] is the value of [Math.floor(Math.random() * 10000)]
    and [now] that of [new Date().getTime()] at the call. *)
Definition onState (entityId : string) (callback : IStateCallback)
    (rnd now : Z) (a : t) : listenerInfo * t :=
  let id := rnd + now in
  let listenerInfo := {| id := id; entityId := entityId |} in
  let listener := {| sl_id := id; sl_callback := callback |} in
  match _stateListeners a !! entityId with
  | None =>
      (listenerInfo, set_stateListeners <[entityId := [listener]]> a)
  | Some listeners =>
      (listenerInfo,
       set_stateListeners <[entityId := listeners ++ [listener]]> a)
  end.

Definition onAutomation (entityId : string) (callback : ITriggerCallback)
    (rnd now : Z) (a : t) : listenerInfo * t :=
  let id := rnd + now in
  let listenerInfo := {| id := id; entityId := entityId |} in
  let listener := {| al_id := id; al_callback := callback |} in
  match _automationListeners a !! entityId with
  | None =>
      (listenerInfo, set_automationListeners <[entityId := [listener]]> a)
  | Some listeners =>
      (listenerInfo,
       set_automationListeners <[entityId := listeners ++ [listener]]> a)
  end.

Definition clearOnState (entityId : string) (id : Z) (a : t) : t :=
  match _stateListeners a !! entityId with
  | Some listeners =>
      let listeners := filter (λ l, sl_id l ≠ id) listeners in
      if decide (length listeners = 0%nat)
      then set_stateListeners (delete entityId) a
      else set_stateListeners <[entityId := listeners]> a
  | None => a
  end.

Definition clearOnAutomation (entityId : string) (id : Z) (a : t) : t :=
  match _automationListeners a !! entityId with
  | Some listeners =>
      let listeners := filter (λ l, al_id l ≠ id) listeners in
      if decide (length listeners = 0%nat)
      then set_automationListeners (delete entityId) a
      else set_automationListeners <[entityId := listeners]> a
  | None => a
  end.

(** [getState] is an async function: [Normal] is the value its promise is
    fulfilled with, [Abrupt] the error it is rejected with. *)
Definition getState (entityId : string) (a : t) : completion IState :=
  match _states a !! entityId with
  | None => Abrupt (entityId +:+ " state not available")
  | Some state => Normal state
  end.

(** [!entityId]: null and the empty string are falsy. *)
Definition no_entity (entityId : option string) : bool :=
  match entityId with
  | None => true
  | Some s => bool_decide (s = "")
  end.

(** The options object [callService] builds before it calls the
    connection. *)
Definition callService_options (entityId : option string) (data : any)
  : gmap string value :=
  let options : gmap string value :=
    {[ "entity_id" := from_option VStr VNull entityId ]} in
  let options :=
    match data with
    | Truthy props => props ∪ options
    | Falsy => options
    end in
  if no_entity entityId then delete "entity_id" options else options.

(** [_syncStates] turns the two timestamps of every fetched state into
    dates. *)
Definition to_Date (parse : string → Date) (ts : timestamp) : timestamp :=
  match ts with
  | Raw s => Parsed (parse s)
  | Parsed d => Parsed d
  end.

Definition with_dates (parse : string → Date) (s : IState) : IState :=
  {| entity_id := entity_id s;
     state := state s;
     attributes := attributes s;
     last_changed := to_Date parse (last_changed s);
     last_updated := to_Date parse (last_updated s) |}.

Section Connection.

(** How [new Date(string)] reads a timestamp. *)
Variable Date_parse : string → Date.

(** How the connection (lib/websocketConnection, not among the sources)
    settles a service call. *)
Variable connection_callService :
  string → string → gmap string value → completion value.

(** [callService]: the value is how the returned promise settles. *)
Definition callService (domain service : string)
    (entityId : option string) (data : any)
  : js running (completion value) :=
  let options := callService_options entityId data in
  _ ← log (ConnectionCallService domain service options);
  match connection_callService domain service options with
  | Normal returnedData => mret (Normal returnedData)
  | Abrupt e => _ ← log (LoggerError e); mret (Abrupt e)
  end.

(** [_syncStates]: [fetched] is how [getStates()] settles, with [None]
    for a falsy value. The result is the promise [_syncStates]
    returns. *)
Definition _syncStates (fetched : completion (option (list IState)))
    (a : t) : promise unit * t :=
  let p : promise unit := Pending in
  (* .catch(reject) *)
  let '(p, states) :=
    match fetched with
    | Abrupt e => (reject e p, None)
    | Normal states => (p, states)
    end in
  (* .then((states) => ...) *)
  match states with
  | None => (resolve tt p, a)
  | Some states =>
      let states := with_dates Date_parse <$> states in
      let a := foldl (λ a state,
                 set_states <[entity_id state := state]> a) a states in
      (resolve tt p, a)
  end.

End Connection.

(** The payload of a [state_changed] event. The handler never reads its
    [entity_id]: the entity is the one the new state names. *)
Record state_changed : Type := {
  sc_entity_id : string;
  new_state : option IState;
  old_state : option IState;
}.

(** The payload of an [automation_triggered] event. *)
Record automation_triggered : Type := {
  name : string;
  at_entity_id : string;
}.

Definition call_state_listener (listener : StateListener)
    (newState : IState) (oldState : option IState) : js running unit :=
  λ '(a, journal),
    (discard (sl_callback listener newState oldState (_states a)),
     (a, journal ++ [StateListenerCalled (sl_id listener) newState
                       oldState (_states a)])).

Definition call_automation_listener (listener : AutomationListener)
  : js running unit :=
  λ '(a, journal),
    (discard (al_callback listener (_states a)),
     (a, journal ++ [AutomationListenerCalled (al_id listener)
                       (_states a)])).

(** The handler [_onStateChange] subscribes to [state_changed]. *)
Definition _onStateChange (data : state_changed) : js running unit :=
  match new_state data with
  | None => mret tt
  | Some newState =>
      _ ← update (set_states <[entity_id newState := newState]>);
      listeners ← gets (λ r, _stateListeners r.1 !! entity_id newState);
      match listeners with
      | Some listeners =>
          for_of listeners (λ listener,
            try_catch
              (call_state_listener listener newState (old_state data))
              (λ e, log (LoggerError e)))
      | None => mret tt
      end
  end.

(** The handler [_onAutomationTrigger] subscribes to
    [automation_triggered]. *)
Definition _onAutomationTrigger (data : automation_triggered)
  : js running unit :=
  listeners ← gets (λ r, _automationListeners r.1 !! at_entity_id data);
  match listeners with
  | Some listeners =>
      for_of listeners (λ listener,
        try_catch (call_automation_listener listener)
                  (λ e, log (LoggerError e)))
  | None => mret tt
  end.

End API.

(** ** lib/API: loading and unloading the automation modules *)

Module Loader.

(** [s.endsWith(suffix)]: what [/\.ts$/] tests with the suffix [.ts]. *)
Fixpoint ends_with (suffix s : string) : bool :=
  if decide (s = suffix) then true
  else match s with
       | EmptyString => false
       | String _ rest => ends_with suffix rest
       end.

(** [s.includes(part)]: what an unanchored pattern of plain characters
    tests. *)
Fixpoint includes (part s : string) : bool :=
  if String.prefix part s then true
  else match s with
       | EmptyString => false
       | String _ rest => includes part rest
       end.

(** [!/\.ts$/.test(filename) || /\/\.?lib\//.test(filename)] *)
Definition skipped (filename : string) : bool :=
  negb (ends_with ".ts" filename)
  || (includes "/lib/" filename || includes "/.lib/" filename).

(** [/(change|add)/.test(ev)] *)
Definition loads (ev : string) : bool :=
  includes "change" ev || includes "add" ev.

(** A [Map] with string keys: its entries in insertion order. *)
Definition Map_get {V} (key : string) (m : list (string * V)) : option V :=
  snd <$> head (filter (λ kv, kv.1 = key) m).

Definition Map_set {V} (key : string) (v : V) (m : list (string * V))
  : list (string * V) :=
  if decide (key ∈ m.*1)
  then (λ kv, if decide (kv.1 = key) then (key, v) else kv) <$> m
  else m ++ [(key, v)].

Definition Map_delete {V} (key : string) (m : list (string * V))
  : list (string * V) :=
  filter (λ kv, kv.1 ≠ key) m.

(** The events of the file watcher that [_bootstrap] listens to. *)
Inductive watched : Type := Change | Add | Unlink.

Section Host.

(** Everything outside the broker's map of loaded automations, and what
    the loader does there: [uncache f] is
    [delete require.cache[require.resolve(path.join(f))]], [construct f]
    is [new (require(f))()] and [destroy c] is [c.destroy()]; each may
    throw. *)
Variable Host : Type.
Variable Instance : Type.
Variable uncache : string → js Host unit.
Variable construct : string → js Host Instance.
Variable destroy : Instance → js Host unit.
Variable Logger_error : error → js Host unit.

Record t : Type := {
  _automations : list (string * Instance);
  host : Host;
}.

Definition set_automations
    (f : list (string * Instance) → list (string * Instance)) (s : t) : t :=
  {| _automations := f (_automations s); host := host s |}.

Definition set_host (h : Host) (s : t) : t :=
  {| _automations := _automations s; host := h |}.

Definition in_host {A} (m : js Host A) : js t A := zoom host set_host m.

Definition _loadAutomation (filename : string) : js t unit :=
  try_catch
    (newC ← in_host (construct filename);
     modify (set_automations (Map_set filename newC)))
    (λ e, in_host (Logger_error e)).

Definition _modifiedFile (ev filename : string) : js t unit :=
  if skipped filename then mret tt
  else
    _ ← in_host (uncache filename);
    c ← gets (λ s, Map_get filename (_automations s));
    _ ← match c with
        | Some c =>
            _ ← in_host (destroy c);
            modify (set_automations (Map_delete filename))
        | None => mret tt
        end;
    if loads ev
    then try_catch (_loadAutomation filename)
                   (λ e, in_host (Logger_error e))
    else mret tt.

(** The three listeners [_bootstrap] puts on the watcher. *)
Definition on_watched (ev : watched) (filename : string) : js t unit :=
  match ev with
  | Change => _modifiedFile "change" filename
  | Add => _modifiedFile "add" filename
  | Unlink => _modifiedFile "remove" filename
  end.

(** [_unload] goes through a copy of the map's entries. *)
Definition _unload : js t unit :=
  automations ← gets _automations;
  for_of automations (λ automation,
    _ ← try_catch (in_host (destroy automation.2))
                  (λ e, in_host (Logger_error e));
    modify (set_automations (Map_delete automation.1))).

End Host.

Arguments _automations {Host Instance}.
Arguments host {Host Instance}.
Arguments set_automations {Host Instance}.
Arguments set_host {Host Instance}.
Arguments in_host {Host Instance A}.
Arguments _loadAutomation {Host Instance}.
Arguments _modifiedFile {Host Instance}.
Arguments on_watched {Host Instance}.
Arguments _unload {Host Instance}.

End Loader.

(** ** interfaces/Automation: the base class of every automation module *)

Module Automation.

(** What calling a delayed task's callback and awaiting it gives: it
    returned (or its promise is already fulfilled), it threw (or its
    promise is already rejected), or its promise is still pending, which
    suspends the poll until the promise settles. The callback may depend
    on everything that happened before. *)
Inductive awaited : Type :=
| Returned
| Threw (e : error)
| StillPending.

Record IQueue : Type := {
  q_id : string;
  q_date : Date;
  q_callback : list event → awaited;
}.

(** A per-minute callback returns its promise or throws while called. *)
Record IEachMinute : Type := {
  em_id : string;
  em_callback : list event → completion unit;
}.

(** The fields of one module instance. Timer handles are numbers the host
    gives out; [_queue] refers to an array in the world's [arrays], since
    a suspended poll keeps the array it iterates while [clearRunAt] and
    the poll's own last line install a new one; [_mqttSubscriptions] is
    the map's entries in insertion order. *)
Record t : Type := {
  _timeouts : list nat;
  _intervals : list nat;
  _eachMinutes : list IEachMinute;
  _lastMinute : Z;
  _mqttSubscriptions : list (string * Z);
  _stateSubscriptions : list listenerInfo;
  _automationSubscriptions : list listenerInfo;
  _queue : nat;
}.

Definition set_timeouts (f : list nat → list nat) (m : t) : t :=
  {| _timeouts := f (_timeouts m); _intervals := _intervals m;
     _eachMinutes := _eachMinutes m; _lastMinute := _lastMinute m;
     _mqttSubscriptions := _mqttSubscriptions m;
     _stateSubscriptions := _stateSubscriptions m;
     _automationSubscriptions := _automationSubscriptions m;
     _queue := _queue m |}.

Definition set_intervals (f : list nat → list nat) (m : t) : t :=
  {| _timeouts := _timeouts m; _intervals := f (_intervals m);
     _eachMinutes := _eachMinutes m; _lastMinute := _lastMinute m;
     _mqttSubscriptions := _mqttSubscriptions m;
     _stateSubscriptions := _stateSubscriptions m;
     _automationSubscriptions := _automationSubscriptions m;
     _queue := _queue m |}.

Definition set_eachMinutes (f : list IEachMinute → list IEachMinute)
    (m : t) : t :=
  {| _timeouts := _timeouts m; _intervals := _intervals m;
     _eachMinutes := f (_eachMinutes m); _lastMinute := _lastMinute m;
     _mqttSubscriptions := _mqttSubscriptions m;
     _stateSubscriptions := _stateSubscriptions m;
     _automationSubscriptions := _automationSubscriptions m;
     _queue := _queue m |}.

Definition set_lastMinute (v : Z) (m : t) : t :=
  {| _timeouts := _timeouts m; _intervals := _intervals m;
     _eachMinutes := _eachMinutes m; _lastMinute := v;
     _mqttSubscriptions := _mqttSubscriptions m;
     _stateSubscriptions := _stateSubscriptions m;
     _automationSubscriptions := _automationSubscriptions m;
     _queue := _queue m |}.

Definition set_mqttSubscriptions
    (f : list (string * Z) → list (string * Z)) (m : t) : t :=
  {| _timeouts := _timeouts m; _intervals := _intervals m;
     _eachMinutes := _eachMinutes m; _lastMinute := _lastMinute m;
     _mqttSubscriptions := f (_mqttSubscriptions m);
     _stateSubscriptions := _stateSubscriptions m;
     _automationSubscriptions := _automationSubscriptions m;
     _queue := _queue m |}.

Definition set_stateSubscriptions
    (f : list listenerInfo → list listenerInfo) (m : t) : t :=
  {| _timeouts := _timeouts m; _intervals := _intervals m;
     _eachMinutes := _eachMinutes m; _lastMinute := _lastMinute m;
     _mqttSubscriptions := _mqttSubscriptions m;
     _stateSubscriptions := f (_stateSubscriptions m);
     _automationSubscriptions := _automationSubscriptions m;
     _queue := _queue m |}.

Definition set_automationSubscriptions
    (f : list listenerInfo → list listenerInfo) (m : t) : t :=
  {| _timeouts := _timeouts m; _intervals := _intervals m;
     _eachMinutes := _eachMinutes m; _lastMinute := _lastMinute m;
     _mqttSubscriptions := _mqttSubscriptions m;
     _stateSubscriptions := _stateSubscriptions m;
     _automationSubscriptions := f (_automationSubscriptions m);
     _queue := _queue m |}.

Definition set_queue (v : nat) (m : t) : t :=
  {| _timeouts := _timeouts m; _intervals := _intervals m;
     _eachMinutes := _eachMinutes m; _lastMinute := _lastMinute m;
     _mqttSubscriptions := _mqttSubscriptions m;
     _stateSubscriptions := _stateSubscriptions m;
     _automationSubscriptions := _automationSubscriptions m;
     _queue := v |}.

(** A poll of the delayed tasks that is suspended in its [await]: the
    time it started with, the array it iterates and the position of the
    next element. *)
Record frame : Type := {
  f_now : Z;
  f_array : nat;
  f_next : nat;
}.

Inductive poll : Type :=
| Finished
| Suspended (f : frame).

Section World.

(** The mqtt client (lib/mqtt, not among the sources) with its two calls;
    either may throw. *)
Variable Mqtt : Type.
Variable mqtt_subscribe : string → js Mqtt (string * Z).
Variable mqtt_unsubscribe : string → Z → js Mqtt unit.

(** Everything a method of the instance [this] can touch: the broker
    singleton, the journal, the host's live timers (and the next handle
    it gives out), the mqtt singleton and the arrays the instance has
    allocated for its queue. *)
Record world : Type := {
  api : API.t;
  journal : list event;
  timers : gset nat;
  next_timer : nat;
  mqtt : Mqtt;
  arrays : list (list IQueue);
  this : t;
}.

Definition set_broker (b : API.running) (w : world) : world :=
  {| api := b.1; journal := b.2; timers := timers w;
     next_timer := next_timer w; mqtt := mqtt w; arrays := arrays w;
     this := this w |}.

Definition set_timers (f : gset nat → gset nat) (w : world) : world :=
  {| api := api w; journal := journal w; timers := f (timers w);
     next_timer := next_timer w; mqtt := mqtt w; arrays := arrays w;
     this := this w |}.

Definition set_next_timer (v : nat) (w : world) : world :=
  {| api := api w; journal := journal w; timers := timers w;
     next_timer := v; mqtt := mqtt w; arrays := arrays w;
     this := this w |}.

Definition set_mqtt (v : Mqtt) (w : world) : world :=
  {| api := api w; journal := journal w; timers := timers w;
     next_timer := next_timer w; mqtt := v; arrays := arrays w;
     this := this w |}.

Definition set_arrays (f : list (list IQueue) → list (list IQueue))
    (w : world) : world :=
  {| api := api w; journal := journal w; timers := timers w;
     next_timer := next_timer w; mqtt := mqtt w; arrays := f (arrays w);
     this := this w |}.

Definition set_this (f : t → t) (w : world) : world :=
  {| api := api w; journal := journal w; timers := timers w;
     next_timer := next_timer w; mqtt := mqtt w; arrays := arrays w;
     this := f (this w) |}.

Definition in_broker {A} (m : js API.running A) : js world A :=
  zoom (λ w, (api w, journal w)) set_broker m.

Definition in_mqtt {A} (m : js Mqtt A) : js world A :=
  zoom mqtt set_mqtt m.

Definition Logger_error (e : error) : js world unit :=
  in_broker (API.log (LoggerError e)).

(** The delayed tasks currently queued: the array [_queue] refers
    to. *)
Definition queued (w : world) : list IQueue :=
  default [] (arrays w !! _queue (this w)).

Definition mqttSubscribe (topic : string) : js world unit :=
  try_catch
    (sub ← in_mqtt (mqtt_subscribe topic);
     modify (set_this (set_mqttSubscriptions (λ subs,
       if decide (sub.1 ∈ subs.*1)
       then (λ kv, if decide (kv.1 = sub.1) then sub else kv) <$> subs
       else subs ++ [sub]))))
    (λ e, Logger_error e).

Definition onStateChange (entityId : string) (callback : IStateCallback)
    (rnd now : Z) : js world unit :=
  listener ← in_broker (λ '(a, j),
    let '(info, a) := API.onState entityId callback rnd now a in
    (Normal info, (a, j)));
  modify (set_this (set_stateSubscriptions (λ subs, subs ++ [listener]))).

Definition onAutomationTrigger (entityId : string)
    (callback : ITriggerCallback)
    (rnd now : Z) : js world unit :=
  listener ← in_broker (λ '(a, j),
    let '(info, a) := API.onAutomation entityId callback rnd now a in
    (Normal info, (a, j)));
  modify (set_this
    (set_automationSubscriptions (λ subs, subs ++ [listener]))).

(** [runAt]: [now] is [Date.now()] and [rnd] is
    [Math.floor(Math.random() * 10000)] at the call; the task is pushed
    onto the current queue array in place. *)
Definition runAt (date : Date) (callback : list event → awaited)
    (now rnd : Z) : js world string :=
  let id := pretty now +:+ "-" +:+ pretty rnd in
  _ ← modify (λ w, set_arrays
         (alter (λ queue, queue ++ [{| q_id := id; q_date := date;
                                       q_callback := callback |}])
                (_queue (this w))) w);
  mret id.

(** [this._queue = this._queue.filter(keep)]: a new array. *)
Definition filter_queue (keep : IQueue → bool) : js world unit :=
  modify (λ w,
    let filtered := List.filter keep (queued w) in
    set_this (set_queue (length (arrays w)))
      (set_arrays (λ ars, ars ++ [filtered]) w)).

Definition clearRunAt (id : string) : js world unit :=
  filter_queue (λ q, bool_decide (q_id q ≠ id)).

(** [setEachMinute]: here [rnd] is
    [Math.floor(Math.random() * 1000)]. *)
Definition setEachMinute (callback : list event → completion unit)
    (now rnd : Z) : js world string :=
  let id := pretty now +:+ "-" +:+ pretty rnd in
  _ ← modify (set_this (set_eachMinutes (λ items,
         items ++ [{| em_id := id; em_callback := callback |}])));
  mret id.

Definition clearEachMinute (id : string) : js world unit :=
  modify (set_this (set_eachMinutes
    (List.filter (λ item, bool_decide (em_id item ≠ id))))).

(** The loop of [_checkQueue] from the element at [index] on, [rest]
    being the elements still to visit. *)
Fixpoint _checkQueue_loop (now : Z) (array index : nat)
    (rest : list IQueue) : js world poll :=
  match rest with
  | [] =>
      _ ← filter_queue (λ q, date_lt (Some now) (q_date q));
      mret Finished
  | queue :: rest =>
      if date_ge (Some now) (q_date queue) then
        outcome ← (λ w,
          (Normal (q_callback queue (journal w)),
           set_broker
             (api w, journal w ++ [QueueCallbackCalled (q_id queue)])
             w));
        match outcome with
        | Returned => _checkQueue_loop now array (S index) rest
        | Threw e =>
            _ ← Logger_error e;
            _checkQueue_loop now array (S index) rest
        | StillPending =>
            mret (Suspended {| f_now := now; f_array := array;
                               f_next := S index |})
        end
      else _checkQueue_loop now array (S index) rest
  end.

(** [_checkQueue] up to its first pending [await] (or its end); [now]
    is the time value of [new Date()]. *)
Definition _checkQueue (now : Z) : js world poll :=
  array ← gets (λ w, _queue (this w));
  queue ← gets queued;
  _checkQueue_loop now array 0 queue.

(** The rest of a suspended [_checkQueue] once the awaited promise has
    settled, up to the next pending [await] (or the end). *)
Definition _checkQueue_resume (f : frame) (settled : completion unit)
  : js world poll :=
  _ ← match settled with
      | Normal _ => mret tt
      | Abrupt e => Logger_error e
      end;
  queue ← gets (λ w, default [] (arrays w !! f_array f));
  _checkQueue_loop (f_now f) (f_array f) (f_next f)
    (drop (f_next f) queue).

(** [_checkEachMinute]: [current] is [new Date().getMinutes()]. *)
Definition _checkEachMinute (current : Z) : js world unit :=
  lastMinute ← gets (λ w, _lastMinute (this w));
  if decide (current = lastMinute) then mret tt
  else
    _ ← modify (set_this (set_lastMinute current));
    items ← gets (λ w, _eachMinutes (this w));
    for_of items (λ item, λ w,
      (em_callback item (journal w),
       set_broker
         (api w, journal w ++ [EachMinuteCallbackCalled (em_id item)])
         w)).

(** The host's [setTimeout] and [setInterval] hand out a new live
    handle; [clearTimeout] and [clearInterval] end one. *)
Definition host_set_timer : js world nat :=
  λ w, (Normal (next_timer w),
        set_next_timer (S (next_timer w))
          (set_timers (λ live, {[next_timer w]} ∪ live) w)).

Definition host_clear_timer (id : nat) : js world unit :=
  modify (set_timers (λ live, live ∖ {[id]})).

Definition setTimeout : js world nat :=
  id ← host_set_timer;
  _ ← modify (set_this (set_timeouts (λ hs, hs ++ [id])));
  mret id.

Definition clearTimeout (id : nat) : js world unit :=
  _ ← host_clear_timer id;
  idx ← gets (λ w, indexOf id (_timeouts (this w)));
  modify (set_this (set_timeouts (splice1 idx))).

Definition setInterval : js world nat :=
  id ← host_set_timer;
  _ ← modify (set_this (set_intervals (λ hs, hs ++ [id])));
  mret id.

Definition clearInterval (id : nat) : js world unit :=
  _ ← host_clear_timer id;
  idx ← gets (λ w, indexOf id (_intervals (this w)));
  modify (set_this (set_intervals (splice1 idx))).

(** The constructor: a new queue array and the two polling intervals
    ([_checkQueue] every 1000 ms, [_checkEachMinute] every 500 ms);
    [minute] is [new Date().getMinutes()]. *)
Definition constructor (minute : Z) : js world unit :=
  _ ← modify (λ w,
         set_this (λ _,
           {| _timeouts := []; _intervals := []; _eachMinutes := [];
              _lastMinute := minute; _mqttSubscriptions := [];
              _stateSubscriptions := []; _automationSubscriptions := [];
              _queue := length (arrays w) |})
           (set_arrays (λ ars, ars ++ [[]]) w));
  _ ← setInterval;
  _ ← setInterval;
  mret tt.

(** [destroy], section by section. *)

(* Destroy all timeouts *)
Definition destroy_timeouts : js world unit :=
  n ← gets (λ w, length (_timeouts (this w)));
  count_down n (λ i,
    id ← gets (λ w, _timeouts (this w) !! i);
    match id with
    | Some id => clearTimeout id
    | None => modify (set_this (set_timeouts (splice1 (-1))))
    end).

(* Destroy all intervals *)
Definition destroy_intervals : js world unit :=
  n ← gets (λ w, length (_intervals (this w)));
  count_down n (λ i,
    id ← gets (λ w, _intervals (this w) !! i);
    match id with
    | Some id => clearInterval id
    | None => modify (set_this (set_intervals (splice1 (-1))))
    end).

(* Destroy all queues: [this._queue[i].id] throws a TypeError when the
   array has no element [i]. *)
Definition destroy_queues : js world unit :=
  n ← gets (λ w, length (queued w));
  count_down n (λ i,
    queue ← gets (λ w, queued w !! i);
    match queue with
    | Some queue => clearRunAt (q_id queue)
    | None => throw "Cannot read properties of undefined (reading 'id')"
    end).

(* Unsubscribe mqtt *)
Definition unsubscribe_mqtt : js world unit :=
  subs ← gets (λ w, _mqttSubscriptions (this w));
  _ ← for_of subs (λ value, in_mqtt (mqtt_unsubscribe value.1 value.2));
  modify (set_this (set_mqttSubscriptions (λ _, []))).

(* Unsubscribe state changes and automation subscriptions *)
Definition unsubscribe_states : js world unit :=
  subs ← gets (λ w, _stateSubscriptions (this w));
  for_of subs (λ sub,
    try_catch
      (in_broker (API.update (API.clearOnState (entityId sub) (id sub))))
      (λ e, Logger_error e)).

Definition unsubscribe_automations : js world unit :=
  subs ← gets (λ w, _automationSubscriptions (this w));
  for_of subs (λ sub,
    try_catch
      (in_broker
         (API.update (API.clearOnAutomation (entityId sub) (id sub))))
      (λ e, Logger_error e)).

Definition destroy : js world unit :=
  _ ← destroy_timeouts;
  _ ← destroy_intervals;
  _ ← destroy_queues;
  _ ← unsubscribe_mqtt;
  _ ← unsubscribe_states;
  _ ← unsubscribe_automations;
  (* Destroy each minutes callbacks *)
  modify (set_this (set_eachMinutes (λ _, []))).

End World.

Arguments Build_world {Mqtt}.
Arguments api {Mqtt}.
Arguments journal {Mqtt}.
Arguments timers {Mqtt}.
Arguments next_timer {Mqtt}.
Arguments mqtt {Mqtt}.
Arguments arrays {Mqtt}.
Arguments this {Mqtt}.
Arguments set_broker {Mqtt}.
Arguments set_timers {Mqtt}.
Arguments set_next_timer {Mqtt}.
Arguments set_mqtt {Mqtt}.
Arguments set_arrays {Mqtt}.
Arguments set_this {Mqtt}.
Arguments in_broker {Mqtt A}.
Arguments in_mqtt {Mqtt A}.
Arguments Logger_error {Mqtt}.
Arguments queued {Mqtt}.
Arguments mqttSubscribe {Mqtt}.
Arguments onStateChange {Mqtt}.
Arguments onAutomationTrigger {Mqtt}.
Arguments runAt {Mqtt}.
Arguments filter_queue {Mqtt}.
Arguments clearRunAt {Mqtt}.
Arguments setEachMinute {Mqtt}.
Arguments clearEachMinute {Mqtt}.
Arguments _checkQueue_loop {Mqtt}.
Arguments _checkQueue {Mqtt}.
Arguments _checkQueue_resume {Mqtt}.
Arguments _checkEachMinute {Mqtt}.
Arguments host_set_timer {Mqtt}.
Arguments host_clear_timer {Mqtt}.
Arguments setTimeout {Mqtt}.
Arguments clearTimeout {Mqtt}.
Arguments setInterval {Mqtt}.
Arguments clearInterval {Mqtt}.
Arguments constructor {Mqtt}.
Arguments destroy_timeouts {Mqtt}.
Arguments destroy_intervals {Mqtt}.
Arguments destroy_queues {Mqtt}.
Arguments unsubscribe_mqtt {Mqtt}.
Arguments unsubscribe_states {Mqtt}.
Arguments unsubscribe_automations {Mqtt}.
Arguments destroy {Mqtt}.

End Automation.

(** ** automations: what the shipped modules do when they are notified *)

Module Modules.

Import Automation.

(** [Promise.all] over promises that are settled when it is called: the
    values in order, or the first rejection. *)
Fixpoint all {A} (promises : list (completion A)) : completion (list A) :=
  match promises with
  | [] => Normal []
  | Abrupt e :: _ => Abrupt e
  | Normal a :: rest =>
      match all rest with
      | Normal values => Normal (a :: values)
      | Abrupt e => Abrupt e
      end
  end.

Section Connected.

Context {Mqtt : Type}.

Variable connection_callService :
  string → string → gmap string value → completion value.

(** The async helpers of the base class that the modules use; the value
    is how the promise they return settles. *)
Definition getState (entityId : string)
  : js (world Mqtt) (completion IState) :=
  gets (λ w, API.getState entityId (api w)).

Definition callService (domain service : string)
    (entityId : option string) (data : any)
  : js (world Mqtt) (completion value) :=
  in_broker (API.callService connection_callService domain service
               entityId data).

Definition lightTurnOn (entityId : string) (data : any)
  : js (world Mqtt) (completion value) :=
  in_broker (API.callService connection_callService "light" "turn_on"
               (Some entityId) data).

Definition lightTurnOff (entityId : string) (data : any)
  : js (world Mqtt) (completion value) :=
  in_broker (API.callService connection_callService "light" "turn_off"
               (Some entityId) data).

(** A call whose promise is dropped. *)
Definition forget {A} (m : js (world Mqtt) A) : js (world Mqtt) unit :=
  _ ← m; mret tt.

(** The handler of the power button in [TradfriRemote] and in
    [LanRoomLightControl], which differ in their [lights]. It reads the
    cache when it is called; the result is how its promise settles. *)
Definition onPowerButtonToggle (lights : list string)
  : js (world Mqtt) (completion unit) :=
  promises ← gets (λ w, (λ light, API.getState light (api w)) <$> lights);
  match all promises with
  | Abrupt e => mret (Abrupt e)
  | Normal entityStates =>
      let stateValues := state <$> entityStates in
      _ ← (if bool_decide ("off" ∈ stateValues)
           then for_of lights (λ light,
                  forget (lightTurnOn light (Truthy ∅)))
           else for_of lights (λ light,
                  forget (lightTurnOff light (Truthy ∅))));
      mret (Normal tt)
  end.

Definition TradfriRemote_lights : list string :=
  ["light.lynneals_desk"; "light.declans_desk"].

Definition LanRoomLightControl_lights : list string :=
  ["light.lan_room_pixar_lamp"; "light.lan_room_terrazzo_lamp"].

(** [LitterBox] (automations/litter_box.ts): the fields of the base class
    and the module's own field. *)
Record LitterBox : Type := {
  base : world Mqtt;
  reminderHandle : option nat;
}.

Definition set_base (w : world Mqtt) (s : LitterBox) : LitterBox :=
  {| base := w; reminderHandle := reminderHandle s |}.

Definition set_reminderHandle (h : option nat) (s : LitterBox) : LitterBox :=
  {| base := base s; reminderHandle := h |}.

Definition in_base {A} (m : js (world Mqtt) A) : js LitterBox A :=
  zoom base set_base m.

Definition litterBoxBoolean : string := "input_boolean.litter_box".

Definition declansPhone : string := "mobile_app_s21".

Definition lynnsPhone : string := "mobile_app_lynn_s_s20_fe".

(** The two nested objects of the notification payloads,
    [{persistent: true, tag: 'litter-box'}] and [{tag: 'litter-box'}]. *)
Variable persistent_tag : value.
Variable tag : value.

Definition sendPersistentNotification (device : string)
  : js (world Mqtt) unit :=
  forget (callService "notify" device None
            (Truthy {[ "title" := VStr "Litter box";
                       "message" := VStr "Litter box needs to be cleaned";
                       "data" := persistent_tag ]})).

Definition clearPersistentNotification (device : string)
  : js (world Mqtt) unit :=
  forget (callService "notify" device None
            (Truthy {[ "message" := VStr "clear_notification";
                       "data" := tag ]})).

(** [onLitterBoxChange]: the reminder is started with the host's own
    [setInterval] and ended with the host's own [clearInterval], not with
    the methods of the base class. *)
Definition onLitterBoxChange : js LitterBox (completion unit) :=
  litterBox ← in_base (getState litterBoxBoolean);
  match litterBox with
  | Abrupt e => mret (Abrupt e)
  | Normal litterBox =>
      _ ← (if decide (state litterBox = "on") then
             _ ← in_base (for_of [declansPhone; lynnsPhone]
                            sendPersistentNotification);
             handle ← in_base host_set_timer;
             modify (set_reminderHandle (Some handle))
           else
             _ ← in_base (for_of [declansPhone; lynnsPhone]
                            clearPersistentNotification);
             handle ← gets reminderHandle;
             match handle with
             | Some handle => in_base (host_clear_timer handle)
             | None => mret tt
             end);
      mret (Normal tt)
  end.

End Connected.

Arguments LitterBox : clear implicits.
Arguments Build_LitterBox {Mqtt}.

End Modules.

(** ** What the journal of a dispatch must look like *)

Module Expected.

(** One state listener's share of a dispatch: its call, followed by the
    report of the error it threw, if any. *)
Definition state_listener_trace (cache : gmap string IState)
    (newState : IState) (oldState : option IState)
    (listener : API.StateListener) : list event :=
  StateListenerCalled (API.sl_id listener) newState oldState cache ::
  match API.sl_callback listener newState oldState cache with
  | Normal _ => []
  | Abrupt e => [LoggerError e]
  end.

Definition automation_listener_trace (cache : gmap string IState)
    (listener : API.AutomationListener) : list event :=
  AutomationListenerCalled (API.al_id listener) cache ::
  match API.al_callback listener cache with
  | Normal _ => []
  | Abrupt e => [LoggerError e]
  end.

(** The calls of state listeners in a journal, in order. *)
Definition state_listener_calls (journal : list event)
  : list (Z * IState * option IState * gmap string IState) :=
  omap (λ ev, match ev with
              | StateListenerCalled id n o c => Some (id, n, o, c)
              | _ => None
              end) journal.

(** Two subscriptions, through either registry. *)
Inductive registration : Type :=
| OnState (entityId : string) (callback : IStateCallback)
| OnAutomation (entityId : string) (callback : ITriggerCallback).

Definition register (r : registration) (rnd now : Z) (a : API.t)
  : listenerInfo * API.t :=
  match r with
  | OnState entityId callback => API.onState entityId callback rnd now a
  | OnAutomation entityId callback =>
      API.onAutomation entityId callback rnd now a
  end.

(** The own properties of the [data] argument of [callService]. *)
Definition props_of (data : any) : gmap string value :=
  match data with
  | Truthy props => props
  | Falsy => ∅
  end.

(** The state [_syncStates] stores for an entity: the last fetched state
    that carries its id, with its timestamps as dates. *)
Definition fetched_state (parse : string → Date) (states : list IState)
    (entityId : string) : option IState :=
  last (filter (λ s, entity_id s = entityId)
          (API.with_dates parse <$> states)).

(** What [destroy] does to the registries: one [clearOnState] (or
    [clearOnAutomation]) per recorded subscription, in order. *)
Definition clear_states (subs : list listenerInfo) (a : API.t) : API.t :=
  foldl (λ a sub, API.clearOnState (entityId sub) (id sub) a) a subs.

Definition clear_automations (subs : list listenerInfo) (a : API.t)
  : API.t :=
  foldl (λ a sub, API.clearOnAutomation (entityId sub) (id sub) a) a subs.

(** The ids of the listeners registered for an entity, in order. *)
Definition state_listener_ids (a : API.t) (entityId : string) : list Z :=
  API.sl_id <$> default [] (API._stateListeners a !! entityId).

Definition automation_listener_ids (a : API.t) (entityId : string)
  : list Z :=
  API.al_id <$> default [] (API._automationListeners a !! entityId).

(** The ids a module recorded for one entity. *)
Definition recorded (subs : list listenerInfo) (e : string) : list Z :=
  id <$> filter (λ sub, entityId sub = e) subs.

(** Timeouts and intervals are tracked and cleared alike. *)
Inductive timer_kind : Type := Timeout | Interval.

Definition tracked {Mqtt} (k : timer_kind) (w : Automation.world Mqtt)
  : list nat :=
  match k with
  | Timeout => Automation._timeouts (Automation.this w)
  | Interval => Automation._intervals (Automation.this w)
  end.

Definition clear_timer {Mqtt} (k : timer_kind) (id : nat)
  : js (Automation.world Mqtt) unit :=
  match k with
  | Timeout => Automation.clearTimeout id
  | Interval => Automation.clearInterval id
  end.

(** Code that leaves the host's timers alone, however it completes. *)
Definition keeps_timers {Mqtt A} (m : js (Automation.world Mqtt) A) : Prop :=
  ∀ w, Automation.timers (m w).2 = Automation.timers w.

(** The journal after a poll at [now] has visited the tasks [rest], none
    of which stays pending. *)
Fixpoint poll_journal (now : Z) (rest : list Automation.IQueue)
    (journal : list event) : list event :=
  match rest with
  | [] => journal
  | q :: rest =>
      if date_ge (Some now) (Automation.q_date q) then
        let called :=
          journal ++ [QueueCallbackCalled (Automation.q_id q)] in
        match Automation.q_callback q journal with
        | Automation.Threw e =>
            poll_journal now rest (called ++ [LoggerError e])
        | _ => poll_journal now rest called
        end
      else poll_journal now rest journal
  end.

(** The calls of delayed tasks in a journal, in order. *)
Definition queue_calls (journal : list event) : list string :=
  omap (λ ev, match ev with
              | QueueCallbackCalled id => Some id
              | _ => None
              end) journal.

(** Taking a subscription back, through the registry it was made in. *)
Definition unregister (r : registration) (info : listenerInfo) (a : API.t)
  : API.t :=
  match r with
  | OnState _ _ => API.clearOnState (entityId info) (id info) a
  | OnAutomation _ _ => API.clearOnAutomation (entityId info) (id info) a
  end.

(** The ids registered for the entity of a subscription, in its
    registry. *)
Definition registered_ids (r : registration) (a : API.t) : list Z :=
  match r with
  | OnState e _ => state_listener_ids a e
  | OnAutomation e _ => automation_listener_ids a e
  end.

(** No entity is registered with an empty array of listeners. *)
Definition no_empty_array (a : API.t) : Prop :=
  (∀ e, API._stateListeners a !! e ≠ Some [])
  ∧ (∀ e, API._automationListeners a !! e ≠ Some []).

(** The calls of automation listeners in a journal, in order. *)
Definition automation_listener_calls (journal : list event)
  : list (Z * gmap string IState) :=
  omap (λ ev, match ev with
              | AutomationListenerCalled id c => Some (id, c)
              | _ => None
              end) journal.

(** The ids of the listeners called in a journal, in order. *)
Definition called_state_listeners (journal : list event) : list Z :=
  omap (λ ev, match ev with
              | StateListenerCalled id _ _ _ => Some id
              | _ => None
              end) journal.

Definition called_automation_listeners (journal : list event) : list Z :=
  omap (λ ev, match ev with
              | AutomationListenerCalled id _ => Some id
              | _ => None
              end) journal.

(** The calls of per-minute callbacks in a journal, in order. *)
Definition each_minute_calls (journal : list event) : list string :=
  omap (λ ev, match ev with
              | EachMinuteCallbackCalled id => Some id
              | _ => None
              end) journal.

(** The requests sent over the connection in a journal, in order. *)
Definition service_calls (journal : list event)
  : list (string * string * gmap string value) :=
  omap (λ ev, match ev with
              | ConnectionCallService domain service options =>
                  Some (domain, service, options)
              | _ => None
              end) journal.

Definition set_timer {Mqtt} (k : timer_kind)
  : js (Automation.world Mqtt) nat :=
  match k with
  | Timeout => Automation.setTimeout
  | Interval => Automation.setInterval
  end.

End Expected.

(** ** Concrete brokers and modules used below *)

Module Scenario.

Definition entity (entityId status : string) : IState :=
  {| entity_id := entityId; state := status; attributes := ∅;
     last_changed := Raw "2024-05-01T10:00:00.000Z";
     last_updated := Raw "2024-05-01T10:00:00.000Z" |}.

Definition no_broker : API.t :=
  {| API._states := ∅; API._stateListeners := ∅;
     API._automationListeners := ∅ |}.

Definition quiet : IStateCallback := λ _ _ _, Normal Nothing.

Definition quiet_trigger : ITriggerCallback := λ _, Normal Nothing.

(** An async listener whose promise is rejected. *)
Definition rejecting : IStateCallback :=
  λ _ _ _, Normal (APromise (Abrupt "light.attic state not available")).

Definition rejecting_trigger : ITriggerCallback :=
  λ _, Normal (APromise (Abrupt "light.attic state not available")).

(** A parser for the one timestamp the scenarios use. *)
Definition parse_date (s : string) : Date :=
  if decide (s = "2024-05-01T10:00:00.000Z") then Some 1714557600000
  else None.

(** A connection that acknowledges every service call. *)
Definition acknowledge (domain service : string)
    (options : gmap string value) : completion value :=
  Normal VNull.

(** The state a piece of code leaves. *)
Definition run {S A} (m : js S A) (s : S) : S := (m s).2.

(** Stand-ins for the mqtt client: one that hands back the topic with id
    1, one whose unsubscribe returns and one whose unsubscribe throws. *)
Definition answering_subscribe (topic : string) : js unit (string * Z) :=
  ret (topic, 1).

Definition quiet_unsubscribe (topic : string) (id : Z) : js unit unit :=
  ret tt.

Definition failing_unsubscribe (topic : string) (id : Z) : js unit unit :=
  throw "client disconnecting".

Import Automation.

Definition blank : world unit :=
  {| api := no_broker; journal := []; timers := ∅; next_timer := 0;
     mqtt := tt; arrays := [];
     this := {| _timeouts := []; _intervals := []; _eachMinutes := [];
                _lastMinute := 0; _mqttSubscriptions := [];
                _stateSubscriptions := []; _automationSubscriptions := [];
                _queue := 0 |} |}.

(** A module right after its constructor: handles 0 and 1 are its two
    polling intervals. *)
Definition fresh_module : world unit := run (constructor 30) blank.

(** The date of the delayed tasks: one second after the [runAt] calls. *)
Definition target : Date := Some 1714557601000.

(** A module with one of everything, its two delayed tasks queued with
    different ids. *)
Definition tidy_module : world unit :=
  run (_ ← setTimeout;
       _ ← mqttSubscribe answering_subscribe "home/door";
       _ ← onStateChange "light.hall" quiet 7 1714557600000;
       _ ← onAutomationTrigger "automation.door" quiet_trigger 8
             1714557600000;
       _ ← runAt target (λ _, Returned) 1714557600000 42;
       _ ← runAt target (λ _, Returned) 1714557600000 43;
       setEachMinute (λ _, Normal tt) 1714557600000 5) fresh_module.

(** A module whose two [runAt] calls fell into the same millisecond and
    drew the same random part. *)
Definition colliding_module : world unit :=
  run (_ ← onStateChange "light.hall" quiet 7 1714557600000;
       _ ← setEachMinute (λ _, Normal tt) 1714557600000 5;
       _ ← runAt target (λ _, Returned) 1714557600000 42;
       runAt target (λ _, Returned) 1714557600000 42) fresh_module.

Definition mqtt_module : world unit :=
  run (_ ← mqttSubscribe answering_subscribe "home/door";
       onStateChange "light.hall" quiet 7 1714557600000) fresh_module.

(** A module with two delayed tasks, the first of which throws. *)
Definition failing_task_module : world unit :=
  run (_ ← runAt target (λ _, Threw "service unavailable") 1714557600000 42;
       runAt target (λ _, Returned) 1714557600000 43) fresh_module.

(** A module with one delayed task whose promise stays pending. *)
Definition slow_module : world unit :=
  run (runAt target (λ _, StillPending) 1714557600000 42) fresh_module.

(** A module with two delayed tasks, the first of which stays pending. *)
Definition busy_module : world unit :=
  run (_ ← runAt target (λ _, StillPending) 1714557600000 42;
       runAt target (λ _, Returned) 1714557600000 43) fresh_module.

(** A module with one delayed task whose date is invalid. *)
Definition undated_module : world unit :=
  run (runAt None (λ _, Returned) 1714557600000 42) fresh_module.

(** A module that tracks the timeouts 2 and 3. *)
Definition two_timeouts : world unit :=
  run (_ ← setTimeout; setTimeout) fresh_module.

(** A broker with one state listener and one automation listener. *)
Definition small_broker : API.t :=
  {| API._states := ∅;
     API._stateListeners :=
       {[ "light.hall" := [{| API.sl_id := 5; API.sl_callback := quiet |}] ]};
     API._automationListeners :=
       {[ "automation.door" :=
            [{| API.al_id := 6; API.al_callback := quiet_trigger |}] ]} |}.

(** The one delayed task of [slow_module]. *)
Definition slow_task : IQueue :=
  {| q_id := "1714557600000-42"; q_date := target;
     q_callback := λ _, StillPending |}.

(** A host for the loader: its one automation is the module of the
    world, the module cache needs no care, and a construction runs the
    constructor of the base class. *)
Definition door_file : string := "/srv/automations/door.ts".

Definition keep_cache (filename : string) : js (world unit) unit := ret tt.

Definition construct_module (filename : string) : js (world unit) nat :=
  _ ← constructor 30; mret 1%nat.

Definition destroy_module (c : nat) : js (world unit) unit :=
  destroy quiet_unsubscribe.

Definition loaded (w : world unit) : Loader.t (world unit) nat :=
  {| Loader._automations := [(door_file, 0%nat)]; Loader.host := w |}.

(** A module that finds the first desk light off and the second on. *)
Definition desk_lights : world unit :=
  set_broker
    ({| API._states :=
          {[ "light.lynneals_desk" := entity "light.lynneals_desk" "off";
             "light.declans_desk" := entity "light.declans_desk" "on" ]};
        API._stateListeners := ∅;
        API._automationListeners := ∅ |}, []) fresh_module.

(** A litter box module that finds the litter box on. *)
Definition litter_box_on : Modules.LitterBox unit :=
  {| Modules.base :=
       set_broker
         ({| API._states :=
               {[ Modules.litterBoxBoolean :=
                    entity Modules.litterBoxBoolean "on" ]};
             API._stateListeners := ∅;
             API._automationListeners := ∅ |}, []) fresh_module;
     Modules.reminderHandle := None |}.

End Scenario.

(** * Properties *)

Ltac js_unfold :=
  unfold mbind, js_bind, mret, js_ret, bind, ret, gets, modify, throw,
    try_catch, zoom in *.

(** ** Arrays *)

Section Arrays.

Context `{EqDecision A}.
Implicit Types (x : A) (xs : list A).

Lemma indexOf_bounds x xs : -1 ≤ indexOf x xs < Z.of_nat (length xs).
Proof.
  induction xs as [|y ys IH]; simpl; [lia|].
  destruct (decide (y = x)); [lia|].
  destruct (indexOf x ys); lia.
Qed.

Lemma indexOf_absent x xs : x ∉ xs → indexOf x xs = -1.
Proof.
  induction xs as [|y ys IH]; simpl; [done|].
  rewrite not_elem_of_cons. intros [Hne Hnotin].
  destruct (decide (y = x)); [congruence|].
  by rewrite IH.
Qed.

Lemma indexOf_present x xs :
  x ∈ xs →
  ∃ i, indexOf x xs = Z.of_nat i ∧ xs !! i = Some x ∧ x ∉ take i xs.
Proof.
  induction xs as [|y ys IH]; simpl.
  - by intros ?%elem_of_nil.
  - intros Hin. destruct (decide (y = x)) as [->|Hne].
    + exists 0%nat. repeat split. simpl. apply not_elem_of_nil.
    + apply elem_of_cons in Hin as [?|Hin]; [congruence|].
      destruct (IH Hin) as (i & -> & Hi & Hfirst).
      exists (S i). split; [|split; [done|]].
      * destruct i; simpl; lia.
      * simpl. rewrite not_elem_of_cons. split; [congruence|done].
Qed.

Lemma splice1_last xs x : splice1 (-1) (xs ++ [x]) = xs.
Proof.
  unfold splice1. rewrite length_app; simpl.
  replace (Z.to_nat ((Z.of_nat (length xs + 1) + -1) `max` 0))
    with (length xs) by lia.
  by rewrite delete_middle, app_nil_r.
Qed.

Lemma splice1_at (i : nat) xs : splice1 (Z.of_nat i) xs = delete i xs.
Proof.
  unfold splice1. rewrite bool_decide_eq_false_2 by lia.
  destruct (decide (i < length xs)%nat).
  - by replace (Z.to_nat (Z.of_nat i `min` Z.of_nat (length xs))) with i by lia.
  - replace (Z.to_nat (Z.of_nat i `min` Z.of_nat (length xs)))
      with (length xs) by lia.
    rewrite !delete_take_drop, !drop_ge, !take_ge by lia. done.
Qed.

(** Removing the first occurrence of the last element leaves the same
    elements besides that one. *)
Lemma splice1_indexOf_last xs x :
  ∃ ys, splice1 (indexOf x (xs ++ [x])) (xs ++ [x]) = ys
        ∧ length ys = length xs
        ∧ (∀ y, y ∈ xs ++ [x] ↔ y ∈ ys ∨ y = x)
        ∧ (x ∉ xs → ys = xs).
Proof.
  destruct (indexOf_present x (xs ++ [x])) as (i & Hi & Hlook & Hfirst).
  { set_solver. }
  rewrite Hi, splice1_at. eexists; split; [done|].
  assert (Hlt : (i < length (xs ++ [x]))%nat) by by eapply lookup_lt_Some.
  split; [|split].
  - rewrite length_delete by eauto. rewrite length_app. simpl. lia.
  - intros y. rewrite delete_take_drop.
    rewrite <- (take_drop_middle _ _ _ Hlook) at 1.
    rewrite !elem_of_app, elem_of_cons. tauto.
  - intros Hnotin.
    destruct (decide (i = length xs)) as [->|Hne].
    + by rewrite delete_middle, app_nil_r.
    + rewrite length_app in Hlt; simpl in Hlt.
      rewrite lookup_app_l in Hlook by lia.
      apply list_elem_of_lookup_2 in Hlook. done.
Qed.

End Arrays.

(** ** The broker *)

Section Broker_dispatch.

Import API Expected.

Lemma notify_state_listeners (a : API.t) (newState : IState)
    (oldState : option IState) (listeners : list StateListener) :
  ∀ journal,
    for_of listeners (λ listener,
      try_catch (call_state_listener listener newState oldState)
                (λ e, log (LoggerError e))) (a, journal)
    = (Normal tt,
       (a, journal ++
           flat_map (state_listener_trace (_states a) newState oldState)
                    listeners)).
Proof.
  induction listeners as [|l ls IH]; intros journal; simpl.
  - by rewrite app_nil_r.
  - unfold bind, try_catch, call_state_listener, state_listener_trace.
    destruct (sl_callback l newState oldState (_states a)) as [[]|e];
      simpl; rewrite IH; by rewrite <- !app_assoc.
Qed.

Lemma notify_automation_listeners (a : API.t)
    (listeners : list AutomationListener) :
  ∀ journal,
    for_of listeners (λ listener,
      try_catch (call_automation_listener listener)
                (λ e, log (LoggerError e))) (a, journal)
    = (Normal tt,
       (a, journal ++
           flat_map (automation_listener_trace (_states a)) listeners)).
Proof.
  induction listeners as [|l ls IH]; intros journal; simpl.
  - by rewrite app_nil_r.
  - unfold bind, try_catch, call_automation_listener,
      automation_listener_trace.
    destruct (al_callback l (_states a)) as [[]|e];
      simpl; rewrite IH; by rewrite <- !app_assoc.
Qed.

Lemma _onStateChange_some (a : API.t) (journal : list event)
    (entityId : string) (newState : IState) (oldState : option IState) :
  _onStateChange
    {| sc_entity_id := entityId; new_state := Some newState;
       old_state := oldState |}
    (a, journal)
  = let a' := set_states <[entity_id newState := newState]> a in
    (Normal tt,
     (a', journal ++
          flat_map (state_listener_trace (_states a') newState oldState)
            (default [] (_stateListeners a !! entity_id newState)))).
Proof.
  unfold _onStateChange; simpl.
  unfold mbind, js_bind, bind, update, gets, modify; simpl.
  destruct (_stateListeners a !! entity_id newState) as [ls|] eqn:E; simpl.
  - apply notify_state_listeners.
  - by rewrite app_nil_r.
Qed.

Lemma _onAutomationTrigger_eq (a : API.t) (journal : list event)
    (data : automation_triggered) :
  _onAutomationTrigger data (a, journal)
  = (Normal tt,
     (a, journal ++
         flat_map (automation_listener_trace (_states a))
           (default [] (_automationListeners a !! at_entity_id data)))).
Proof.
  unfold _onAutomationTrigger.
  unfold mbind, js_bind, bind, gets; simpl.
  destruct (_automationListeners a !! at_entity_id data) as [ls|]; simpl.
  - apply notify_automation_listeners.
  - by rewrite app_nil_r.
Qed.

Lemma state_listener_calls_trace (cache : gmap string IState)
    (newState : IState) (oldState : option IState)
    (listeners : list StateListener) :
  state_listener_calls
    (flat_map (state_listener_trace cache newState oldState) listeners)
  = (λ l, (sl_id l, newState, oldState, cache)) <$> listeners.
Proof.
  induction listeners as [|l ls IH]; [done|].
  simpl. unfold state_listener_calls in *.
  rewrite omap_app, IH.
  by destruct (sl_callback l newState oldState cache).
Qed.

(** Both registries are cleared alike: the entity's array is filtered, and
    its key is deleted when nothing is left. *)
Ltac registry_after_clear registry e e' :=
  destruct (registry !! e') as [ls|] eqn:Hls;
  [ destruct (decide (length (filter _ ls) = 0%nat)) as [Hnil|Hne]; simpl;
    [ apply nil_length_inv in Hnil;
      destruct (decide (e = e')) as [->|Hee];
      [ by rewrite lookup_delete_eq, Hls | by rewrite lookup_delete_ne ]
    | destruct (decide (e = e')) as [->|Hee];
      [ by rewrite lookup_insert_eq, Hls | by rewrite lookup_insert_ne ] ]
  | destruct (decide (e = e')) as [->|Hee]; [by rewrite Hls|done] ].

Lemma clearOnState_listeners (a : API.t) (e e' : string) (i : Z) :
  default [] (_stateListeners (clearOnState e' i a) !! e)
  = if decide (e = e')
    then filter (λ l, sl_id l ≠ i) (default [] (_stateListeners a !! e))
    else default [] (_stateListeners a !! e).
Proof.
  unfold clearOnState. registry_after_clear (_stateListeners a) e e'.
Qed.

Lemma clearOnAutomation_listeners (a : API.t) (e e' : string) (i : Z) :
  default [] (_automationListeners (clearOnAutomation e' i a) !! e)
  = if decide (e = e')
    then filter (λ l, al_id l ≠ i)
           (default [] (_automationListeners a !! e))
    else default [] (_automationListeners a !! e).
Proof.
  unfold clearOnAutomation.
  registry_after_clear (_automationListeners a) e e'.
Qed.

Lemma filter_keeps_every {A} (P : A → Prop) `{∀ x, Decision (P x)}
    (xs : list A) :
  (∀ x, x ∈ xs → P x) → filter P xs = xs.
Proof.
  induction xs as [|x xs IH]; intros Hall; [done|].
  rewrite filter_cons_True by (apply Hall; left).
  f_equal. apply IH. intros y Hy. apply Hall. by right.
Qed.

(** C1: a [state_changed] event for an entity with registered listeners
    first stores the new state in the cache, so that [getState] already
    returns it in every listener, then calls every listener of the entity
    exactly once, in the order of the registry's array, with the new and
    the old state: what the dispatch adds to the journal is, listener by
    listener, the call and then the error the callback threw on these
    arguments and this cache, if it threw. That order is the order of
    registration: [onState] appends to the array, and [clearOnState] keeps
    the order of the listeners it leaves. *)
Theorem state_changed_updates_cache_then_notifies_in_order
    (a : API.t) (journal : list event) (entityId : string)
    (newState : IState) (oldState : option IState)
    (listeners : list StateListener) :
  _stateListeners a !! entity_id newState = Some listeners →
  ∃ a' journal',
    _onStateChange
      {| sc_entity_id := entityId; new_state := Some newState;
         old_state := oldState |}
      (a, journal) = (Normal tt, (a', journal'))
    ∧ _states a' = <[entity_id newState := newState]> (_states a)
    ∧ getState (entity_id newState) a' = Normal newState
    ∧ journal'
      = journal ++
        flat_map (state_listener_trace (_states a') newState oldState)
          listeners
    ∧ (∃ added, journal' = journal ++ added
         ∧ state_listener_calls added
           = (λ l, (sl_id l, newState, oldState, _states a'))
             <$> listeners)
    ∧ (∀ callback rnd now,
         _stateListeners
           (onState (entity_id newState) callback rnd now a').2
           !! entity_id newState
         = Some (listeners ++
                 [{| sl_id := rnd + now; sl_callback := callback |}]))
    ∧ (∀ i,
         default []
           (_stateListeners (clearOnState (entity_id newState) i a')
              !! entity_id newState)
         = filter (λ l, sl_id l ≠ i) listeners).
Proof.
  intros Hreg. rewrite _onStateChange_some, Hreg. simpl.
  eexists _, _. split; [reflexivity|].
  split; [done|]. split.
  { unfold getState; simpl. by rewrite lookup_insert_eq. }
  split; [reflexivity|].
  split.
  { eexists; split; [reflexivity|]. apply state_listener_calls_trace. }
  split.
  - intros callback rnd now. unfold onState; simpl. rewrite Hreg; simpl.
    by rewrite lookup_insert_eq.
  - intros i. rewrite clearOnState_listeners, decide_True by done.
    simpl. by rewrite Hreg.
Qed.

(** X26: A state or automation listener that throws while it is called is
    caught where it is called and its error is logged; every listener of
    the entity is still called, in order, the cache keeps the update made
    before the dispatch, the registries are as they were, and the handler
    itself completes normally, so nothing reaches the connection. *)
Theorem listener_errors_are_caught_and_logged
    (a : API.t) (journal : list event) (entityId : string)
    (newState : IState) (oldState : option IState)
    (trigger : automation_triggered)
    (stateListeners : list StateListener)
    (automationListeners : list AutomationListener) :
  (_stateListeners a !! entity_id newState = Some stateListeners →
   ∃ a',
     _onStateChange
       {| sc_entity_id := entityId; new_state := Some newState;
          old_state := oldState |}
       (a, journal)
     = (Normal tt,
        (a', journal ++
             flat_map (state_listener_trace (_states a') newState oldState)
               stateListeners))
     ∧ _states a' = <[entity_id newState := newState]> (_states a)
     ∧ _stateListeners a' = _stateListeners a
     ∧ _automationListeners a' = _automationListeners a)
  ∧ (_automationListeners a !! at_entity_id trigger
       = Some automationListeners →
     _onAutomationTrigger trigger (a, journal)
     = (Normal tt,
        (a, journal ++
            flat_map (automation_listener_trace (_states a))
              automationListeners))).
Proof.
  split; intros Hreg.
  - rewrite _onStateChange_some, Hreg. simpl.
    by exists (set_states <[entity_id newState := newState]> a).
  - by rewrite _onAutomationTrigger_eq, Hreg.
Qed.

(** C8: a [state_changed] event whose [new_state] is null changes nothing:
    the cache is the same for every entity, the registries are the same and
    no listener is called (the journal does not grow). *)
Theorem null_new_state_is_ignored
    (a : API.t) (journal : list event) (entityId : string)
    (oldState : option IState) :
  ∃ a' journal',
    _onStateChange
      {| sc_entity_id := entityId; new_state := None;
         old_state := oldState |}
      (a, journal) = (Normal tt, (a', journal'))
    ∧ (∀ e, _states a' !! e = _states a !! e)
    ∧ a' = a
    ∧ journal' = journal.
Proof. by exists a, journal. Qed.

(** C9: [getState] on an entity that is not in the cache fails with the
    error "<entity> state not available", and on a cached entity it returns
    the cached state as it is; it only reads the cache. *)
Theorem getState_fails_on_unseen_entity_and_returns_cached
    (a : API.t) (entityId : string) :
  (_states a !! entityId = None →
   getState entityId a = Abrupt (entityId +:+ " state not available"))
  ∧ (∀ cached, _states a !! entityId = Some cached →
       getState entityId a = Normal cached).
Proof.
  unfold getState. split.
  - by intros ->.
  - by intros cached ->.
Qed.

(** X2: Removing a subscription: [clearOnState] takes the listeners with the
    given id out of the entity's array and keeps the others in order; the
    entity's key is dropped when no listener is left; other entities, the
    cache and the automation registry are untouched; and when the entity
    has listeners but none with that id, nothing changes at all. *)
Theorem clearOnState_removes_the_listeners_with_that_id
    (a : API.t) (entityId : string) (i : Z) :
  let a' := clearOnState entityId i a in
  (∀ e, default [] (_stateListeners a' !! e)
        = if decide (e = entityId)
          then filter (λ l, sl_id l ≠ i)
                 (default [] (_stateListeners a !! e))
          else default [] (_stateListeners a !! e))
  ∧ _stateListeners a' !! entityId ≠ Some []
  ∧ (∀ e, e ≠ entityId → _stateListeners a' !! e = _stateListeners a !! e)
  ∧ _states a' = _states a
  ∧ _automationListeners a' = _automationListeners a
  ∧ (∀ listeners, _stateListeners a !! entityId = Some listeners →
       listeners ≠ [] → i ∉ sl_id <$> listeners → a' = a)
  ∧ (_stateListeners a !! entityId = None → a' = a).
Proof.
  intros a'. split; [intros e; apply clearOnState_listeners|].
  subst a'. unfold clearOnState.
  destruct (_stateListeners a !! entityId) as [ls|] eqn:Hls.
  - assert (Hsame : i ∉ sl_id <$> ls → filter (λ l, sl_id l ≠ i) ls = ls).
    { intros Hnotin. apply filter_keeps_every. intros l Hl Heq.
      apply Hnotin. rewrite <- Heq. by apply list_elem_of_fmap_2. }
    destruct (decide (length (filter (λ l, sl_id l ≠ i) ls) = 0%nat))
      as [Hnil|Hne]; simpl.
    + split; [by rewrite lookup_delete_eq|].
      split; [intros e He; by rewrite lookup_delete_ne|].
      split; [done|]. split; [done|]. split; [|done].
      intros listeners [= <-] Hne Hnotin. exfalso.
      apply nil_length_inv in Hnil. apply Hne.
      by rewrite <- Hnil, Hsame.
    + split.
      { rewrite lookup_insert_eq. intros [= Heq]. by rewrite Heq in Hne. }
      split; [intros e He; by rewrite lookup_insert_ne|].
      split; [done|]. split; [done|]. split; [|done].
      intros listeners [= <-] _ Hnotin. rewrite Hsame by done.
      destruct a as [st sl al]; simpl in *. unfold set_stateListeners; simpl.
      f_equal. by apply insert_id.
  - split; [by rewrite Hls|]. by repeat split.
Qed.

(** X3: A listener that was unsubscribed is not called any more: the next
    [state_changed] event for its entity calls exactly the listeners of
    the entity that carry another id, in order. *)
Theorem unsubscribed_listener_receives_no_further_event
    (a : API.t) (journal : list event) (entityId : string)
    (newState : IState) (oldState : option IState) (i : Z) :
  let a1 := clearOnState (entity_id newState) i a in
  ∃ a2 added,
    _onStateChange
      {| sc_entity_id := entityId; new_state := Some newState;
         old_state := oldState |}
      (a1, journal) = (Normal tt, (a2, journal ++ added))
    ∧ state_listener_calls added
      = (λ l, (sl_id l, newState, oldState, _states a2))
        <$> filter (λ l, sl_id l ≠ i)
              (default [] (_stateListeners a !! entity_id newState))
    ∧ (∀ call, call ∈ state_listener_calls added → call.1.1.1 ≠ i).
Proof.
  intros a1. rewrite _onStateChange_some. simpl.
  eexists _, _. split; [reflexivity|].
  assert (Hcalls : ∀ cache,
    state_listener_calls
      (flat_map (state_listener_trace cache newState oldState)
         (default [] (_stateListeners a1 !! entity_id newState)))
    = (λ l, (sl_id l, newState, oldState, cache))
      <$> filter (λ l, sl_id l ≠ i)
            (default [] (_stateListeners a !! entity_id newState))).
  { intros cache. rewrite state_listener_calls_trace. subst a1.
    rewrite clearOnState_listeners. by rewrite decide_True. }
  split; [apply Hcalls|].
  intros call. rewrite Hcalls, list_elem_of_fmap.
  intros (l & -> & Hl). simpl.
  by apply list_elem_of_filter in Hl as [? _].
Qed.

End Broker_dispatch.

Section Broker_dispatch_witnesses.

Import API Expected Scenario.

Lemma state_changed_updates_cache_then_notifies_in_order_witness :
  let listeners := [{| sl_id := 5; sl_callback := quiet |};
                    {| sl_id := 9; sl_callback := λ _ _ _, Abrupt "oops" |}]
  in
  let a := set_stateListeners <["light.hall" := listeners]> no_broker in
  let newState := entity "light.hall" "on" in
  _stateListeners a !! entity_id newState = Some listeners
  ∧ ∃ a' journal',
      _onStateChange
        {| sc_entity_id := "light.hall"; new_state := Some newState;
           old_state := None |}
        (a, []) = (Normal tt, (a', journal'))
      ∧ getState (entity_id newState) a' = Normal newState
      ∧ journal' = [StateListenerCalled 5 newState None (_states a');
                    StateListenerCalled 9 newState None (_states a');
                    LoggerError "oops"]
      ∧ state_listener_calls journal'
        = [(5, newState, None, _states a'); (9, newState, None, _states a')].
Proof.
  intros listeners a newState.
  assert (Hreg : _stateListeners a !! entity_id newState = Some listeners)
    by reflexivity.
  split; [exact Hreg|].
  destruct (state_changed_updates_cache_then_notifies_in_order
              a [] "light.hall" newState None listeners Hreg)
    as (a' & journal' & Hrun & _ & Hget & Hjournal
        & (added & Hadded & Hcalls) & _).
  exists a', journal'.
  split; [exact Hrun|]. split; [exact Hget|]. split; [exact Hjournal|].
  rewrite Hadded. exact Hcalls.
Defined.

Lemma listener_errors_are_caught_and_logged_witness :
  let listeners := [{| sl_id := 5; sl_callback := λ _ _ _, Abrupt "oops" |};
                    {| sl_id := 9; sl_callback := quiet |}] in
  let triggers := [{| al_id := 6; al_callback := λ _, Abrupt "ouch" |};
                   {| al_id := 8; al_callback := quiet_trigger |}] in
  let a := set_automationListeners <["automation.door" := triggers]>
             (set_stateListeners <["light.hall" := listeners]> no_broker) in
  let newState := entity "light.hall" "on" in
  let trigger := {| name := "door"; at_entity_id := "automation.door" |} in
  (_stateListeners a !! entity_id newState = Some listeners
   ∧ ∃ a',
       _onStateChange
         {| sc_entity_id := "light.hall"; new_state := Some newState;
            old_state := None |}
         (a, [])
       = (Normal tt,
          (a', [StateListenerCalled 5 newState None (_states a');
                LoggerError "oops";
                StateListenerCalled 9 newState None (_states a')]))
       ∧ _states a' = <[entity_id newState := newState]> (_states a))
  ∧ (_automationListeners a !! at_entity_id trigger = Some triggers
     ∧ _onAutomationTrigger trigger (a, [])
       = (Normal tt,
          (a, [AutomationListenerCalled 6 (_states a);
               LoggerError "ouch";
               AutomationListenerCalled 8 (_states a)]))).
Proof.
  intros listeners triggers a newState trigger.
  assert (Hs : _stateListeners a !! entity_id newState = Some listeners)
    by reflexivity.
  assert (Ha : _automationListeners a !! at_entity_id trigger
               = Some triggers) by reflexivity.
  split; (split; [assumption|]).
  - destruct (proj1 (listener_errors_are_caught_and_logged
                       a [] "light.hall" newState None trigger listeners
                       triggers) Hs)
      as (a' & Hrun & Hcache & _).
    exists a'. split; [exact Hrun|exact Hcache].
  - exact (proj2 (listener_errors_are_caught_and_logged
                    a [] "light.hall" newState None trigger listeners
                    triggers) Ha).
Defined.

Lemma getState_fails_on_unseen_entity_and_returns_cached_witness :
  let a := set_states <["light.hall" := entity "light.hall" "on"]>
             no_broker in
  (_states a !! "light.attic" = None
   ∧ getState "light.attic" a = Abrupt "light.attic state not available")
  ∧ (_states a !! "light.hall" = Some (entity "light.hall" "on")
     ∧ getState "light.hall" a = Normal (entity "light.hall" "on")).
Proof.
  intros a. split; split.
  - reflexivity.
  - apply (proj1 (getState_fails_on_unseen_entity_and_returns_cached
                    a "light.attic")).
    reflexivity.
  - reflexivity.
  - apply (proj2 (getState_fails_on_unseen_entity_and_returns_cached
                    a "light.hall")).
    reflexivity.
Defined.

(** C7, at the failing input: a listener that is an async function does
    not throw when its body fails, it returns a promise that is rejected.
    The dispatch neither awaits that promise nor attaches a handler to it.
    Of two listeners of an entity, the first of which fails this way, both
    are called and the handler completes normally, but nothing is logged:
    the failure of the first listener is caught and reported nowhere. The
    listeners of an automation fare the same. *)
Theorem rejected_promise_of_a_listener_is_not_reported :
  let listeners := [{| sl_id := 5; sl_callback := rejecting |};
                    {| sl_id := 9; sl_callback := quiet |}] in
  let triggers := [{| al_id := 6; al_callback := rejecting_trigger |};
                   {| al_id := 8; al_callback := quiet_trigger |}] in
  let a := set_automationListeners <["automation.door" := triggers]>
             (set_stateListeners <["light.hall" := listeners]> no_broker) in
  let newState := entity "light.hall" "on" in
  let trigger := {| name := "door"; at_entity_id := "automation.door" |} in
  (∃ a',
     _stateListeners a !! entity_id newState = Some listeners
     ∧ _onStateChange
         {| sc_entity_id := "light.hall"; new_state := Some newState;
            old_state := None |}
         (a, [])
       = (Normal tt,
          (a', [StateListenerCalled 5 newState None (_states a');
                StateListenerCalled 9 newState None (_states a')]))
     ∧ rejecting newState None (_states a')
       = Normal (APromise (Abrupt "light.attic state not available")))
  ∧ (_automationListeners a !! at_entity_id trigger = Some triggers
     ∧ _onAutomationTrigger trigger (a, [])
       = (Normal tt,
          (a, [AutomationListenerCalled 6 (_states a);
               AutomationListenerCalled 8 (_states a)]))
     ∧ rejecting_trigger (_states a)
       = Normal (APromise (Abrupt "light.attic state not available"))).
Proof.
  intros listeners triggers a newState trigger. split.
  - eexists. split; [reflexivity|]. split; reflexivity.
  - split; [reflexivity|]. split; reflexivity.
Qed.

End Broker_dispatch_witnesses.

Section Broker_calls.

Import API Expected Scenario.

Lemma foldl_set_states_listeners (states : list IState) :
  ∀ a,
    let a' := foldl (λ a state,
                set_states <[entity_id state := state]> a) a states in
    _stateListeners a' = _stateListeners a
    ∧ _automationListeners a' = _automationListeners a.
Proof.
  induction states as [|s l IH]; intros a; simpl; [done|].
  destruct (IH (set_states <[entity_id s := s]> a)) as [-> ->]. done.
Qed.

Lemma foldl_set_states_lookup (states : list IState) (entityId : string) :
  ∀ a,
    _states (foldl (λ a state,
               set_states <[entity_id state := state]> a) a states)
      !! entityId
    = match last (filter (λ s, entity_id s = entityId) states) with
      | Some s => Some s
      | None => _states a !! entityId
      end.
Proof.
  induction states as [|s l IH]; intros a; simpl; [done|].
  rewrite IH. rewrite filter_cons. simpl.
  destruct (decide (entity_id s = entityId)) as [Heq|Hne].
  - rewrite last_cons.
    destruct (last (filter (λ s0, entity_id s0 = entityId) l)); [done|].
    by rewrite Heq, lookup_insert_eq.
  - destruct (last (filter (λ s0, entity_id s0 = entityId) l)); [done|].
    by rewrite lookup_insert_ne.
Qed.

(** C3, the claim as stated fails: an entity that is cached and is not in
    the fetched list is still cached after a successful [_syncStates]. *)
Lemma syncStates_keeps_entities_missing_from_the_fetch :
  let cached := set_states <["light.hall" := entity "light.hall" "on"]>
                  no_broker in
  let fetched := [entity "light.kitchen" "off"] in
  let after := _syncStates parse_date (Normal (Some fetched)) cached in
  after.1 = Fulfilled tt
  ∧ ¬ (∀ entityId, entityId ∉ entity_id <$> fetched →
         _states after.2 !! entityId = None).
Proof.
  split; [reflexivity|].
  intros Hclaim. specialize (Hclaim "light.hall").
  assert (Hin : "light.hall" ∉ entity_id <$> [entity "light.kitchen" "off"]).
  { simpl. rewrite list_elem_of_singleton. discriminate. }
  specialize (Hclaim Hin). vm_compute in Hclaim. discriminate.
Qed.

(** C3, amended: a successful [_syncStates] stores every fetched state
    under its entity id (the last one for an id fetched twice, timestamps
    turned into dates) and leaves every other cache entry as it was: the
    fetched list is merged into the cache. A falsy fetch result changes
    nothing. When the fetch fails, [_syncStates] is rejected with that
    error and the cache is as it was. The registries are not touched. *)
Theorem syncStates_merges_the_fetched_states
    (parse : string → Date) (fetched : completion (option (list IState)))
    (a : API.t) :
  match fetched with
  | Abrupt e => _syncStates parse fetched a = (Rejected e, a)
  | Normal None => _syncStates parse fetched a = (Fulfilled tt, a)
  | Normal (Some states) =>
      ∃ a', _syncStates parse fetched a = (Fulfilled tt, a')
        ∧ (∀ entityId,
             _states a' !! entityId
             = match fetched_state parse states entityId with
               | Some s => Some s
               | None => _states a !! entityId
               end)
        ∧ _stateListeners a' = _stateListeners a
        ∧ _automationListeners a' = _automationListeners a
  end.
Proof.
  destruct fetched as [[states|]|e]; try reflexivity.
  unfold _syncStates; simpl. eexists. split; [reflexivity|].
  split.
  - intros entityId. apply foldl_set_states_lookup.
  - apply foldl_set_states_listeners.
Qed.

Lemma register_id (r : registration) (rnd now : Z) (a : API.t) :
  id (register r rnd now a).1 = rnd + now.
Proof.
  destruct r as [e cb|e cb]; simpl; unfold onState, onAutomation.
  - by destruct (_stateListeners a !! e).
  - by destruct (_automationListeners a !! e).
Qed.

(** C2, the claim as stated fails: a state subscription made with random
    part 7 and an automation subscription made one millisecond later with
    random part 6 get the same id, and both are registered. *)
Lemma subscription_ids_can_collide :
  let first := onState "light.hall" quiet 7 1714557600000 no_broker in
  let second :=
    onAutomation "automation.door" quiet_trigger 6 1714557600001 first.2 in
  id first.1 = id second.1
  ∧ fmap (M := list) sl_id <$> (_stateListeners second.2 !! "light.hall")
    = Some [id first.1]
  ∧ fmap (M := list) al_id
      <$> (_automationListeners second.2 !! "automation.door")
    = Some [id second.1].
Proof. vm_compute. done. Qed.

(** C2, amended: the id of a subscription is the random part (an integer
    from 0 to 9999) plus the clock reading in milliseconds, whichever
    registry it goes to and whatever is registered already; two ids differ
    whenever the two readings are at least 10000 ms apart, and whenever the
    readings are equal and the random parts differ. *)
Theorem subscription_ids_differ_when_readings_are_far_apart
    (r1 r2 : registration) (rnd1 now1 rnd2 now2 : Z) (a1 a2 : API.t) :
  0 ≤ rnd1 < 10000 →
  0 ≤ rnd2 < 10000 →
  now1 + 10000 ≤ now2 ∨ (now1 = now2 ∧ rnd1 ≠ rnd2) →
  id (register r1 rnd1 now1 a1).1 = rnd1 + now1
  ∧ id (register r2 rnd2 now2 a2).1 = rnd2 + now2
  ∧ id (register r1 rnd1 now1 a1).1 ≠ id (register r2 rnd2 now2 a2).1.
Proof.
  intros H1 H2 Hfar. rewrite !register_id.
  repeat split; lia.
Qed.

Lemma subscription_ids_differ_when_readings_are_far_apart_witness :
  let first := register (OnState "light.hall" quiet) 9999 1714557600000
                 no_broker in
  let second := register (OnAutomation "automation.door" quiet_trigger) 0
                  1714557610000 no_broker in
  (0 ≤ 9999 < 10000 ∧ 0 ≤ 0 < 10000
   ∧ 1714557600000 + 10000 ≤ 1714557610000)
  ∧ id first.1 = 9999 + 1714557600000
  ∧ id second.1 = 0 + 1714557610000
  ∧ id first.1 ≠ id second.1.
Proof.
  split; [lia|].
  apply (subscription_ids_differ_when_readings_are_far_apart
           (OnState "light.hall" quiet)
           (OnAutomation "automation.door" quiet_trigger)
           9999 1714557600000 0 1714557610000 no_broker no_broker);
    [lia | lia | left; lia].
Defined.

(** C5, the claim as stated fails: with no entity given, an [entity_id]
    key of the caller's data is not forwarded. *)
Lemma callService_drops_entity_id_of_data :
  let props : gmap string value :=
    {[ "entity_id" := VStr "light.hall"; "brightness" := VNum 100 ]} in
  props !! "entity_id" = Some (VStr "light.hall")
  ∧ callService_options None (Truthy props) !! "entity_id" = None
  ∧ ¬ (∀ key, is_Some (props !! key) →
         is_Some (callService_options None (Truthy props) !! key)).
Proof.
  intros props. split; [reflexivity|]. split; [reflexivity|].
  intros Hclaim. specialize (Hclaim "entity_id").
  destruct Hclaim as [v Hv]; [by eexists|].
  vm_compute in Hv. discriminate.
Qed.

(** C5, amended: the options sent to the connection have, for every key
    other than [entity_id], exactly the caller's data; [entity_id] is absent
    when the entity is null or the empty string, even when the data has
    that key, and otherwise it is the data's [entity_id] if the data has
    one and the given entity if not. The options go to the connection
    unchanged and the call settles as the connection does, a failure being
    logged first. *)
Theorem callService_options_are_data_over_entity_id
    (connection : string → string → gmap string value → completion value)
    (domain service : string) (entityId : option string) (data : any)
    (a : API.t) (journal : list event) :
  let options := callService_options entityId data in
  (∀ key, key ≠ "entity_id" → options !! key = props_of data !! key)
  ∧ options !! "entity_id"
    = (if no_entity entityId then None
       else Some (default (from_option VStr VNull entityId)
                    (props_of data !! "entity_id")))
  ∧ callService connection domain service entityId data (a, journal)
    = (Normal (connection domain service options),
       (a, journal ++
           ConnectionCallService domain service options ::
           match connection domain service options with
           | Normal _ => []
           | Abrupt e => [LoggerError e]
           end)).
Proof.
  intros options. subst options. unfold callService_options.
  split; [|split].
  - intros key Hkey.
    destruct (no_entity entityId), data as [|props]; simpl;
      rewrite ?lookup_delete_ne by done;
      rewrite ?lookup_union, ?lookup_singleton_ne by done;
      rewrite ?lookup_empty; try done.
    all: by destruct (props !! key).
  - destruct (no_entity entityId); [by rewrite lookup_delete_eq|].
    destruct data as [|props]; simpl.
    + by rewrite lookup_empty, lookup_singleton_eq.
    + rewrite lookup_union, lookup_singleton_eq.
      by destruct (props !! "entity_id").
  - unfold callService, mbind, js_bind, bind, log, modify; simpl.
    destruct (connection domain service _); simpl; [done|].
    by rewrite <- app_assoc.
Qed.

Lemma callService_options_are_data_over_entity_id_witness :
  "brightness" ≠ "entity_id"
  ∧ callService_options None
      (Truthy {[ "brightness" := VNum 100 ]}) !! "brightness"
    = Some (VNum 100).
Proof.
  split; [discriminate|].
  rewrite (proj1 (callService_options_are_data_over_entity_id
                    acknowledge "light" "turn_on" None
                    (Truthy {[ "brightness" := VNum 100 ]})
                    no_broker [])) by discriminate.
  reflexivity.
Defined.

End Broker_calls.

(** ** The module base *)

Create HintDb timers discriminated.

Section Module_properties.

Import Automation Expected.

Context {Mqtt : Type}.
Implicit Types (w : world Mqtt).

Lemma clearTimeout_eq (id : nat) w :
  clearTimeout id w
  = (Normal tt,
     set_this (set_timeouts (splice1 (indexOf id (_timeouts (this w)))))
       (set_timers (λ live, live ∖ {[id]}) w)).
Proof. reflexivity. Qed.

Lemma clearInterval_eq (id : nat) w :
  clearInterval id w
  = (Normal tt,
     set_this (set_intervals (splice1 (indexOf id (_intervals (this w)))))
       (set_timers (λ live, live ∖ {[id]}) w)).
Proof. reflexivity. Qed.

Lemma last_element {A} (xs : list A) (n : nat) :
  length xs = S n → ∃ ys x, xs = ys ++ [x] ∧ length ys = n ∧ xs !! n = Some x.
Proof.
  intros Hlen. destruct (decide (xs = [])) as [->|Hne]; [done|].
  destruct (exists_last Hne) as (ys & x & ->).
  rewrite length_app in Hlen; simpl in Hlen.
  exists ys, x. split; [done|]. split; [lia|].
  rewrite lookup_app_r by lia. by replace (n - length ys)%nat with 0%nat by lia.
Qed.

(** The two tracking loops of [destroy] run alike: the handle at the
    loop's index is the last of the list, clearing it takes one element off
    the list and ends its timer. *)
Ltac tracking_loop n clear_eq set_tracked :=
  induction n as [|n IH]; intros w Hlen;
  [ apply nil_length_inv in Hlen; simpl; unfold ret;
    destruct w as [? ? ? ? ? ? []]; simpl in *; subst;
    unfold set_this, set_timers, set_tracked; simpl;
    do 2 f_equal; by rewrite difference_empty_L
  | destruct (last_element _ _ Hlen) as (ys & x & Hts & Hys & Hlook);
    simpl; js_unfold; rewrite Hlook, clear_eq; rewrite IH;
    [ destruct (splice1_indexOf_last ys x) as (zs & Hzs & _ & Hel & _);
      destruct w as [? ? ? ? ? ? []]; simpl in *; subst;
      unfold set_this, set_timers, set_tracked; simpl;
      do 2 f_equal; apply set_eq; intros y;
      rewrite !elem_of_difference, !elem_of_list_to_set, Hel,
        elem_of_singleton;
      tauto
    | simpl; rewrite Hts;
      destruct (splice1_indexOf_last ys x) as (zs & -> & Hl & _); lia ] ].

Lemma destroy_timeouts_loop (n : nat) :
  ∀ w, length (_timeouts (this w)) = n →
    count_down n (λ i,
      id ← gets (λ w, _timeouts (this w) !! i);
      match id with
      | Some id => clearTimeout id
      | None => modify (set_this (set_timeouts (splice1 (-1))))
      end) w
    = (Normal tt,
       set_this (set_timeouts (λ _, []))
         (set_timers (λ live, live ∖ list_to_set (_timeouts (this w))) w)).
Proof. tracking_loop n clearTimeout_eq @set_timeouts. Qed.

Lemma destroy_timeouts_eq w :
  destroy_timeouts w
  = (Normal tt,
     set_this (set_timeouts (λ _, []))
       (set_timers (λ live, live ∖ list_to_set (_timeouts (this w))) w)).
Proof. by apply destroy_timeouts_loop. Qed.

Lemma destroy_intervals_loop (n : nat) :
  ∀ w, length (_intervals (this w)) = n →
    count_down n (λ i,
      id ← gets (λ w, _intervals (this w) !! i);
      match id with
      | Some id => clearInterval id
      | None => modify (set_this (set_intervals (splice1 (-1))))
      end) w
    = (Normal tt,
       set_this (set_intervals (λ _, []))
         (set_timers (λ live, live ∖ list_to_set (_intervals (this w))) w)).
Proof. tracking_loop n clearInterval_eq @set_intervals. Qed.

Lemma destroy_intervals_eq w :
  destroy_intervals w
  = (Normal tt,
     set_this (set_intervals (λ _, []))
       (set_timers (λ live, live ∖ list_to_set (_intervals (this w))) w)).
Proof. by apply destroy_intervals_loop. Qed.

Lemma filter_keeps_all {A} (keep : A → bool) (xs : list A) :
  (∀ x, x ∈ xs → keep x = true) → List.filter keep xs = xs.
Proof.
  induction xs as [|x xs IH]; intros Hall; simpl; [done|].
  rewrite Hall by set_solver. f_equal. apply IH. set_solver.
Qed.

Lemma clearRunAt_last (ys : list IQueue) (x : IQueue) :
  NoDup (q_id <$> ys ++ [x]) →
  List.filter (λ q, bool_decide (q_id q ≠ q_id x)) (ys ++ [x]) = ys.
Proof.
  rewrite fmap_app, NoDup_app. simpl. intros (_ & Hdisj & _).
  rewrite List.filter_app. simpl.
  rewrite bool_decide_eq_false_2 by (intros H; by apply H).
  rewrite app_nil_r. apply filter_keeps_all.
  intros y Hy. apply bool_decide_eq_true_2. intros Heq.
  apply (Hdisj (q_id y)); [by apply list_elem_of_fmap_2|].
  rewrite Heq. set_solver.
Qed.

Lemma filter_queue_eq (keep : IQueue → bool) w :
  filter_queue keep w
  = (Normal tt,
     set_this (set_queue (length (arrays w)))
       (set_arrays (λ ars, ars ++ [List.filter keep (queued w)]) w)).
Proof. reflexivity. Qed.

Lemma queued_after_filter (keep : IQueue → bool) w :
  queued (set_this (set_queue (length (arrays w)))
            (set_arrays (λ ars, ars ++ [List.filter keep (queued w)]) w))
  = List.filter keep (queued w).
Proof.
  unfold queued at 1. simpl.
  rewrite lookup_app_r by lia. by rewrite Nat.sub_diag.
Qed.

Lemma destroy_queues_loop (n : nat) :
  ∀ w, length (queued w) = n → NoDup (q_id <$> queued w) →
    ∃ q' ars',
      count_down n (λ i,
        queue ← gets (λ w, queued w !! i);
        match queue with
        | Some queue => clearRunAt (q_id queue)
        | None =>
            throw "Cannot read properties of undefined (reading 'id')"
        end) w
      = (Normal tt, set_this (set_queue q') (set_arrays (λ _, ars') w))
      ∧ default [] (ars' !! q') = []
      ∧ arrays w `prefix_of` ars'.
Proof.
  induction n as [|n IH]; intros w Hlen Hnodup.
  - apply nil_length_inv in Hlen.
    exists (_queue (this w)), (arrays w). split; [|split; [done|done]].
    simpl. unfold ret. by destruct w as [? ? ? ? ? ? []].
  - destruct (last_element _ _ Hlen) as (ys & x & Hq & Hys & Hlook).
    simpl. js_unfold. rewrite Hlook.
    change (clearRunAt (q_id x) w)
      with (filter_queue (λ q, bool_decide (q_id q ≠ q_id x)) w).
    rewrite filter_queue_eq.
    set (w1 := set_this _ _).
    assert (Hq1 : queued w1 = ys).
    { unfold w1. rewrite queued_after_filter, Hq.
      apply clearRunAt_last. by rewrite <- Hq. }
    destruct (IH w1) as (q' & ars' & -> & Hempty & Hprefix).
    { by rewrite Hq1. }
    { rewrite Hq1. rewrite Hq, fmap_app in Hnodup.
      by apply NoDup_app in Hnodup as (? & _). }
    exists q', ars'. split; [|split; [done|]].
    + by destruct w as [? ? ? ? ? ? []].
    + etrans; [|exact Hprefix]. unfold w1; simpl. by apply prefix_app_r.
Qed.

Lemma destroy_queues_eq w :
  NoDup (q_id <$> queued w) →
  ∃ q' ars',
    destroy_queues w
    = (Normal tt, set_this (set_queue q') (set_arrays (λ _, ars') w))
    ∧ default [] (ars' !! q') = []
    ∧ arrays w `prefix_of` ars'.
Proof. intros. by apply destroy_queues_loop. Qed.

Lemma for_of_in_mqtt {A} (f : A → js Mqtt unit) (xs : list A) :
  ∀ w, for_of xs (λ x, in_mqtt (f x)) w
       = ((for_of xs f (mqtt w)).1, set_mqtt (for_of xs f (mqtt w)).2 w).
Proof.
  induction xs as [|x xs IH]; intros w; simpl.
  - unfold ret; simpl. by destruct w.
  - unfold bind, in_mqtt, zoom.
    destruct (f x (mqtt w)) as [[[]|e] mq]; simpl; [|done].
    rewrite IH. simpl. by destruct w.
Qed.

(** The two unsubscription loops of [destroy] run alike; the [try] around
    each call has nothing to catch. *)
Ltac unsubscription_loop subs :=
  induction subs as [|sub subs IH]; intros w; simpl;
  [ unfold ret; by destruct w
  | unfold bind, try_catch, in_broker, zoom; simpl;
    rewrite IH; simpl; by destruct w ].

Lemma unsubscribe_states_loop (subs : list listenerInfo) :
  ∀ w,
    for_of subs (λ sub,
      try_catch
        (in_broker
           (API.update (API.clearOnState (entityId sub) (id sub))))
        (λ e, Logger_error e)) w
    = (Normal tt, set_broker (clear_states subs (api w), journal w) w).
Proof. unsubscription_loop subs. Qed.

Lemma unsubscribe_automations_loop (subs : list listenerInfo) :
  ∀ w,
    for_of subs (λ sub,
      try_catch
        (in_broker
           (API.update (API.clearOnAutomation (entityId sub) (id sub))))
        (λ e, Logger_error e)) w
    = (Normal tt, set_broker (clear_automations subs (api w), journal w) w).
Proof. unsubscription_loop subs. Qed.

Lemma fmap_filter_ids {A} (f : A → Z) (i : Z) (xs : list A) :
  f <$> filter (λ x, f x ≠ i) xs = filter (λ j, j ≠ i) (f <$> xs).
Proof.
  induction xs as [|x xs IH]; [done|].
  rewrite fmap_cons, !filter_cons.
  destruct (decide (f x ≠ i)); [rewrite fmap_cons|]; by rewrite IH.
Qed.

Lemma state_listener_ids_clearOnState (a : API.t) (e e' : string) (i : Z) :
  state_listener_ids (API.clearOnState e' i a) e
  = if decide (e = e') then filter (λ j, j ≠ i) (state_listener_ids a e)
    else state_listener_ids a e.
Proof.
  unfold state_listener_ids. rewrite clearOnState_listeners.
  destruct (decide (e = e')); [apply fmap_filter_ids|done].
Qed.

Lemma automation_listener_ids_clearOnAutomation (a : API.t)
    (e e' : string) (i : Z) :
  automation_listener_ids (API.clearOnAutomation e' i a) e
  = if decide (e = e')
    then filter (λ j, j ≠ i) (automation_listener_ids a e)
    else automation_listener_ids a e.
Proof.
  unfold automation_listener_ids. rewrite clearOnAutomation_listeners.
  destruct (decide (e = e')); [apply fmap_filter_ids|done].
Qed.

(** What a run of unsubscriptions leaves of an entity's listener ids: one
    filter per recorded subscription of that entity. *)
Ltac ids_after_unsubscriptions subs e ids_after_one :=
  induction subs as [|sub subs IH]; intros a; simpl;
  [ match goal with
    | |- ?ids = _ => induction ids as [|j js IHjs]; [done|]
    end;
    rewrite filter_cons; unfold recorded at 1; simpl; by f_equal
  | rewrite IH, ids_after_one; unfold recorded; rewrite filter_cons;
    destruct (decide (e = entityId sub)) as [->|Hne];
    [ rewrite decide_True by done; rewrite list_filter_filter;
      apply list_filter_iff; intros j;
      rewrite fmap_cons, not_elem_of_cons; tauto
    | by rewrite decide_False by done ] ].

Lemma clear_states_ids (subs : list listenerInfo) (e : string) :
  ∀ a, state_listener_ids (clear_states subs a) e
       = filter (λ j, j ∉ recorded subs e) (state_listener_ids a e).
Proof.
  ids_after_unsubscriptions subs e state_listener_ids_clearOnState.
Qed.

Lemma clear_automations_ids (subs : list listenerInfo) (e : string) :
  ∀ a, automation_listener_ids (clear_automations subs a) e
       = filter (λ j, j ∉ recorded subs e) (automation_listener_ids a e).
Proof.
  ids_after_unsubscriptions subs e automation_listener_ids_clearOnAutomation.
Qed.

Lemma clear_states_other (subs : list listenerInfo) :
  ∀ a, API._states (clear_states subs a) = API._states a
       ∧ API._automationListeners (clear_states subs a)
         = API._automationListeners a.
Proof.
  induction subs as [|sub subs IH]; intros a; simpl; [done|].
  destruct (IH (API.clearOnState (entityId sub) (id sub) a)) as [-> ->].
  unfold API.clearOnState.
  destruct (API._stateListeners a !! entityId sub); [|done].
  by destruct (decide _).
Qed.

Lemma clear_automations_other (subs : list listenerInfo) :
  ∀ a, API._states (clear_automations subs a) = API._states a
       ∧ API._stateListeners (clear_automations subs a)
         = API._stateListeners a.
Proof.
  induction subs as [|sub subs IH]; intros a; simpl; [done|].
  destruct (IH (API.clearOnAutomation (entityId sub) (id sub) a))
    as [-> ->].
  unfold API.clearOnAutomation.
  destruct (API._automationListeners a !! entityId sub); [|done].
  by destruct (decide _).
Qed.

Lemma keeps_timers_bind {A B} (m : js (world Mqtt) A)
    (k : A → js (world Mqtt) B) :
  keeps_timers m → (∀ a, keeps_timers (k a)) → keeps_timers (bind m k).
Proof.
  intros Hm Hk w. unfold bind. specialize (Hm w).
  destruct (m w) as [[a|e] w1]; simpl in *; [|done].
  by rewrite Hk.
Qed.

Lemma keeps_timers_for_of {A} (xs : list A)
    (body : A → js (world Mqtt) unit) :
  (∀ x, keeps_timers (body x)) → keeps_timers (for_of xs body).
Proof.
  intros Hbody. induction xs as [|x xs IH]; [done|].
  simpl. by apply keeps_timers_bind.
Qed.

Lemma keeps_timers_count_down (n : nat)
    (body : nat → js (world Mqtt) unit) :
  (∀ i, keeps_timers (body i)) → keeps_timers (count_down n body).
Proof.
  intros Hbody. induction n as [|n IH]; [done|].
  simpl. by apply keeps_timers_bind.
Qed.

Lemma keeps_timers_try_catch (body : js (world Mqtt) unit)
    (handler : error → js (world Mqtt) unit) :
  keeps_timers body → (∀ e, keeps_timers (handler e)) →
  keeps_timers (try_catch body handler).
Proof.
  intros Hb Hh w. unfold try_catch. specialize (Hb w).
  destruct (body w) as [[a|e] w1]; simpl in *; [done|].
  by rewrite Hh.
Qed.

Lemma keeps_timers_in_broker {A} (m : js API.running A) :
  keeps_timers (Mqtt := Mqtt) (in_broker m).
Proof. intros w. unfold in_broker, zoom. by destruct (m _). Qed.

Lemma keeps_timers_in_mqtt {A} (m : js Mqtt A) : keeps_timers (in_mqtt m).
Proof. intros w. unfold in_mqtt, zoom. by destruct (m _). Qed.

Variable mqtt_unsubscribe : string → Z → js Mqtt unit.

Lemma keeps_timers_ret {A} (a : A) : keeps_timers (Mqtt := Mqtt) (ret a).
Proof. done. Qed.

Lemma keeps_timers_throw {A} (e : error) :
  keeps_timers (Mqtt := Mqtt) (A := A) (throw e).
Proof. done. Qed.

Lemma keeps_timers_gets {A} (f : world Mqtt → A) : keeps_timers (gets f).
Proof. done. Qed.

Lemma keeps_timers_modify_this (f : Automation.t → Automation.t) :
  keeps_timers (Mqtt := Mqtt) (modify (set_this f)).
Proof. done. Qed.

Lemma keeps_timers_clearRunAt (id : string) :
  keeps_timers (Mqtt := Mqtt) (clearRunAt id).
Proof. done. Qed.

#[local] Hint Resolve keeps_timers_bind keeps_timers_for_of
  keeps_timers_count_down keeps_timers_try_catch keeps_timers_in_broker
  keeps_timers_in_mqtt keeps_timers_ret keeps_timers_throw keeps_timers_gets
  keeps_timers_modify_this keeps_timers_clearRunAt : timers.
#[local] Hint Extern 1 (keeps_timers (match ?x with _ => _ end)) =>
  destruct x : timers.

Lemma keeps_timers_after_intervals :
  keeps_timers
    (_ ← destroy_queues;
     _ ← unsubscribe_mqtt mqtt_unsubscribe;
     _ ← unsubscribe_states;
     _ ← unsubscribe_automations;
     modify (set_this (set_eachMinutes (λ _, [])))).
Proof.
  unfold destroy_queues, unsubscribe_mqtt, unsubscribe_states,
    unsubscribe_automations, Logger_error, mbind, js_bind.
  eauto 20 with timers.
Qed.

(** Whatever happens in [destroy], the timers it ends are those of the two
    tracking lists. *)
Lemma destroy_timers w :
  timers (destroy mqtt_unsubscribe w).2
  = timers w ∖ list_to_set (_timeouts (this w))
             ∖ list_to_set (_intervals (this w)).
Proof.
  unfold destroy. unfold mbind at 1 2, js_bind at 1 2, bind at 1 2.
  rewrite destroy_timeouts_eq, destroy_intervals_eq.
  by rewrite keeps_timers_after_intervals.
Qed.

Lemma destroy_returns w (mq' : Mqtt) :
  NoDup (q_id <$> queued w) →
  for_of (_mqttSubscriptions (this w))
    (λ value, mqtt_unsubscribe value.1 value.2) (mqtt w) = (Normal tt, mq') →
  ∃ q' ars',
    destroy mqtt_unsubscribe w
    = (Normal tt,
       {| api := clear_automations (_automationSubscriptions (this w))
                   (clear_states (_stateSubscriptions (this w)) (api w));
          journal := journal w;
          timers := timers w ∖ list_to_set (_timeouts (this w))
                             ∖ list_to_set (_intervals (this w));
          next_timer := next_timer w;
          mqtt := mq';
          arrays := ars';
          this := {| _timeouts := []; _intervals := []; _eachMinutes := [];
                     _lastMinute := _lastMinute (this w);
                     _mqttSubscriptions := [];
                     _stateSubscriptions := _stateSubscriptions (this w);
                     _automationSubscriptions :=
                       _automationSubscriptions (this w);
                     _queue := q' |} |})
    ∧ default [] (ars' !! q') = []
    ∧ arrays w `prefix_of` ars'.
Proof.
  intros Hnodup Hmqtt.
  unfold destroy, mbind, js_bind, bind.
  rewrite destroy_timeouts_eq, destroy_intervals_eq.
  match goal with |- context [destroy_queues ?w2] =>
    destruct (destroy_queues_eq w2) as (q' & ars' & -> & Hempty & Hprefix);
      [exact Hnodup|]
  end.
  exists q', ars'. split; [|split; [exact Hempty|exact Hprefix]].
  unfold unsubscribe_mqtt, mbind, js_bind, bind, gets, modify.
  rewrite for_of_in_mqtt. simpl. rewrite Hmqtt. simpl.
  unfold unsubscribe_states, unsubscribe_automations, mbind, js_bind, bind,
    gets.
  rewrite unsubscribe_states_loop. simpl.
  rewrite unsubscribe_automations_loop. simpl.
  reflexivity.
Qed.

Lemma filter_drops_one {A} (keep : A → bool) (xs : list A) (x : A) :
  x ∈ xs → keep x = false →
  (length (List.filter keep xs) < length xs)%nat.
Proof.
  induction xs as [|y ys IH]; simpl.
  - by intros ?%elem_of_nil.
  - intros Hin Hx. apply elem_of_cons in Hin as [<-|Hin].
    + rewrite Hx. pose proof (List.filter_length_le keep ys). lia.
    + specialize (IH Hin Hx). destruct (keep y); simpl; lia.
Qed.

Lemma destroy_queues_loop_normal (n : nat) :
  ∀ w w', (length (queued w) ≤ n)%nat →
    count_down n (λ i,
      queue ← gets (λ w, queued w !! i);
      match queue with
      | Some queue => clearRunAt (q_id queue)
      | None =>
          throw "Cannot read properties of undefined (reading 'id')"
      end) w = (Normal tt, w') →
    ∃ q' ars',
      w' = set_this (set_queue q') (set_arrays (λ _, ars') w)
      ∧ default [] (ars' !! q') = []
      ∧ arrays w `prefix_of` ars'.
Proof.
  induction n as [|n IH]; intros w w' Hlen Hrun.
  - simpl in Hrun. injection Hrun as <-.
    exists (_queue (this w)), (arrays w). split; [|split; [|done]].
    + by destruct w as [? ? ? ? ? ? []].
    + fold (queued w). destruct (queued w); [done|simpl in Hlen; lia].
  - simpl in Hrun. js_unfold.
    destruct (queued w !! n) as [q|] eqn:Hlook; [|done].
    change (clearRunAt (q_id q) w)
      with (filter_queue (λ q0, bool_decide (q_id q0 ≠ q_id q)) w) in Hrun.
    rewrite filter_queue_eq in Hrun.
    apply IH in Hrun as (q' & ars' & -> & Hempty & Hprefix).
    + exists q', ars'. split; [|split; [done|]].
      * by destruct w as [? ? ? ? ? ? []].
      * etrans; [|exact Hprefix]. simpl. by apply prefix_app_r.
    + rewrite queued_after_filter.
      assert ((length (List.filter (λ q0, bool_decide (q_id q0 ≠ q_id q))
                 (queued w)) < length (queued w))%nat); [|lia].
      apply (filter_drops_one _ _ q).
      * by eapply list_elem_of_lookup_2.
      * apply bool_decide_eq_false_2. intros H. by apply H.
Qed.

Lemma destroy_normal w w' :
  destroy mqtt_unsubscribe w = (Normal tt, w') →
  ∃ q' ars' mq',
    for_of (_mqttSubscriptions (this w))
      (λ value, mqtt_unsubscribe value.1 value.2) (mqtt w)
    = (Normal tt, mq')
    ∧ w' = {| api := clear_automations (_automationSubscriptions (this w))
                       (clear_states (_stateSubscriptions (this w)) (api w));
              journal := journal w;
              timers := timers w ∖ list_to_set (_timeouts (this w))
                                 ∖ list_to_set (_intervals (this w));
              next_timer := next_timer w;
              mqtt := mq';
              arrays := ars';
              this := {| _timeouts := []; _intervals := [];
                         _eachMinutes := [];
                         _lastMinute := _lastMinute (this w);
                         _mqttSubscriptions := [];
                         _stateSubscriptions := _stateSubscriptions (this w);
                         _automationSubscriptions :=
                           _automationSubscriptions (this w);
                         _queue := q' |} |}
    ∧ default [] (ars' !! q') = []
    ∧ arrays w `prefix_of` ars'.
Proof.
  unfold destroy, mbind, js_bind, bind.
  rewrite destroy_timeouts_eq, destroy_intervals_eq.
  match goal with |- context [destroy_queues ?w2] =>
    destruct (destroy_queues w2) as [[[]|e] w3] eqn:Hq; [|done];
    apply destroy_queues_loop_normal in Hq as (q' & ars' & -> & Hempty & Hp);
      [|done]
  end.
  unfold unsubscribe_mqtt, mbind, js_bind, bind, gets, modify.
  rewrite for_of_in_mqtt. simpl.
  destruct (for_of _ _ (mqtt w)) as [[[]|e] mq'] eqn:Hmqtt; simpl; [|done].
  unfold unsubscribe_states, unsubscribe_automations, mbind, js_bind, bind,
    gets.
  rewrite unsubscribe_states_loop. simpl.
  rewrite unsubscribe_automations_loop. simpl.
  intros [= <-]. by exists q', ars', mq'.
Qed.

Lemma clear_timer_eq (k : timer_kind) (id : nat) w :
  ∃ w', clear_timer k id w = (Normal tt, w')
    ∧ tracked k w' = splice1 (indexOf id (tracked k w)) (tracked k w)
    ∧ timers w' = timers w ∖ {[id]}
    ∧ (∀ k', k' ≠ k → tracked k' w' = tracked k' w).
Proof.
  destruct k; eexists; (split; [reflexivity|]); simpl;
    (split; [done|]); (split; [done|]); by intros [].
Qed.

Lemma indexOf_middle (before after : list nat) (id : nat) :
  id ∉ before → indexOf id (before ++ id :: after) = Z.of_nat (length before).
Proof.
  intros Hnotin.
  destruct (indexOf_present id (before ++ id :: after))
    as (i & -> & Hlook & Hfirst); [set_solver|].
  f_equal. destruct (Nat.lt_trichotomy i (length before)) as [Hlt|[->|Hgt]].
  - rewrite lookup_app_l in Hlook by done.
    apply list_elem_of_lookup_2 in Hlook. done.
  - done.
  - exfalso. apply Hfirst.
    rewrite take_app_ge by lia.
    replace (i - length before)%nat with (S (i - length before - 1)) by lia.
    set_solver.
Qed.

(** C10: [clearTimeout] (and [clearInterval] alike) called with a handle
    that is not in the tracking list takes the last handle off the list
    and leaves its timer live. So when a tracked handle is cleared twice,
    the second call takes off the handle tracked last among the others: it
    is a different handle, it is in neither tracking list any more, its
    timer is still live, and it is still live after [destroy], however
    [destroy] ends. *)
Theorem clearing_an_untracked_handle_untracks_the_last_one
    (k : timer_kind) (w : world Mqtt) (id other : nat) (rest : list nat) :
  (tracked k w = rest ++ [other] → id ∉ tracked k w →
   ∃ w', clear_timer k id w = (Normal tt, w')
     ∧ tracked k w' = rest
     ∧ timers w' = timers w ∖ {[id]}
     ∧ (other ∈ timers w → other ∈ timers w'))
  ∧ (∀ before after,
       tracked k w = before ++ id :: after →
       before ++ after = rest ++ [other] →
       NoDup (_timeouts (this w) ++ _intervals (this w)) →
       other ∈ timers w →
       ∃ w1 w2,
         clear_timer k id w = (Normal tt, w1)
         ∧ clear_timer k id w1 = (Normal tt, w2)
         ∧ tracked k w1 = rest ++ [other]
         ∧ tracked k w2 = rest
         ∧ other ≠ id
         ∧ (other ∉ _timeouts (this w2))
         ∧ (other ∉ _intervals (this w2))
         ∧ other ∈ timers w2
         ∧ other ∈ timers (destroy mqtt_unsubscribe w2).2).
Proof.
  split.
  - intros Htracked Hnotin.
    destruct (clear_timer_eq k id w) as (w' & Hrun & Htr & Htm & _).
    exists w'. split; [done|]. rewrite Htr, Htm.
    rewrite indexOf_absent by done. rewrite Htracked, splice1_last.
    split; [done|]. split; [done|].
    intros Hlive. apply elem_of_difference. split; [done|].
    rewrite elem_of_singleton. intros ->.
    apply Hnotin. rewrite Htracked, elem_of_app, list_elem_of_singleton.
    by right.
  - intros before after Htracked Hrest Hnodup Hlive.
    assert (Hk : NoDup (tracked k w)).
    { apply NoDup_app in Hnodup as (? & _ & ?). by destruct k. }
    rewrite Htracked in Hk.
    apply NoDup_app in Hk as (Hb & Hdisj & Hia).
    apply NoDup_cons in Hia as (Hid_after & Ha).
    assert (Hid_before : id ∉ before).
    { intros Hin. apply (Hdisj id Hin). set_solver. }
    assert (Hid_rest : id ∉ rest ++ [other]).
    { rewrite <- Hrest, elem_of_app. tauto. }
    assert (Hother : other ≠ id).
    { intros ->. apply Hid_rest. set_solver. }
    destruct (clear_timer_eq k id w) as (w1 & Hrun1 & Htr1 & Htm1 & Hoth1).
    destruct (clear_timer_eq k id w1) as (w2 & Hrun2 & Htr2 & Htm2 & Hoth2).
    rewrite Htracked, indexOf_middle, splice1_at, delete_middle, Hrest
      in Htr1 by done.
    rewrite Htr1, indexOf_absent, splice1_last in Htr2 by done.
    assert (Hother_rest : other ∉ rest).
    { assert (Hnd : NoDup (rest ++ [other])).
      { rewrite <- Hrest. apply NoDup_app. split; [done|]. split; [|done].
        intros x Hx1 Hx2. apply (Hdisj x Hx1).
        rewrite elem_of_cons. by right. }
      apply NoDup_app in Hnd as (_ & Hd & _).
      intros Hin. apply (Hd other Hin). by apply list_elem_of_singleton. }
    assert (Huntracked : ¬ (other ∈ _timeouts (this w2)
                            ∨ other ∈ _intervals (this w2))).
    { assert (Hin_k : other ∈ tracked k w).
      { rewrite Htracked.
        assert (Hin : other ∈ before ++ after).
        { rewrite Hrest, elem_of_app, list_elem_of_singleton. by right. }
        rewrite elem_of_app in Hin. rewrite elem_of_app, elem_of_cons.
        tauto. }
      change (_timeouts (this w2)) with (tracked Timeout w2).
      change (_intervals (this w2)) with (tracked Interval w2).
      apply NoDup_app in Hnodup as (_ & Hd & _).
      destruct k.
      - rewrite Htr2, (Hoth2 Interval), (Hoth1 Interval) by done.
        intros [?|Hin]; [done|]. by apply (Hd other).
      - rewrite Htr2, (Hoth2 Timeout), (Hoth1 Timeout) by done.
        intros [Hin|?]; [|done]. by apply (Hd other). }
    assert (Hlive2 : other ∈ timers w2).
    { rewrite Htm2, Htm1, !elem_of_difference, elem_of_singleton. tauto. }
    exists w1, w2. repeat split; try done.
    + intros ?. apply Huntracked. by left.
    + intros ?. apply Huntracked. by right.
    + rewrite destroy_timers.
      rewrite !elem_of_difference, !elem_of_list_to_set. naive_solver.
Qed.

Lemma checkQueue_nothing_queued (now : Z) w :
  queued w = [] →
  ∃ w', _checkQueue now w = (Normal Finished, w')
    ∧ journal w' = journal w ∧ queued w' = [].
Proof.
  intros Hq. unfold _checkQueue, mbind, js_bind, bind, gets.
  rewrite Hq. simpl. unfold mbind, js_bind, bind.
  rewrite filter_queue_eq. eexists. split; [reflexivity|].
  split; [done|]. by rewrite queued_after_filter, Hq.
Qed.

Lemma checkEachMinute_nothing_registered (current : Z) w :
  _eachMinutes (this w) = [] →
  ∃ w', _checkEachMinute current w = (Normal tt, w')
    ∧ journal w' = journal w.
Proof.
  intros Hem. unfold _checkEachMinute, mbind, js_bind, bind, gets.
  destruct (decide (current = _lastMinute (this w))).
  - by eexists.
  - simpl. rewrite Hem. simpl. by eexists.
Qed.

(** X27: Whenever [destroy] returns, the lists of timeouts, intervals,
    delayed tasks, per-minute callbacks and mqtt subscriptions are empty, the live timers have lost exactly the handles of the two
    tracking lists, each registry has lost exactly the listeners whose id
    the instance recorded for their entity, the cache and the journal are
    as before, and a poll of the delayed tasks or of the per-minute
    callbacks started afterwards calls nothing; the two lists in which the
    instance records its subscriptions are left as they were. And
    [destroy] does return on an instance whose delayed tasks have pairwise
    different ids and whose mqtt unsubscriptions all return. *)
Theorem destroy_releases_what_the_instance_tracks (w : world Mqtt) :
  (∀ w',
     destroy mqtt_unsubscribe w = (Normal tt, w') →
     _timeouts (this w') = []
     ∧ _intervals (this w') = []
     ∧ queued w' = []
     ∧ _eachMinutes (this w') = []
     ∧ _mqttSubscriptions (this w') = []
     ∧ timers w' = timers w ∖ list_to_set (_timeouts (this w))
                            ∖ list_to_set (_intervals (this w))
     ∧ (∀ e, state_listener_ids (api w') e
             = filter (λ j, j ∉ recorded (_stateSubscriptions (this w)) e)
                 (state_listener_ids (api w) e))
     ∧ (∀ e, automation_listener_ids (api w') e
             = filter
                 (λ j, j ∉ recorded (_automationSubscriptions (this w)) e)
                 (automation_listener_ids (api w) e))
     ∧ (∀ sub, sub ∈ _stateSubscriptions (this w) →
               id sub ∉ state_listener_ids (api w') (entityId sub))
     ∧ (∀ sub, sub ∈ _automationSubscriptions (this w) →
               id sub ∉ automation_listener_ids (api w') (entityId sub))
     ∧ _stateSubscriptions (this w') = _stateSubscriptions (this w)
     ∧ _automationSubscriptions (this w')
       = _automationSubscriptions (this w)
     ∧ API._states (api w') = API._states (api w)
     ∧ journal w' = journal w
     ∧ (∀ now, ∃ w'', _checkQueue now w' = (Normal Finished, w'')
                      ∧ journal w'' = journal w')
     ∧ (∀ minute, ∃ w'', _checkEachMinute minute w' = (Normal tt, w'')
                         ∧ journal w'' = journal w'))
  ∧ (NoDup (q_id <$> queued w) →
     ∀ mq' : Mqtt,
       for_of (_mqttSubscriptions (this w))
         (λ value, mqtt_unsubscribe value.1 value.2) (mqtt w)
       = (Normal tt, mq') →
       ∃ w', destroy mqtt_unsubscribe w = (Normal tt, w')).
Proof.
  split.
  - intros w' Hrun.
    apply destroy_normal in Hrun as (q' & ars' & mq' & _ & -> & Hempty & _).
    simpl.
    set (subs := _stateSubscriptions (this w)).
    set (subs' := _automationSubscriptions (this w)).
    destruct (clear_automations_other subs' (clear_states subs (api w)))
      as [Hcache' Hstate'].
    destruct (clear_states_other subs (api w)) as [Hcache Hauto].
    assert (Hs : ∀ e,
      state_listener_ids (clear_automations subs' (clear_states subs (api w)))
        e
      = filter (λ j, j ∉ recorded subs e) (state_listener_ids (api w) e)).
    { intros e. rewrite <- clear_states_ids.
      unfold state_listener_ids. by rewrite Hstate'. }
    assert (Ha : ∀ e,
      automation_listener_ids
        (clear_automations subs' (clear_states subs (api w))) e
      = filter (λ j, j ∉ recorded subs' e)
          (automation_listener_ids (api w) e)).
    { intros e. rewrite clear_automations_ids. f_equal.
      unfold automation_listener_ids. by rewrite Hauto. }
    assert (Hgone : ∀ (l : list listenerInfo) sub (ids : list Z),
      sub ∈ l →
      id sub ∉ filter (λ j, j ∉ recorded l (entityId sub)) ids).
    { intros l sub ids Hsub [Hnot _]%list_elem_of_filter. apply Hnot.
      unfold recorded. apply list_elem_of_fmap_2.
      by apply list_elem_of_filter. }
    repeat (split; [done|]).
    split; [intros sub Hsub; rewrite Hs; by apply Hgone|].
    split; [intros sub Hsub; rewrite Ha; by apply Hgone|].
    split; [done|]. split; [done|].
    split; [by rewrite Hcache', Hcache|].
    split; [done|]. split.
    + intros now.
      match goal with |- context [_checkQueue now ?w'] =>
        destruct (checkQueue_nothing_queued now w') as (w'' & ? & ? & _);
          [exact Hempty|]
      end. by exists w''.
    + intros minute.
      match goal with |- context [_checkEachMinute minute ?w'] =>
        destruct (checkEachMinute_nothing_registered minute w')
          as (w'' & ? & ?); [done|]
      end. by exists w''.
  - intros Hnodup mq' Hmqtt.
    destruct (destroy_returns w mq' Hnodup Hmqtt) as (q' & ars' & Hrun & _).
    eexists. exact Hrun.
Qed.

End Module_properties.

Section Polls.

Import Automation Expected.

Context {Mqtt : Type}.
Implicit Types (w : world Mqtt).

Lemma queue_calls_poll_journal (now : Z) (rest : list IQueue) :
  ∀ journal,
    queue_calls (poll_journal now rest journal)
    = queue_calls journal
      ++ (q_id <$> List.filter (λ q, date_ge (Some now) (q_date q)) rest).
Proof.
  induction rest as [|q rest IH]; intros journal; simpl.
  - by rewrite app_nil_r.
  - destruct (date_ge (Some now) (q_date q)); [|apply IH].
    destruct (q_callback q journal); rewrite IH; unfold queue_calls;
      rewrite ?omap_app; simpl; by rewrite <- ?app_assoc, ?app_nil_r.
Qed.

Lemma checkQueue_loop_without_pending (now : Z) (array : nat)
    (rest : list IQueue) :
  (∀ q j, q ∈ rest → q_callback q j ≠ StillPending) →
  ∀ index w,
    _checkQueue_loop now array index rest w
    = (Normal Finished,
       set_this (set_queue (length (arrays w)))
         (set_arrays
            (λ ars, ars ++ [List.filter
                              (λ q, date_lt (Some now) (q_date q))
                              (queued w)])
            (set_broker (api w, poll_journal now rest (journal w)) w))).
Proof.
  induction rest as [|q rest IH]; intros Hsync index w; simpl.
  - unfold mbind, js_bind, bind. rewrite filter_queue_eq. simpl.
    by destruct w.
  - destruct (date_ge (Some now) (q_date q)).
    + unfold mbind, js_bind, bind. simpl.
      pose proof (Hsync q (journal w) ltac:(set_solver)) as Hq.
      destruct (q_callback q (journal w)) as [|e|]; [| |done].
      * rewrite IH by set_solver. done.
      * unfold Logger_error, in_broker, zoom. simpl.
        rewrite IH by set_solver. done.
    + rewrite IH by set_solver. done.
Qed.

Lemma poll_journal_extends (now : Z) (rest : list IQueue) :
  ∀ journal, ∃ added, poll_journal now rest journal = journal ++ added.
Proof.
  induction rest as [|q rest IH]; intros journal; simpl.
  - exists []. by rewrite app_nil_r.
  - destruct (date_ge (Some now) (q_date q)); [|apply IH].
    destruct (q_callback q journal);
      match goal with |- context [poll_journal _ _ ?j'] =>
        destruct (IH j') as [added ->]
      end; rewrite <- ?app_assoc; by eexists.
Qed.

Lemma poll_journal_logs_what_is_thrown (now : Z) (rest : list IQueue)
    (q : IQueue) (e : error) :
  q ∈ rest →
  date_ge (Some now) (q_date q) = true →
  (∀ j, q_callback q j = Threw e) →
  ∀ journal, ∃ before after,
    poll_journal now rest journal
    = before ++ QueueCallbackCalled (q_id q) :: LoggerError e :: after.
Proof.
  intros Hin Hdue Hthrows.
  induction rest as [|q0 rest IH]; intros journal.
  - by apply elem_of_nil in Hin.
  - apply elem_of_cons in Hin as [<-|Hin]; simpl.
    + rewrite Hdue, Hthrows.
      destruct (poll_journal_extends now rest
                  ((journal ++ [QueueCallbackCalled (q_id q)])
                   ++ [LoggerError e])) as [added ->].
      exists journal, added. by rewrite <- !app_assoc.
    + destruct (date_ge (Some now) (q_date q0)); [|by apply IH].
      destruct (q_callback q0 journal); by apply IH.
Qed.

Lemma poll_journal_logs_nothing_else (now : Z) (rest : list IQueue)
    (e : error) :
  ∀ journal,
    LoggerError e ∈ poll_journal now rest journal →
    LoggerError e ∈ journal
    ∨ ∃ q j, q ∈ rest ∧ date_ge (Some now) (q_date q) = true
             ∧ q_callback q j = Threw e.
Proof.
  induction rest as [|q rest IH]; intros journal; simpl; [by left|].
  assert (Hrest : ∀ j,
    LoggerError e ∈ poll_journal now rest j →
    LoggerError e ∈ j
    ∨ ∃ q0 j0, q0 ∈ q :: rest ∧ date_ge (Some now) (q_date q0) = true
               ∧ q_callback q0 j0 = Threw e).
  { intros j Hj. destruct (IH j Hj) as [?|(q0 & j0 & ? & ? & ?)];
      [by left|right]. exists q0, j0. split; [by right|done]. }
  destruct (date_ge (Some now) (q_date q)) eqn:Hdue; [|apply Hrest].
  destruct (q_callback q journal) as [|e'|] eqn:Hcall; intros Hin;
    apply Hrest in Hin as [Hin|?]; try by right.
  - apply elem_of_app in Hin as [?|Hin]; [by left|].
    by apply list_elem_of_singleton in Hin.
  - apply elem_of_app in Hin as [Hin|Hin].
    + apply elem_of_app in Hin as [?|Hin]; [by left|].
      by apply list_elem_of_singleton in Hin.
    + apply list_elem_of_singleton in Hin as [= <-]. right.
      exists q, journal. split; [by left|done].
  - apply elem_of_app in Hin as [?|Hin]; [by left|].
    by apply list_elem_of_singleton in Hin.
Qed.

(** X1: When no callback of a queued task leaves a pending promise, a poll
    runs to its end in one piece: it calls the tasks whose date is at or
    before the poll's time, each once and in queue order, and logs the
    error of a call that threw right after that call, so that the journal
    is the old one followed, task by task, by the call of each due task and
    the error it threw, if it threw; nothing else is logged. The new queue
    holds the tasks whose date is after the poll's time; a task with a
    valid date is kept exactly when it was not due. *)
Theorem checkQueue_calls_each_due_task_once_when_none_stays_pending
    (now : Z) w :
  (∀ q j, q ∈ queued w → q_callback q j ≠ StillPending) →
  ∃ w',
    _checkQueue now w = (Normal Finished, w')
    ∧ journal w' = poll_journal now (queued w) (journal w)
    ∧ queue_calls (journal w')
      = queue_calls (journal w)
        ++ (q_id <$> List.filter (λ q, date_ge (Some now) (q_date q))
                       (queued w))
    ∧ (∀ q e, q ∈ queued w → date_ge (Some now) (q_date q) = true →
         (∀ j, q_callback q j = Threw e) →
         ∃ before after,
           journal w'
           = before ++
             QueueCallbackCalled (q_id q) :: LoggerError e :: after)
    ∧ (∀ e, LoggerError e ∈ journal w' →
         LoggerError e ∈ journal w
         ∨ ∃ q j, q ∈ queued w ∧ date_ge (Some now) (q_date q) = true
                  ∧ q_callback q j = Threw e)
    ∧ queued w'
      = List.filter (λ q, date_lt (Some now) (q_date q)) (queued w)
    ∧ (∀ q, q ∈ queued w → is_Some (q_date q) →
         q ∈ queued w' ↔ date_ge (Some now) (q_date q) = false).
Proof.
  intros Hsync. unfold _checkQueue, mbind, js_bind, bind, gets.
  rewrite checkQueue_loop_without_pending by done.
  eexists. split; [reflexivity|]. simpl.
  split; [reflexivity|].
  split; [apply queue_calls_poll_journal|].
  split.
  { intros q e Hin Hdue Hthrows.
    by apply poll_journal_logs_what_is_thrown. }
  split; [intros e; apply poll_journal_logs_nothing_else|].
  assert (Hq : ∀ ws : world Mqtt, ∀ keep j,
    queued (set_this (set_queue (length (arrays ws)))
              (set_arrays (λ ars, ars ++ [List.filter keep (queued ws)])
                 (set_broker (api ws, j) ws)))
    = List.filter keep (queued ws)).
  { intros ws keep j. unfold queued at 1. simpl.
    rewrite lookup_app_r by lia. by rewrite Nat.sub_diag. }
  rewrite Hq. split; [done|].
  intros q Hin [t Ht].
  rewrite list_elem_of_In, List.filter_In, <- list_elem_of_In.
  rewrite Ht. unfold date_lt, date_ge.
  rewrite bool_decide_eq_true, bool_decide_eq_false.
  split; [intros [_ ?]; lia|intros ?; split; [done|lia]].
Qed.

End Polls.

Section Scenarios.

Import Automation Expected Scenario.

(** C6, at the failing input: one delayed task is due and its callback
    returns a promise that is still pending when the next poll starts. The
    first poll calls it and is suspended in its [await]; the task is still
    queued, so the second poll calls it again. After both polls have been
    resumed the queue is empty and the journal holds two calls of the one
    task. *)
Theorem delayed_task_is_called_again_while_its_promise_is_pending :
  ∃ f1 w1 f2 w2 w3 w4,
    q_id <$> queued slow_module = ["1714557600000-42"]
    ∧ _checkQueue 1714557602000 slow_module = (Normal (Suspended f1), w1)
    ∧ _checkQueue 1714557603000 w1 = (Normal (Suspended f2), w2)
    ∧ _checkQueue_resume f1 (Normal tt) w2 = (Normal Finished, w3)
    ∧ _checkQueue_resume f2 (Normal tt) w3 = (Normal Finished, w4)
    ∧ journal w4 = [QueueCallbackCalled "1714557600000-42";
                    QueueCallbackCalled "1714557600000-42"]
    ∧ queued w4 = [].
Proof.
  do 6 eexists.
  split; [vm_compute; reflexivity|].
  split; [vm_compute; reflexivity|].
  split; [vm_compute; reflexivity|].
  split; [vm_compute; reflexivity|].
  split; [vm_compute; reflexivity|].
  split; vm_compute; reflexivity.
Qed.

(** A delayed task with an invalid date is neither at or before nor after
    the poll's time: the poll does not call it and drops it from the
    queue. *)
Lemma task_with_invalid_date_is_dropped_uncalled :
  q_id <$> queued undated_module = ["1714557600000-42"]
  ∧ (_checkQueue 1714557602000 undated_module).1 = Normal Finished
  ∧ journal (_checkQueue 1714557602000 undated_module).2 = []
  ∧ queued (_checkQueue 1714557602000 undated_module).2 = [].
Proof. vm_compute. done. Qed.

(** C4, at the failing inputs: a release step that throws ends [destroy],
    and the releases after it are not made. With two delayed tasks of the
    same id the first round of the queue loop removes both, the second
    round reads the id of a missing element and throws; with an mqtt client
    whose unsubscribe throws the mqtt loop throws. Either way [destroy]
    does not return, the state listener of the instance stays in the
    broker's registry and the next event of its entity calls it; with the
    colliding ids the list of per-minute callbacks is not emptied
    either. *)
Theorem destroy_is_ended_by_a_release_that_throws :
  let newState := entity "light.hall" "on" in
  let event := {| API.sc_entity_id := "light.hall";
                  API.new_state := Some newState;
                  API.old_state := None |} in
  (q_id <$> queued colliding_module
     = ["1714557600000-42"; "1714557600000-42"]
   ∧ state_listener_ids (api colliding_module) "light.hall"
     = [1714557600007]
   ∧ ∃ w' a',
       destroy quiet_unsubscribe colliding_module
       = (Abrupt "Cannot read properties of undefined (reading 'id')", w')
       ∧ state_listener_ids (api w') "light.hall" = [1714557600007]
       ∧ em_id <$> _eachMinutes (this w') = ["1714557600000-5"]
       ∧ journal w' = []
       ∧ API._onStateChange event (api w', journal w')
         = (Normal tt,
            (a', [StateListenerCalled 1714557600007 newState None
                    (API._states a')])))
  ∧ (_mqttSubscriptions (this mqtt_module) = [("home/door", 1)]
     ∧ state_listener_ids (api mqtt_module) "light.hall" = [1714557600007]
     ∧ ∃ w' a',
         destroy failing_unsubscribe mqtt_module
         = (Abrupt "client disconnecting", w')
         ∧ _mqttSubscriptions (this w') = [("home/door", 1)]
         ∧ state_listener_ids (api w') "light.hall" = [1714557600007]
         ∧ journal w' = []
         ∧ API._onStateChange event (api w', journal w')
           = (Normal tt,
              (a', [StateListenerCalled 1714557600007 newState None
                      (API._states a')]))).
Proof.
  intros newState event. split.
  - split; [vm_compute; reflexivity|]. split; [vm_compute; reflexivity|].
    exists (destroy quiet_unsubscribe colliding_module).2.
    eexists. split; [vm_compute; reflexivity|].
    split; [vm_compute; reflexivity|]. split; [vm_compute; reflexivity|].
    split; [vm_compute; reflexivity|].
    unfold event. rewrite _onStateChange_some. reflexivity.
  - split; [vm_compute; reflexivity|]. split; [vm_compute; reflexivity|].
    exists (destroy failing_unsubscribe mqtt_module).2.
    eexists. split; [vm_compute; reflexivity|].
    split; [vm_compute; reflexivity|]. split; [vm_compute; reflexivity|].
    split; [vm_compute; reflexivity|].
    unfold event. rewrite _onStateChange_some. reflexivity.
Qed.

(** A poll that is suspended in its [await] when [destroy] runs goes on,
    once resumed, with the array it was iterating: of two due tasks the
    second is called after [destroy] has returned. *)
Lemma suspended_poll_calls_a_task_after_destroy :
  ∃ f w1 w2 w3,
    _checkQueue 1714557602000 busy_module = (Normal (Suspended f), w1)
    ∧ journal w1 = [QueueCallbackCalled "1714557600000-42"]
    ∧ destroy quiet_unsubscribe w1 = (Normal tt, w2)
    ∧ queued w2 = []
    ∧ journal w2 = journal w1
    ∧ _checkQueue_resume f (Normal tt) w2 = (Normal Finished, w3)
    ∧ journal w3 = [QueueCallbackCalled "1714557600000-42";
                    QueueCallbackCalled "1714557600000-43"].
Proof.
  do 4 eexists.
  split; [vm_compute; reflexivity|].
  split; [vm_compute; reflexivity|].
  split; [vm_compute; reflexivity|].
  split; [vm_compute; reflexivity|].
  split; [vm_compute; reflexivity|].
  split; vm_compute; reflexivity.
Qed.

Lemma clearing_an_untracked_handle_untracks_the_last_one_witness :
  (tracked Timeout two_timeouts = [2%nat] ++ [3%nat]
   ∧ (7%nat ∉ tracked Timeout two_timeouts)
   ∧ ∃ w', clear_timer Timeout 7 two_timeouts = (Normal tt, w')
       ∧ tracked Timeout w' = [2%nat]
       ∧ timers w' = timers two_timeouts ∖ {[7%nat]}
       ∧ (3%nat ∈ timers two_timeouts → 3%nat ∈ timers w'))
  ∧ (tracked Timeout two_timeouts = [] ++ 2%nat :: [3%nat]
     ∧ NoDup (_timeouts (this two_timeouts)
              ++ _intervals (this two_timeouts))
     ∧ 3%nat ∈ timers two_timeouts
     ∧ ∃ w1 w2,
         clear_timer Timeout 2 two_timeouts = (Normal tt, w1)
         ∧ clear_timer Timeout 2 w1 = (Normal tt, w2)
         ∧ tracked Timeout w1 = [] ++ [3%nat]
         ∧ tracked Timeout w2 = []
         ∧ 3%nat ≠ 2%nat
         ∧ (3%nat ∉ _timeouts (this w2))
         ∧ (3%nat ∉ _intervals (this w2))
         ∧ 3%nat ∈ timers w2
         ∧ 3%nat ∈ timers (destroy quiet_unsubscribe w2).2).
Proof.
  assert (Hnotin : 7%nat ∉ tracked Timeout two_timeouts).
  { apply (bool_decide_unpack _). vm_compute. exact I. }
  assert (Hnodup : NoDup (_timeouts (this two_timeouts)
                          ++ _intervals (this two_timeouts))).
  { apply (bool_decide_unpack _). vm_compute. exact I. }
  assert (Hlive : 3%nat ∈ timers two_timeouts).
  { apply (bool_decide_unpack _). vm_compute. exact I. }
  split.
  - split; [reflexivity|]. split; [exact Hnotin|].
    apply (proj1 (clearing_an_untracked_handle_untracks_the_last_one
                    quiet_unsubscribe Timeout two_timeouts 7 3 [2%nat]));
      [reflexivity|exact Hnotin].
  - split; [reflexivity|]. split; [exact Hnodup|]. split; [exact Hlive|].
    apply (proj2 (clearing_an_untracked_handle_untracks_the_last_one
                    quiet_unsubscribe Timeout two_timeouts 2 3 [])
             [] [3%nat]);
      [reflexivity|reflexivity|exact Hnodup|exact Hlive].
Defined.

Lemma destroy_releases_what_the_instance_tracks_witness :
  NoDup (q_id <$> queued tidy_module)
  ∧ for_of (_mqttSubscriptions (this tidy_module))
      (λ value, quiet_unsubscribe value.1 value.2) (mqtt tidy_module)
    = (Normal tt, tt)
  ∧ ∃ w',
      destroy quiet_unsubscribe tidy_module = (Normal tt, w')
      ∧ _timeouts (this w') = []
      ∧ _intervals (this w') = []
      ∧ queued w' = []
      ∧ _eachMinutes (this w') = []
      ∧ _mqttSubscriptions (this w') = [].
Proof.
  assert (Hnodup : NoDup (q_id <$> queued tidy_module)).
  { apply (bool_decide_unpack _). vm_compute. exact I. }
  assert (Hmqtt : for_of (_mqttSubscriptions (this tidy_module))
                    (λ value, quiet_unsubscribe value.1 value.2)
                    (mqtt tidy_module) = (Normal tt, tt)).
  { reflexivity. }
  split; [exact Hnodup|]. split; [exact Hmqtt|].
  destruct (proj2 (destroy_releases_what_the_instance_tracks
                     quiet_unsubscribe tidy_module) Hnodup tt Hmqtt)
    as (w' & Hrun).
  destruct (proj1 (destroy_releases_what_the_instance_tracks
                     quiet_unsubscribe tidy_module) w' Hrun)
    as (Hto & Hiv & Hq & Hem & Hms & _).
  exists w'. repeat split; assumption.
Defined.

Lemma checkQueue_calls_each_due_task_once_when_none_stays_pending_witness :
  (∀ q j, q ∈ queued failing_task_module → q_callback q j ≠ StillPending)
  ∧ ∃ w',
      _checkQueue 1714557602000 failing_task_module = (Normal Finished, w')
      ∧ journal w' = [QueueCallbackCalled "1714557600000-42";
                      LoggerError "service unavailable";
                      QueueCallbackCalled "1714557600000-43"]
      ∧ queue_calls (journal w')
        = queue_calls (journal failing_task_module)
          ++ (q_id <$> List.filter
                         (λ q, date_ge (Some 1714557602000) (q_date q))
                         (queued failing_task_module))
      ∧ queued w' = [].
Proof.
  assert (Hsync : ∀ q j, q ∈ queued failing_task_module →
                         q_callback q j ≠ StillPending).
  { intros q j Hq. vm_compute in Hq.
    apply elem_of_cons in Hq as [->|Hq]; [discriminate|].
    apply elem_of_cons in Hq as [->|Hq]; [discriminate|].
    by apply elem_of_nil in Hq. }
  split; [exact Hsync|].
  destruct (checkQueue_calls_each_due_task_once_when_none_stays_pending
              1714557602000 failing_task_module Hsync)
    as (w' & Hrun & Hjournal & Hcalls & _ & _ & Hq & _).
  exists w'.
  split; [exact Hrun|]. split; [exact Hjournal|].
  split; [exact Hcalls|exact Hq].
Defined.

End Scenarios.

(** ** More on the broker's registries and cache *)

Section Registry.

Import API Expected.

Lemma filter_fresh_id {A} (f : A → Z) (i : Z) (xs : list A) :
  i ∉ f <$> xs → filter (λ x, f x ≠ i) xs = xs.
Proof.
  intros Hnotin. apply filter_keeps_every. intros x Hx Heq.
  apply Hnotin. rewrite <- Heq. by apply list_elem_of_fmap_2.
Qed.

Lemma filter_appended_id {A} (f : A → Z) (i : Z) (xs : list A) (x : A) :
  f x = i →
  filter (λ x, f x ≠ i) (xs ++ [x]) = filter (λ x, f x ≠ i) xs.
Proof.
  intros Hx. rewrite filter_app, filter_cons_False, filter_nil, app_nil_r.
  - done.
  - intros H. by apply H.
Qed.

(** A subscription and the matching cancellation go alike through either
    registry: the listener is appended to the entity's array (or becomes
    its only element), and the cancellation filters the array and drops the
    key when nothing is left. *)
Ltac round_trip registry set_registry clear_listeners :=
  match goal with |- context [registry ?a !! ?e] =>
    destruct (registry a !! e) as [ls|] eqn:Hls; simpl;
    rewrite lookup_insert_eq; simpl;
    [ split; [by rewrite fmap_app|];
      unfold clear_listeners; simpl; rewrite lookup_insert_eq;
      rewrite filter_appended_id by done;
      split;
      [ destruct (decide _) as [Hnil|Hne]; simpl;
        [ rewrite lookup_delete_eq; simpl; apply nil_length_inv in Hnil;
          by rewrite <- fmap_filter_ids, Hnil
        | rewrite lookup_insert_eq; simpl; apply fmap_filter_ids ]
      | intros [Hstate Hautomation] Hfresh;
        rewrite filter_fresh_id by done;
        destruct (decide _) as [Hnil|Hne]; simpl;
        [ apply nil_length_inv in Hnil; subst;
          first [by destruct (Hstate e) | by destruct (Hautomation e)]
        | destruct a as [st sl al]; simpl in *;
          unfold set_registry; simpl; f_equal;
          rewrite insert_insert_eq; by apply insert_id ] ]
    | split; [done|];
      unfold clear_listeners; simpl; rewrite lookup_insert_eq;
      rewrite filter_cons_False, filter_nil by (intros H; by apply H);
      simpl; rewrite lookup_delete_eq; split; [done|];
      intros _ _; destruct a as [st sl al]; simpl in *;
      unfold set_registry; simpl; f_equal;
      rewrite delete_insert_eq; by apply delete_id ]
  end.

(** X4: A subscription and its cancellation, in either registry. [onState]
    (or [onAutomation]) appends a listener with the id it returns; the
    matching [clearOnState] (or [clearOnAutomation]) called with the
    returned handle removes every listener of the entity that has this id,
    the new one and any older one; and when the id was not in use for the
    entity, the broker is exactly as it was before the subscription. *)
Theorem subscribing_then_unsubscribing_restores_the_broker
    (r : registration) (rnd now : Z) (a : API.t) :
  let info := (register r rnd now a).1 in
  let a1 := (register r rnd now a).2 in
  let a2 := unregister r info a1 in
  registered_ids r a1 = registered_ids r a ++ [rnd + now]
  ∧ registered_ids r a2
    = filter (λ j, j ≠ rnd + now) (registered_ids r a)
  ∧ (no_empty_array a → rnd + now ∉ registered_ids r a → a2 = a).
Proof.
  destruct r as [e cb|e cb]; simpl.
  - unfold state_listener_ids, onState.
    round_trip _stateListeners set_stateListeners clearOnState.
  - unfold automation_listener_ids, onAutomation.
    round_trip _automationListeners set_automationListeners
      clearOnAutomation.
Qed.

Lemma automation_listener_calls_trace (cache : gmap string IState)
    (listeners : list AutomationListener) :
  automation_listener_calls
    (flat_map (automation_listener_trace cache) listeners)
  = (λ l, (al_id l, cache)) <$> listeners.
Proof.
  induction listeners as [|l ls IH]; [done|].
  simpl. unfold automation_listener_calls in *.
  rewrite omap_app, IH.
  by destruct (al_callback l cache).
Qed.

(** X5: [clearOnAutomation] takes the listeners with the given id out of the
    automation's array, keeps the others in order, drops the key when none
    is left and touches nothing else; the next [automation_triggered]
    event for the automation calls the listeners that are left, in order,
    and none with that id, and leaves the broker as it is. *)
Theorem unsubscribed_automation_listener_is_not_triggered
    (a : API.t) (journal : list event) (trigger : automation_triggered)
    (i : Z) :
  let a1 := clearOnAutomation (at_entity_id trigger) i a in
  (∀ e, default [] (_automationListeners a1 !! e)
        = if decide (e = at_entity_id trigger)
          then filter (λ l, al_id l ≠ i)
                 (default [] (_automationListeners a !! e))
          else default [] (_automationListeners a !! e))
  ∧ _automationListeners a1 !! at_entity_id trigger ≠ Some []
  ∧ _states a1 = _states a
  ∧ _stateListeners a1 = _stateListeners a
  ∧ ∃ added,
      _onAutomationTrigger trigger (a1, journal)
      = (Normal tt, (a1, journal ++ added))
      ∧ automation_listener_calls added
        = (λ l, (al_id l, _states a))
          <$> filter (λ l, al_id l ≠ i)
                (default [] (_automationListeners a !! at_entity_id trigger))
      ∧ (∀ call, call ∈ automation_listener_calls added → call.1 ≠ i).
Proof.
  intros a1.
  split; [intros e; apply clearOnAutomation_listeners|].
  assert (Hother : _automationListeners a1 !! at_entity_id trigger ≠ Some []
                   ∧ _states a1 = _states a
                   ∧ _stateListeners a1 = _stateListeners a).
  { subst a1. unfold clearOnAutomation.
    destruct (_automationListeners a !! at_entity_id trigger) as [ls|] eqn:Hls.
    - destruct (decide _) as [Hnil|Hne]; simpl.
      + by rewrite lookup_delete_eq.
      + rewrite lookup_insert_eq. split; [|done].
        intros [= Heq]. by rewrite Heq in Hne.
    - by rewrite Hls. }
  destruct Hother as (Hne & Hst & Hsl).
  split; [done|]. split; [done|]. split; [done|].
  rewrite _onAutomationTrigger_eq.
  eexists. split; [reflexivity|].
  rewrite automation_listener_calls_trace.
  subst a1. rewrite clearOnAutomation_listeners, decide_True by done.
  rewrite Hst. split; [done|].
  intros call. rewrite list_elem_of_fmap.
  intros (l & -> & Hl). simpl.
  by apply list_elem_of_filter in Hl as [? _].
Qed.

Lemma API_eq (a b : API.t) :
  _states a = _states b → _stateListeners a = _stateListeners b →
  _automationListeners a = _automationListeners b → a = b.
Proof. destruct a, b; simpl; by intros -> -> ->. Qed.

(** X6: [_syncStates] can be repeated: a second run with the same result of
    the fetch settles as the first did and leaves the broker as the first
    left it. *)
Theorem syncStates_again_changes_nothing
    (parse : string → Date) (fetched : completion (option (list IState)))
    (a : API.t) :
  let once := _syncStates parse fetched a in
  _syncStates parse fetched once.2 = once.
Proof.
  destruct fetched as [[states|]|e]; try reflexivity.
  unfold _syncStates; simpl. f_equal.
  set (store := λ (a : API.t) (state : IState),
                  set_states <[entity_id state := state]> a).
  set (l := with_dates parse <$> states).
  destruct (foldl_set_states_listeners l (foldl store a l)) as [Hsl Hal].
  apply API_eq; [|exact Hsl|exact Hal].
  apply map_eq. intros e. unfold store.
  rewrite foldl_set_states_lookup.
  destruct (last (filter (λ s, entity_id s = e) l)) as [s|] eqn:Hlast;
    [|done].
  by rewrite foldl_set_states_lookup, Hlast.
Qed.

(** X7: An entity has a key in a registry only while it has listeners: no
    operation of the broker leaves an empty array under a key. *)
Theorem registries_never_hold_an_empty_array (a : API.t) :
  no_empty_array a →
  (∀ r rnd now, no_empty_array (register r rnd now a).2)
  ∧ (∀ r info, no_empty_array (unregister r info a))
  ∧ (∀ parse fetched, no_empty_array (_syncStates parse fetched a).2)
  ∧ (∀ data journal, no_empty_array (_onStateChange data (a, journal)).2.1)
  ∧ (∀ data journal,
       no_empty_array (_onAutomationTrigger data (a, journal)).2.1).
Proof.
  intros [Hs Ha]. split; [|split; [|split; [|split]]].
  - intros [e cb|e cb] rnd now; simpl.
    + unfold onState. split; [|by destruct (_stateListeners a !! e)].
      intros e'.
      destruct (_stateListeners a !! e) as [ls|]; simpl;
        (destruct (decide (e' = e)) as [->|Hne];
         [rewrite lookup_insert_eq|by rewrite lookup_insert_ne]).
      * intros [= Heq]. by destruct ls.
      * done.
    + unfold onAutomation. split; [by destruct (_automationListeners a !! e)|].
      intros e'.
      destruct (_automationListeners a !! e) as [ls|]; simpl;
        (destruct (decide (e' = e)) as [->|Hne];
         [rewrite lookup_insert_eq|by rewrite lookup_insert_ne]).
      * intros [= Heq]. by destruct ls.
      * done.
  - intros [e cb|e cb] info; simpl.
    + unfold clearOnState.
      destruct (_stateListeners a !! entityId info) as [ls|]; [|done].
      destruct (decide _) as [Hnil|Hne]; (split; [|done]); intros e'; simpl.
      * destruct (decide (e' = entityId info)) as [->|Hee];
          [by rewrite lookup_delete_eq|by rewrite lookup_delete_ne].
      * destruct (decide (e' = entityId info)) as [->|Hee];
          [|by rewrite lookup_insert_ne].
        rewrite lookup_insert_eq. intros [= Heq]. by rewrite Heq in Hne.
    + unfold clearOnAutomation.
      destruct (_automationListeners a !! entityId info) as [ls|]; [|done].
      destruct (decide _) as [Hnil|Hne]; (split; [done|]); intros e'; simpl.
      * destruct (decide (e' = entityId info)) as [->|Hee];
          [by rewrite lookup_delete_eq|by rewrite lookup_delete_ne].
      * destruct (decide (e' = entityId info)) as [->|Hee];
          [|by rewrite lookup_insert_ne].
        rewrite lookup_insert_eq. intros [= Heq]. by rewrite Heq in Hne.
  - intros parse [[states|]|e]; simpl; [|done|done].
    unfold no_empty_array.
    destruct (foldl_set_states_listeners (with_dates parse <$> states) a)
      as [-> ->]. done.
  - intros [e [newState|] oldState] journal; [|done].
    rewrite _onStateChange_some. done.
  - intros data journal. rewrite _onAutomationTrigger_eq. done.
Qed.

End Registry.

(** ** More on the module base *)

Section Queue.

Import Automation Expected.

Context {Mqtt : Type}.
Implicit Types (w : world Mqtt).

Lemma queued_after_push w (q : IQueue) :
  (_queue (this w) < length (arrays w))%nat →
  queued (set_arrays (alter (λ queue, queue ++ [q]) (_queue (this w))) w)
  = queued w ++ [q].
Proof.
  intros Hlt. unfold queued; simpl.
  rewrite list_lookup_alter.
  destruct (lookup_lt_is_Some_2 _ _ Hlt) as [queue Hq].
  rewrite Hq, decide_True by done. done.
Qed.

Lemma filter_other_ids (i : string) (qs : list IQueue) :
  i ∉ q_id <$> qs → List.filter (λ q, bool_decide (q_id q ≠ i)) qs = qs.
Proof.
  intros Hfresh. apply filter_keeps_all. intros q Hq.
  apply bool_decide_eq_true_2. intros Heq. apply Hfresh.
  rewrite <- Heq. by apply list_elem_of_fmap_2.
Qed.

(** X8: [runAt] puts the task at the end of the queue under the id it
    returns, the clock reading and the random part joined by a dash;
    [clearRunAt] with that id takes out every task queued under it, and
    when the id was not in the queue before, the queue is as it was before
    [runAt]. Neither touches the broker, the journal or the timers. *)
Theorem runAt_queues_a_task_that_clearRunAt_takes_back
    w (date : Date) (callback : list event → awaited) (now rnd : Z) :
  (_queue (this w) < length (arrays w))%nat →
  ∃ w1 w2,
    let i := pretty now +:+ "-" +:+ pretty rnd in
    runAt date callback now rnd w = (Normal i, w1)
    ∧ queued w1
      = queued w ++ [{| q_id := i; q_date := date; q_callback := callback |}]
    ∧ clearRunAt i w1 = (Normal tt, w2)
    ∧ queued w2 = List.filter (λ q, bool_decide (q_id q ≠ i)) (queued w)
    ∧ (i ∉ q_id <$> queued w → queued w2 = queued w)
    ∧ api w2 = api w ∧ journal w2 = journal w ∧ timers w2 = timers w.
Proof.
  intros Hlt. eexists _, _. simpl.
  split; [reflexivity|]. simpl.
  split; [by apply queued_after_push|].
  change (clearRunAt ?i ?w)
    with (filter_queue (λ q, bool_decide (q_id q ≠ i)) w).
  rewrite filter_queue_eq. split; [reflexivity|].
  rewrite queued_after_filter, queued_after_push by done.
  rewrite List.filter_app. simpl.
  rewrite bool_decide_eq_false_2 by (intros H; by apply H).
  rewrite app_nil_r. split; [done|].
  split; [apply filter_other_ids|done].
Qed.

(** X9: A delayed task that was cleared is not called by a poll started
    afterwards: such a poll calls the due tasks that are left, none of
    which has the cleared id. *)
Theorem cleared_task_is_not_called_by_later_polls
    w (i : string) (now : Z) :
  (∀ q j, q ∈ queued w → q_callback q j ≠ StillPending) →
  ∃ w1 w2,
    clearRunAt i w = (Normal tt, w1)
    ∧ queued w1 = List.filter (λ q, bool_decide (q_id q ≠ i)) (queued w)
    ∧ journal w1 = journal w
    ∧ _checkQueue now w1 = (Normal Finished, w2)
    ∧ queue_calls (journal w2)
      = queue_calls (journal w)
        ++ (q_id <$> List.filter (λ q, date_ge (Some now) (q_date q))
                       (queued w1))
    ∧ (i ∉ q_id <$> List.filter (λ q, date_ge (Some now) (q_date q))
                      (queued w1)).
Proof.
  intros Hsync.
  change (clearRunAt i w)
    with (filter_queue (λ q, bool_decide (q_id q ≠ i)) w).
  rewrite filter_queue_eq. eexists _, _. split; [reflexivity|].
  rewrite queued_after_filter. split; [done|]. split; [done|].
  unfold _checkQueue, mbind, js_bind, bind, gets.
  rewrite queued_after_filter.
  rewrite checkQueue_loop_without_pending.
  2:{ intros q j Hq. apply Hsync.
      apply list_elem_of_In, List.filter_In in Hq as [Hq _].
      by apply list_elem_of_In. }
  split; [reflexivity|]. simpl.
  split; [apply queue_calls_poll_journal|].
  rewrite list_elem_of_fmap. intros (q & Hi & Hq).
  apply list_elem_of_In, List.filter_In in Hq as [Hq _].
  apply List.filter_In in Hq as [_ Hq].
  apply bool_decide_eq_true_1 in Hq. by apply Hq.
Qed.

End Queue.

Section Ids.

Implicit Types (a b d s : string).

Lemma app_cons c a b : String c a +:+ b = String c (a +:+ b).
Proof. reflexivity. Qed.

Lemma app_empty_l a : "" +:+ a = a.
Proof. reflexivity. Qed.

Lemma app_empty a : a +:+ "" = a.
Proof. induction a as [|c a IH]; [done|]. by rewrite app_cons, IH. Qed.

Lemma app_cons_middle d c s : d +:+ String c s = (d +:+ String c "") +:+ s.
Proof. induction d as [|c' d IH]; [done|]. by rewrite !app_cons, IH. Qed.

Lemma pretty_N_go_digits (x : N) :
  ∀ s, ∃ d, pretty_N_go x s = d +:+ s
            ∧ Forall (λ c, String c "" ≠ "-") (String.list_ascii_of_string d).
Proof.
  induction (N.lt_wf_0 x) as [x _ IH]; intros s.
  destruct (decide (x = 0)%N) as [->|Hx].
  - exists "". by split; [|constructor].
  - rewrite pretty_N_go_step by lia.
    destruct (IH (x `div` 10)%N ltac:(apply N.div_lt; lia)
                (String (pretty_N_char (x `mod` 10)) s)) as (d & Heq & Hd).
    rewrite Heq.
    exists (d +:+ String (pretty_N_char (x `mod` 10)) "").
    split; [apply app_cons_middle|].
    clear -Hd. induction d as [|c d IHd].
    + constructor; [|constructor].
      unfold pretty_N_char. by repeat case_match.
    + rewrite app_cons. simpl. inversion_clear Hd.
      constructor; [done|]. by apply IHd.
Qed.

Lemma pretty_digits (x : Z) :
  0 ≤ x →
  Forall (λ c, String c "" ≠ "-") (String.list_ascii_of_string (pretty x)).
Proof.
  intros Hx. destruct x as [|p|p]; [|clear Hx|lia].
  - repeat constructor. done.
  - unfold pretty, pretty_Z, pretty, pretty_positive, pretty, pretty_N.
    rewrite decide_False by done.
    destruct (pretty_N_go_digits (N.pos p) "") as (d & -> & Hd).
    by rewrite app_empty.
Qed.

Lemma dash_separated a a' b b' :
  Forall (λ c, String c "" ≠ "-") (String.list_ascii_of_string a) →
  Forall (λ c, String c "" ≠ "-") (String.list_ascii_of_string a') →
  a +:+ "-" +:+ b = a' +:+ "-" +:+ b' → a = a' ∧ b = b'.
Proof.
  revert a'. induction a as [|c a IH]; intros [|c' a'] Ha Ha';
    rewrite ?app_cons, ?app_empty_l.
  - by intros [= ->].
  - intros [= <- _]. by inversion_clear Ha'.
  - intros [= -> _]. by inversion_clear Ha.
  - intros [= -> Heq]. inversion_clear Ha. inversion_clear Ha'.
    destruct (IH a') as [-> ->]; done.
Qed.

End Ids.

Section Task_ids.

Import Automation Expected.

Context {Mqtt : Type}.
Implicit Types (w : world Mqtt).

(** X10: The ids of delayed tasks and of per-minute callbacks are the clock
    reading and the random part in decimal, joined by a dash: two calls
    get the same id exactly when they read the same millisecond and draw
    the same random part. *)
Theorem task_ids_coincide_only_for_equal_clock_and_random_part
    w w' (date date' : Date) (callback callback' : list event → awaited)
    (minutely minutely' : list event → completion unit)
    (now rnd now' rnd' : Z) :
  0 ≤ now → 0 ≤ now' → 0 ≤ rnd → 0 ≤ rnd' →
  ((runAt date callback now rnd w).1
   = (runAt date' callback' now' rnd' w').1
   ↔ now = now' ∧ rnd = rnd')
  ∧ ((setEachMinute minutely now rnd w).1
     = (setEachMinute minutely' now' rnd' w').1
     ↔ now = now' ∧ rnd = rnd').
Proof.
  intros Hn Hn' Hr Hr'.
  assert (Hid : pretty now +:+ "-" +:+ pretty rnd
                = pretty now' +:+ "-" +:+ pretty rnd'
                ↔ now = now' ∧ rnd = rnd').
  { split.
    - intros Heq.
      apply dash_separated in Heq as [H1 H2]; [|by apply pretty_digits..].
      split; by apply (inj pretty).
    - by intros [-> ->]. }
  split; simpl; (split; [intros [= Heq]; by apply Hid|]);
    intros Heq; f_equal; by apply Hid.
Qed.

End Task_ids.

Section Frames.

Import Automation Expected.

Context {Mqtt : Type}.
Implicit Types (w : world Mqtt).

Lemma checkQueue_loop_pending (now : Z) (array : nat)
    (before : list IQueue) (q : IQueue) (after : list IQueue) :
  (∀ q' j, q' ∈ before → q_callback q' j ≠ StillPending) →
  date_ge (Some now) (q_date q) = true →
  (∀ j, q_callback q j = StillPending) →
  ∀ index w,
    _checkQueue_loop now array index (before ++ q :: after) w
    = (Normal (Suspended {| f_now := now; f_array := array;
                            f_next := S (index + length before) |}),
       set_broker
         (api w,
          poll_journal now before (journal w)
            ++ [QueueCallbackCalled (q_id q)]) w).
Proof.
  intros Hsync Hdue Hpending.
  induction before as [|q' before IH]; intros index w; simpl.
  - rewrite Hdue. unfold mbind, js_bind, bind. simpl.
    rewrite Hpending. simpl. unfold mret, js_ret, ret.
    by rewrite Nat.add_0_r.
  - assert (Hrest : ∀ q0 j, q0 ∈ before → q_callback q0 j ≠ StillPending).
    { intros q0 j Hq0. apply Hsync. by right. }
    destruct (date_ge (Some now) (q_date q')).
    + unfold mbind, js_bind, bind. simpl.
      pose proof (Hsync q' (journal w) ltac:(by left)) as Hq'.
      destruct (q_callback q' (journal w)) as [|e|]; [| |done].
      * rewrite IH by done. simpl. do 4 f_equal. lia.
      * unfold Logger_error, in_broker, zoom. simpl.
        rewrite IH by done. simpl. do 4 f_equal. lia.
    + rewrite IH by done. do 4 f_equal. lia.
Qed.

(** X11: A poll stops at the first due task whose promise is pending: the
    tasks before it that were due have been called, and the queue is as it
    was, so that the next poll calls the same tasks again. *)
Theorem poll_suspended_by_a_pending_task_leaves_the_queue_as_it_was
    w (now : Z) (before : list IQueue) (q : IQueue) (after : list IQueue) :
  queued w = before ++ q :: after →
  (∀ q' j, q' ∈ before → q_callback q' j ≠ StillPending) →
  date_ge (Some now) (q_date q) = true →
  (∀ j, q_callback q j = StillPending) →
  ∃ w1,
    _checkQueue now w
    = (Normal (Suspended {| f_now := now; f_array := _queue (this w);
                            f_next := S (length before) |}), w1)
    ∧ queue_calls (journal w1)
      = queue_calls (journal w)
        ++ (q_id <$> List.filter (λ q, date_ge (Some now) (q_date q)) before)
        ++ [q_id q]
    ∧ queued w1 = queued w
    ∧ this w1 = this w
    ∧ ∀ now', now ≤ now' →
        ∃ w2,
          _checkQueue now' w1
          = (Normal (Suspended {| f_now := now'; f_array := _queue (this w);
                                  f_next := S (length before) |}), w2)
          ∧ queue_calls (journal w2)
            = queue_calls (journal w1)
              ++ (q_id <$> List.filter (λ q, date_ge (Some now') (q_date q))
                             before)
              ++ [q_id q]
          ∧ queued w2 = queued w.
Proof.
  intros Hq Hsync Hdue Hpending.
  assert (Hstep : ∀ t (ws : world Mqtt), queued ws = before ++ q :: after →
    date_ge (Some t) (q_date q) = true →
    _checkQueue t ws
    = (Normal (Suspended {| f_now := t; f_array := _queue (this ws);
                            f_next := S (length before) |}),
       set_broker
         (api ws,
          poll_journal t before (journal ws)
            ++ [QueueCallbackCalled (q_id q)]) ws)).
  { intros t ws Hws Ht. unfold _checkQueue, mbind, js_bind, bind, gets.
    rewrite Hws. by rewrite checkQueue_loop_pending. }
  assert (Hcalls : ∀ t j,
    queue_calls (poll_journal t before j ++ [QueueCallbackCalled (q_id q)])
    = queue_calls j
      ++ (q_id <$> List.filter (λ q, date_ge (Some t) (q_date q)) before)
      ++ [q_id q]).
  { intros t j. unfold queue_calls at 1. rewrite omap_app.
    fold (queue_calls (poll_journal t before j)).
    rewrite queue_calls_poll_journal. by rewrite <- app_assoc. }
  rewrite Hstep by done. eexists. split; [reflexivity|].
  simpl. split; [apply Hcalls|]. split; [done|]. split; [done|].
  intros now' Hlater.
  assert (Hdue' : date_ge (Some now') (q_date q) = true).
  { unfold date_ge in *. destruct (q_date q) as [t|]; [|done].
    apply bool_decide_eq_true_1 in Hdue. apply bool_decide_eq_true_2. lia. }
  rewrite Hstep by done. eexists. split; [reflexivity|].
  simpl. split; [apply Hcalls|done].
Qed.

(** X12: A poll that was suspended goes on, once the promise it awaited has
    settled, with the rest of the array it was iterating, whatever the
    queue has become in the meantime: it logs the error if the promise was
    rejected, calls the due tasks of that rest, and then replaces the
    current queue by its tasks that are later than the poll's time. *)
Theorem resumed_poll_visits_the_rest_of_the_array_it_iterated
    w (f : frame) (settled : completion unit) :
  let rest := drop (f_next f) (default [] (arrays w !! f_array f)) in
  (∀ q j, q ∈ rest → q_callback q j ≠ StillPending) →
  ∃ w',
    _checkQueue_resume f settled w = (Normal Finished, w')
    ∧ queue_calls (journal w')
      = queue_calls (journal w)
        ++ (q_id <$> List.filter (λ q, date_ge (Some (f_now f)) (q_date q))
                       rest)
    ∧ (∃ added,
         journal w'
         = journal w
           ++ match settled with
              | Normal _ => []
              | Abrupt e => [LoggerError e]
              end
           ++ added)
    ∧ queued w'
      = List.filter (λ q, date_lt (Some (f_now f)) (q_date q)) (queued w)
    ∧ api w' = api w ∧ timers w' = timers w.
Proof.
  intros rest Hsync. unfold _checkQueue_resume.
  unfold mbind at 1, js_bind at 1, bind at 1.
  assert (Hpoll : ∀ j, ∃ added, poll_journal (f_now f) rest j = j ++ added).
  { clear. induction rest as [|q rest IH]; intros j; simpl.
    - exists []. by rewrite app_nil_r.
    - destruct (date_ge _ _); [|apply IH].
      destruct (q_callback q j);
        match goal with |- context [poll_journal _ _ ?j'] =>
          destruct (IH j') as [added ->] end;
        rewrite <- ?app_assoc; by eexists. }
  assert (Hq : ∀ (ws : world Mqtt) keep b,
    queued (set_this (set_queue (length (arrays ws)))
              (set_arrays (λ ars, ars ++ [List.filter keep (queued ws)])
                 (set_broker b ws)))
    = List.filter keep (queued ws)).
  { intros ws keep b. unfold queued at 1. simpl.
    rewrite lookup_app_r by lia. by rewrite Nat.sub_diag. }
  destruct settled as [[]|e]; simpl.
  - unfold mbind, js_bind, bind, gets. simpl.
    fold rest. rewrite checkQueue_loop_without_pending by done.
    eexists. split; [reflexivity|]. simpl.
    split; [apply queue_calls_poll_journal|].
    split; [apply Hpoll|]. split; [apply Hq|done].
  - unfold Logger_error, in_broker, zoom, API.log, modify. simpl.
    unfold mbind, js_bind, bind, gets. simpl.
    fold rest. rewrite checkQueue_loop_without_pending by done.
    eexists. split; [reflexivity|]. simpl.
    split.
    { rewrite queue_calls_poll_journal. unfold queue_calls at 1.
      rewrite omap_app. simpl. by rewrite app_nil_r. }
    split.
    { destruct (Hpoll (journal w ++ [LoggerError e])) as [added ->].
      exists added. by rewrite <- app_assoc. }
    split; [|done]. unfold queued at 1. simpl.
    rewrite lookup_app_r by lia. by rewrite Nat.sub_diag.
Qed.

End Frames.

Section Minutes.

Import Automation Expected.

Context {Mqtt : Type}.
Implicit Types (w : world Mqtt).

Lemma each_minute_round (items : list IEachMinute) :
  (∀ item j, item ∈ items → em_callback item j = Normal tt) →
  ∀ w, ∃ j,
    for_of items (λ item, λ w,
      (em_callback item (journal w),
       set_broker
         (api w, journal w ++ [EachMinuteCallbackCalled (em_id item)]) w)) w
    = (Normal tt, set_broker (api w, j) w)
    ∧ each_minute_calls j
      = each_minute_calls (journal w) ++ (em_id <$> items).
Proof.
  induction items as [|item items IH]; intros Hret w; simpl.
  - exists (journal w). split; [by destruct w|by rewrite app_nil_r].
  - unfold bind. rewrite Hret by (by left).
    destruct (IH ltac:(intros i j Hi; apply Hret; by right)
                (set_broker
                   (api w,
                    journal w ++ [EachMinuteCallbackCalled (em_id item)]) w))
      as (j & -> & Hj).
    exists j. split; [done|]. rewrite Hj. simpl.
    unfold each_minute_calls. rewrite omap_app. simpl.
    by rewrite <- app_assoc.
Qed.

Lemma each_minute_round_thrown (before : list IEachMinute)
    (item : IEachMinute) (after : list IEachMinute) (e : error) :
  (∀ item' j, item' ∈ before → em_callback item' j = Normal tt) →
  (∀ j, em_callback item j = Abrupt e) →
  ∀ w, ∃ j,
    for_of (before ++ item :: after) (λ item, λ w,
      (em_callback item (journal w),
       set_broker
         (api w, journal w ++ [EachMinuteCallbackCalled (em_id item)]) w)) w
    = (Abrupt e, set_broker (api w, j) w)
    ∧ each_minute_calls j
      = each_minute_calls (journal w) ++ (em_id <$> before) ++ [em_id item].
Proof.
  intros Hret Hthrow.
  induction before as [|item' before IH]; intros w; simpl.
  - unfold bind. rewrite Hthrow. eexists. split; [reflexivity|].
    unfold each_minute_calls. by rewrite omap_app.
  - unfold bind. rewrite Hret by (by left).
    destruct (IH ltac:(intros i j Hi; apply Hret; by right)
                (set_broker
                   (api w,
                    journal w ++ [EachMinuteCallbackCalled (em_id item')]) w))
      as (j & -> & Hj).
    exists j. split; [done|]. rewrite Hj. simpl.
    unfold each_minute_calls. rewrite omap_app. simpl.
    by rewrite <- app_assoc.
Qed.

Lemma for_of_keeps_this {A} (xs : list A)
    (body : A → js (world Mqtt) unit) :
  (∀ x w, this (body x w).2 = this w) →
  ∀ w, this (for_of xs body w).2 = this w.
Proof.
  intros Hbody. induction xs as [|x xs IH]; intros w; [done|].
  simpl. unfold bind. specialize (Hbody x w).
  destruct (body x w) as [[[]|e] w1]; simpl in *; [|done].
  by rewrite IH.
Qed.

(** X13: The per-minute callbacks are called when the minute read differs from
    the one recorded, which is recorded first: a check in the recorded
    minute does nothing; in another minute every registered callback is
    called once, in order of registration, as long as none throws while it
    is called; a callback that throws ends the round, the ones registered
    after it are not called; and however a check ends, a second check in
    the same minute does nothing, so what a round missed is not made
    up. *)
Theorem per_minute_callbacks_run_once_when_the_minute_changes
    w (current : Z) :
  (current = _lastMinute (this w) →
   _checkEachMinute current w = (Normal tt, w))
  ∧ (current ≠ _lastMinute (this w) →
     (∀ item j, item ∈ _eachMinutes (this w) → em_callback item j = Normal tt) →
     ∃ w', _checkEachMinute current w = (Normal tt, w')
       ∧ each_minute_calls (journal w')
         = each_minute_calls (journal w) ++ (em_id <$> _eachMinutes (this w))
       ∧ _lastMinute (this w') = current
       ∧ _eachMinutes (this w') = _eachMinutes (this w))
  ∧ (current ≠ _lastMinute (this w) →
     ∀ before item after e,
       _eachMinutes (this w) = before ++ item :: after →
       (∀ item' j, item' ∈ before → em_callback item' j = Normal tt) →
       (∀ j, em_callback item j = Abrupt e) →
       ∃ w', _checkEachMinute current w = (Abrupt e, w')
         ∧ each_minute_calls (journal w')
           = each_minute_calls (journal w)
             ++ (em_id <$> before) ++ [em_id item]
         ∧ _lastMinute (this w') = current)
  ∧ (∀ r w', _checkEachMinute current w = (r, w') →
       _checkEachMinute current w' = (Normal tt, w')).
Proof.
  split; [|split; [|split]].
  - intros Hsame. unfold _checkEachMinute, mbind, js_bind, bind, gets.
    by rewrite decide_True.
  - intros Hnew Hret. unfold _checkEachMinute, mbind, js_bind, bind, gets.
    rewrite decide_False by done. simpl.
    destruct (each_minute_round (_eachMinutes (this w)) Hret
                (set_this (set_lastMinute current) w)) as (j & Hrun & Hj).
    simpl in Hrun. rewrite Hrun. eexists. split; [reflexivity|]. done.
  - intros Hnew before item after e Hitems Hret Hthrow.
    unfold _checkEachMinute, mbind, js_bind, bind, gets.
    rewrite decide_False by done. simpl. rewrite Hitems.
    destruct (each_minute_round_thrown before item after e Hret Hthrow
                (set_this (set_lastMinute current) w)) as (j & Hrun & Hj).
    rewrite Hrun. eexists. split; [reflexivity|]. done.
  - intros r w'. unfold _checkEachMinute, mbind, js_bind, bind, gets.
    destruct (decide (current = _lastMinute (this w))) as [Hsame|Hnew].
    + intros [= <- <-]. by rewrite decide_True.
    + simpl. intros Hrun.
      assert (Hthis : this w' = this (set_this (set_lastMinute current) w)).
      { replace w' with
          (for_of (_eachMinutes (this w)) (λ item, λ w0 : world Mqtt,
             (em_callback item (journal w0),
              set_broker
                (api w0,
                 journal w0 ++ [EachMinuteCallbackCalled (em_id item)]) w0))
             (set_this (set_lastMinute current) w)).2
          by by rewrite Hrun.
        by apply for_of_keeps_this. }
      rewrite Hthis. simpl. by rewrite decide_True.
Qed.

End Minutes.

Section Minutes_registration.

Import Automation Expected.

Context {Mqtt : Type}.
Implicit Types (w : world Mqtt).

Lemma filter_other_minute_ids (i : string) (items : list IEachMinute) :
  i ∉ em_id <$> items →
  List.filter (λ item, bool_decide (em_id item ≠ i)) items = items.
Proof.
  intros Hfresh. apply filter_keeps_all. intros item Hitem.
  apply bool_decide_eq_true_2. intros Heq. apply Hfresh.
  rewrite <- Heq. by apply list_elem_of_fmap_2.
Qed.

(** X14: [setEachMinute] registers the callback last and hands back its id;
    [clearEachMinute] takes out every callback registered under the id (the
    one just registered, and older ones if the id is not new), and the
    checks that follow do not call a callback with that id. *)
Theorem cleared_per_minute_callback_is_not_called_again
    w (callback : list event → completion unit) (now rnd current : Z) :
  ∃ w1 w2,
    let i := pretty now +:+ "-" +:+ pretty rnd in
    let kept := List.filter (λ item, bool_decide (em_id item ≠ i))
                  (_eachMinutes (this w)) in
    setEachMinute callback now rnd w = (Normal i, w1)
    ∧ _eachMinutes (this w1)
      = _eachMinutes (this w) ++ [{| em_id := i; em_callback := callback |}]
    ∧ clearEachMinute i w1 = (Normal tt, w2)
    ∧ _eachMinutes (this w2) = kept
    ∧ (i ∉ em_id <$> _eachMinutes (this w) →
       _eachMinutes (this w2) = _eachMinutes (this w))
    ∧ journal w2 = journal w
    ∧ (current ≠ _lastMinute (this w) →
       (∀ item j, item ∈ kept → em_callback item j = Normal tt) →
       ∃ w3, _checkEachMinute current w2 = (Normal tt, w3)
         ∧ each_minute_calls (journal w3)
           = each_minute_calls (journal w) ++ (em_id <$> kept)
         ∧ (i ∉ em_id <$> kept)).
Proof.
  eexists _, _. simpl. split; [reflexivity|]. simpl.
  split; [done|]. split; [reflexivity|]. simpl.
  set (i := pretty now +:+ "-" +:+ pretty rnd).
  assert (Hkept :
    List.filter (λ item, bool_decide (em_id item ≠ i))
      (_eachMinutes (this w) ++ [{| em_id := i; em_callback := callback |}])
    = List.filter (λ item, bool_decide (em_id item ≠ i))
        (_eachMinutes (this w))).
  { rewrite List.filter_app. simpl.
    rewrite bool_decide_eq_false_2 by (intros H; by apply H).
    by rewrite app_nil_r. }
  split; [exact Hkept|]. rewrite Hkept.
  split; [apply filter_other_minute_ids|]. split; [done|].
  intros Hnew Hret.
  unfold _checkEachMinute, mbind, js_bind, bind, gets. simpl.
  rewrite decide_False by done. simpl. rewrite Hkept.
  match goal with |- context [for_of _ _ ?w0] =>
    destruct (each_minute_round _ Hret w0) as (j & Hrun & Hj)
  end.
  simpl in Hrun. rewrite Hrun. eexists. split; [reflexivity|].
  split; [exact Hj|].
  rewrite list_elem_of_fmap. intros (item & Hi & Hitem).
  apply list_elem_of_In, List.filter_In in Hitem as [_ Hitem].
  apply bool_decide_eq_true_1 in Hitem. by apply Hitem.
Qed.

End Minutes_registration.

Section Timers.

Import Automation Expected.

Context {Mqtt : Type}.
Implicit Types (w : world Mqtt).

Lemma set_timer_eq (k : timer_kind) w :
  ∃ w', set_timer k w = (Normal (next_timer w), w')
    ∧ tracked k w' = tracked k w ++ [next_timer w]
    ∧ timers w' = {[next_timer w]} ∪ timers w
    ∧ next_timer w' = S (next_timer w)
    ∧ (∀ k', k' ≠ k → tracked k' w' = tracked k' w)
    ∧ api w' = api w ∧ journal w' = journal w.
Proof.
  destruct k; eexists; (split; [reflexivity|]); simpl;
    repeat (split; [done|]); (split; [|done]); by intros [].
Qed.

(** X15: Clearing a tracked handle ends its timer and takes its first
    occurrence, and nothing else, out of the tracking list; and a timer
    that is set and then cleared leaves the tracking list as it was. *)
Theorem clearing_a_tracked_handle_untracks_that_handle
    (k : timer_kind) w :
  (∀ id before after,
     tracked k w = before ++ id :: after → id ∉ before →
     ∃ w', clear_timer k id w = (Normal tt, w')
       ∧ tracked k w' = before ++ after
       ∧ timers w' = timers w ∖ {[id]}
       ∧ (∀ k', k' ≠ k → tracked k' w' = tracked k' w))
  ∧ ∃ w1,
      set_timer k w = (Normal (next_timer w), w1)
      ∧ tracked k w1 = tracked k w ++ [next_timer w]
      ∧ next_timer w ∈ timers w1
      ∧ (next_timer w ∉ tracked k w →
         ∃ w2, clear_timer k (next_timer w) w1 = (Normal tt, w2)
           ∧ tracked k w2 = tracked k w
           ∧ (∀ k', tracked k' w2 = tracked k' w)
           ∧ timers w2 = timers w ∖ {[next_timer w]}).
Proof.
  split.
  - intros id before after Htracked Hfirst.
    destruct (clear_timer_eq k id w) as (w' & Hrun & Htr & Htm & Hoth).
    exists w'. split; [done|]. split; [|done].
    by rewrite Htr, Htracked, indexOf_middle, splice1_at, delete_middle.
  - destruct (set_timer_eq k w) as (w1 & Hset & Htr1 & Htm1 & _ & Hoth1 & _).
    exists w1. split; [done|]. split; [done|].
    split; [rewrite Htm1; apply elem_of_union_l; by apply elem_of_singleton|].
    intros Hfresh.
    destruct (clear_timer_eq k (next_timer w) w1)
      as (w2 & Hrun & Htr2 & Htm2 & Hoth2).
    exists w2. split; [done|].
    assert (Hk : tracked k w2 = tracked k w).
    { rewrite Htr2, Htr1.
      rewrite <- (app_nil_r (tracked k w ++ [next_timer w])), <- app_assoc.
      simpl. rewrite indexOf_middle, splice1_at, delete_middle by done.
      by rewrite app_nil_r. }
    split; [done|]. split.
    + intros k'.
      assert (k' = k ∨ k' ≠ k) as [->|Hne] by (destruct k, k'; auto);
        [done|].
      by rewrite Hoth2, Hoth1.
    + rewrite Htm2, Htm1. apply set_eq. intros x.
      rewrite !elem_of_difference, elem_of_union, elem_of_singleton. tauto.
Qed.

End Timers.

Section Lifecycle.

Import Automation Expected.

Context {Mqtt : Type}.
Implicit Types (w : world Mqtt).

Variable mqtt_subscribe : string → js Mqtt (string * Z).
Variable mqtt_unsubscribe : string → Z → js Mqtt unit.

(** X16: A module that is destroyed right after its construction: the
    constructor starts the two polling intervals and tracks them, and
    [destroy] ends them, so that the host's timers, the broker, the journal
    and the mqtt client are as before the construction. *)
Theorem module_destroyed_after_construction_leaves_nothing_behind
    w (minute : Z) :
  next_timer w ∉ timers w →
  S (next_timer w) ∉ timers w →
  ∃ w1 w2,
    constructor minute w = (Normal tt, w1)
    ∧ _intervals (this w1) = [next_timer w; S (next_timer w)]
    ∧ timers w1 = {[next_timer w; S (next_timer w)]} ∪ timers w
    ∧ _timeouts (this w1) = []
    ∧ queued w1 = []
    ∧ _eachMinutes (this w1) = []
    ∧ _lastMinute (this w1) = minute
    ∧ destroy mqtt_unsubscribe w1 = (Normal tt, w2)
    ∧ timers w2 = timers w
    ∧ api w2 = api w
    ∧ journal w2 = journal w
    ∧ mqtt w2 = mqtt w
    ∧ _intervals (this w2) = [].
Proof.
  intros Hfresh1 Hfresh2.
  destruct (destroy_returns mqtt_unsubscribe (constructor minute w).2
              (mqtt w)) as (q' & ars' & Hd & _).
  { unfold queued. simpl. rewrite lookup_app_r by lia.
    rewrite Nat.sub_diag. simpl. constructor. }
  { done. }
  eexists _, _. split; [reflexivity|]. simpl.
  split; [done|].
  split.
  { apply set_eq. intros x.
    rewrite !elem_of_union, !elem_of_singleton. tauto. }
  split; [done|].
  split.
  { unfold queued. simpl. rewrite lookup_app_r by lia.
    by rewrite Nat.sub_diag. }
  split; [done|]. split; [done|].
  split; [exact Hd|]. simpl.
  split; [|done].
  apply set_eq. intros x.
  rewrite !elem_of_difference, !elem_of_union, !elem_of_singleton,
    elem_of_empty.
  split; [tauto|]. intros Hx. split; [split; [tauto|tauto]|].
  intros [->|[->|[]]]; done.
Qed.

(** X17: [mqttSubscribe] never throws. When the client throws, the error is
    logged and nothing is recorded. When the client returns a subscription,
    its id is recorded under its topic, in place of the id recorded for
    that topic before: the module holds one id per topic. *)
Theorem mqttSubscribe_records_one_id_for_each_topic w (topic : string) :
  NoDup (_mqttSubscriptions (this w)).*1 →
  ∃ w', mqttSubscribe mqtt_subscribe topic w = (Normal tt, w')
    ∧ mqtt w' = (mqtt_subscribe topic (mqtt w)).2
    ∧ NoDup (_mqttSubscriptions (this w')).*1
    ∧ match (mqtt_subscribe topic (mqtt w)).1 with
      | Normal sub =>
          journal w' = journal w
          ∧ ∀ t i, (t, i) ∈ _mqttSubscriptions (this w')
                   ↔ (t = sub.1 ∧ i = sub.2)
                     ∨ (t ≠ sub.1 ∧ (t, i) ∈ _mqttSubscriptions (this w))
      | Abrupt e =>
          journal w' = journal w ++ [LoggerError e]
          ∧ this w' = this w
      end.
Proof.
  intros Hnodup.
  unfold mqttSubscribe, try_catch, mbind, js_bind, bind, in_mqtt, zoom.
  destruct (mqtt_subscribe topic (mqtt w)) as [[[t0 i0]|e] mq'] eqn:Hsub;
    simpl.
  - eexists. split; [reflexivity|]. simpl. split; [done|].
    set (subs := _mqttSubscriptions (this w)) in *.
    destruct (decide (t0 ∈ subs.*1)) as [Hin|Hnotin].
    + assert (Hkeys : ((λ kv : string * Z,
                          if decide (kv.1 = t0) then (t0, i0) else kv)
                       <$> subs).*1 = subs.*1).
      { clear. induction subs as [|[t i] subs IH]; [done|].
        rewrite !fmap_cons, IH. simpl.
        by destruct (decide (t = t0)) as [->|]. }
      split; [by rewrite Hkeys|]. split; [done|].
      intros t i. rewrite list_elem_of_fmap. split.
      * intros ([t1 i1] & Heq & Hel). simpl in Heq.
        destruct (decide (t1 = t0)) as [->|Hne].
        -- injection Heq as -> ->. by left.
        -- injection Heq as -> ->. by right.
      * intros [[-> ->]|[Hne Hel]].
        -- apply list_elem_of_fmap in Hin as ([t1 i1] & Ht1 & Hel1).
           simpl in Ht1. subst t1.
           exists (t0, i1). simpl. by rewrite decide_True.
        -- exists (t, i). simpl. by rewrite decide_False.
    + split.
      { rewrite fmap_app. simpl. apply NoDup_app. split; [done|].
        split; [|apply NoDup_singleton].
        intros x Hx ->%list_elem_of_singleton. done. }
      split; [done|].
      intros t i. rewrite elem_of_app, list_elem_of_singleton. split.
      * intros [Hel|[= -> ->]]; [|by left].
        right. split; [|done]. intros ->. apply Hnotin.
        by apply (list_elem_of_fmap_2 fst) in Hel.
      * intros [[-> ->]|[_ Hel]]; [by right|by left].
  - unfold Logger_error, in_broker, zoom, API.log, modify. simpl.
    eexists. split; [reflexivity|]. simpl.
    by repeat split.
Qed.

End Lifecycle.

Section Release.

Import Automation Expected.

Context {Mqtt : Type}.
Implicit Types (w : world Mqtt).

Variable mqtt_unsubscribe : string → Z → js Mqtt unit.

Lemma called_state_listeners_trace (cache : gmap string IState)
    (newState : IState) (oldState : option IState)
    (listeners : list API.StateListener) :
  called_state_listeners
    (flat_map (state_listener_trace cache newState oldState) listeners)
  = API.sl_id <$> listeners.
Proof.
  induction listeners as [|l ls IH]; [done|].
  simpl. unfold called_state_listeners in *.
  rewrite omap_app, IH.
  by destruct (API.sl_callback l newState oldState cache).
Qed.

Lemma called_automation_listeners_trace (cache : gmap string IState)
    (listeners : list API.AutomationListener) :
  called_automation_listeners
    (flat_map (automation_listener_trace cache) listeners)
  = API.al_id <$> listeners.
Proof.
  induction listeners as [|l ls IH]; [done|].
  simpl. unfold called_automation_listeners in *.
  rewrite omap_app, IH.
  by destruct (API.al_callback l cache).
Qed.

Lemma recorded_app (subs : list listenerInfo) (sub : listenerInfo)
    (e : string) :
  recorded (subs ++ [sub]) e
  = recorded subs e ++ (if decide (entityId sub = e) then [id sub] else []).
Proof.
  unfold recorded. rewrite filter_app, fmap_app. f_equal.
  rewrite filter_cons. by destruct (decide (entityId sub = e)).
Qed.

(** X18: A state listener that a module registers with [onStateChange] is
    appended to the broker's listeners of the entity and recorded by the
    module; once [destroy] has returned, an event for the entity calls the
    listeners that were registered before and that the module has not
    recorded, and none with the id of this one. *)
Theorem state_listener_of_a_destroyed_module_is_not_called
    w (e : string) (callback : IStateCallback) (rnd now : Z) :
  ∃ w1,
    onStateChange e callback rnd now w = (Normal tt, w1)
    ∧ API._stateListeners (api w1) !! e
      = Some (default [] (API._stateListeners (api w) !! e)
              ++ [{| API.sl_id := rnd + now; API.sl_callback := callback |}])
    ∧ _stateSubscriptions (this w1)
      = _stateSubscriptions (this w)
        ++ [{| id := rnd + now; entityId := e |}]
    ∧ ∀ w2, destroy mqtt_unsubscribe w1 = (Normal tt, w2) →
        ∀ entityId newState oldState, entity_id newState = e →
          ∃ a3 added,
            API._onStateChange
              {| API.sc_entity_id := entityId;
                 API.new_state := Some newState;
                 API.old_state := oldState |}
              (api w2, journal w2)
            = (Normal tt, (a3, journal w2 ++ added))
            ∧ called_state_listeners added
              = filter (λ j, j ∉ recorded (_stateSubscriptions (this w)) e
                                    ++ [rnd + now])
                  (state_listener_ids (api w) e)
            ∧ (rnd + now ∉ called_state_listeners added).
Proof.
  unfold onStateChange, mbind, js_bind, bind, in_broker, zoom, modify.
  simpl.
  assert (Hreg :
    API._stateListeners (API.onState e callback rnd now (api w)).2 !! e
    = Some (default [] (API._stateListeners (api w) !! e)
            ++ [{| API.sl_id := rnd + now; API.sl_callback := callback |}])).
  { unfold API.onState.
    destruct (API._stateListeners (api w) !! e); simpl;
      by rewrite lookup_insert_eq. }
  assert (Hinfo : (API.onState e callback rnd now (api w)).1
                  = {| id := rnd + now; entityId := e |}).
  { unfold API.onState. by destruct (API._stateListeners (api w) !! e). }
  destruct (API.onState e callback rnd now (api w)) as [info a1] eqn:Hon.
  simpl in *. subst info.
  eexists. split; [reflexivity|]. simpl.
  split; [exact Hreg|]. split; [done|].
  intros w2 Hdestroy entityId newState oldState He.
  apply destroy_normal in Hdestroy
    as (q' & ars' & mq' & _ & -> & _). simpl.
  rewrite _onStateChange_some. simpl.
  eexists _, _. split; [reflexivity|].
  rewrite called_state_listeners_trace.
  set (subs := _stateSubscriptions (this w) ++ _).
  set (subs' := _automationSubscriptions (this w)).
  destruct (clear_automations_other subs' (clear_states subs a1))
    as [_ Hsl].
  fold (state_listener_ids
          (clear_automations subs' (clear_states subs a1))
          (entity_id newState)).
  assert (Hids : state_listener_ids
                   (clear_automations subs' (clear_states subs a1)) e
                 = filter (λ j, j ∉ recorded subs e)
                     (state_listener_ids a1 e)).
  { rewrite <- clear_states_ids. unfold state_listener_ids.
    by rewrite Hsl. }
  rewrite He, Hids. unfold subs. rewrite recorded_app. simpl.
  rewrite decide_True by done.
  unfold state_listener_ids at 1. rewrite Hreg. simpl.
  rewrite fmap_app, filter_app. simpl.
  rewrite filter_cons_False, filter_nil, app_nil_r.
  2:{ intros H. apply H. rewrite elem_of_app, list_elem_of_singleton.
      by right. }
  split; [done|].
  intros [Hn _]%list_elem_of_filter. apply Hn.
  rewrite elem_of_app, list_elem_of_singleton. by right.
Qed.

(** X19: An automation listener that a module registers with
    [onAutomationTrigger] is appended to the broker's listeners of the
    automation and recorded by the module; once [destroy] has returned, a
    trigger of the automation calls the listeners that were registered
    before and that the module has not recorded, and none with the id of
    this one. *)
Theorem automation_listener_of_a_destroyed_module_is_not_called
    w (e : string) (callback : ITriggerCallback) (rnd now : Z) :
  ∃ w1,
    onAutomationTrigger e callback rnd now w = (Normal tt, w1)
    ∧ API._automationListeners (api w1) !! e
      = Some (default [] (API._automationListeners (api w) !! e)
              ++ [{| API.al_id := rnd + now; API.al_callback := callback |}])
    ∧ _automationSubscriptions (this w1)
      = _automationSubscriptions (this w)
        ++ [{| id := rnd + now; entityId := e |}]
    ∧ ∀ w2, destroy mqtt_unsubscribe w1 = (Normal tt, w2) →
        ∀ trigger, API.at_entity_id trigger = e →
          ∃ added,
            API._onAutomationTrigger trigger (api w2, journal w2)
            = (Normal tt, (api w2, journal w2 ++ added))
            ∧ called_automation_listeners added
              = filter
                  (λ j, j ∉ recorded (_automationSubscriptions (this w)) e
                              ++ [rnd + now])
                  (automation_listener_ids (api w) e)
            ∧ (rnd + now ∉ called_automation_listeners added).
Proof.
  unfold onAutomationTrigger, mbind, js_bind, bind, in_broker, zoom, modify.
  simpl.
  assert (Hreg :
    API._automationListeners
      (API.onAutomation e callback rnd now (api w)).2 !! e
    = Some (default [] (API._automationListeners (api w) !! e)
            ++ [{| API.al_id := rnd + now; API.al_callback := callback |}])).
  { unfold API.onAutomation.
    destruct (API._automationListeners (api w) !! e); simpl;
      by rewrite lookup_insert_eq. }
  assert (Hinfo : (API.onAutomation e callback rnd now (api w)).1
                  = {| id := rnd + now; entityId := e |}).
  { unfold API.onAutomation.
    by destruct (API._automationListeners (api w) !! e). }
  assert (Hstate :
    API._stateListeners (API.onAutomation e callback rnd now (api w)).2
    = API._stateListeners (api w)).
  { unfold API.onAutomation.
    by destruct (API._automationListeners (api w) !! e). }
  destruct (API.onAutomation e callback rnd now (api w)) as [info a1] eqn:Hon.
  simpl in *. subst info.
  eexists. split; [reflexivity|]. simpl.
  split; [exact Hreg|]. split; [done|].
  intros w2 Hdestroy trigger He.
  apply destroy_normal in Hdestroy
    as (q' & ars' & mq' & _ & -> & _). simpl.
  rewrite _onAutomationTrigger_eq. simpl.
  eexists. split; [reflexivity|].
  rewrite called_automation_listeners_trace.
  set (subs := _stateSubscriptions (this w)).
  set (subs' := _automationSubscriptions (this w) ++ _).
  destruct (clear_states_other subs a1) as [_ Hal].
  fold (automation_listener_ids
          (clear_automations subs' (clear_states subs a1))
          (API.at_entity_id trigger)).
  rewrite He, clear_automations_ids.
  unfold subs'. rewrite recorded_app. simpl.
  rewrite decide_True by done.
  unfold automation_listener_ids at 1. rewrite Hal, Hreg. simpl.
  rewrite fmap_app, filter_app. simpl.
  rewrite filter_cons_False, filter_nil, app_nil_r.
  2:{ intros H. apply H. rewrite elem_of_app, list_elem_of_singleton.
      by right. }
  split; [done|].
  intros [Hn _]%list_elem_of_filter. apply Hn.
  rewrite elem_of_app, list_elem_of_singleton. by right.
Qed.

End Release.

(** ** Loading and unloading the modules *)

Section Strings.

Import Loader.

Implicit Types (a b s : string).

Lemma ends_with_suffix suffix s :
  ends_with suffix s = true ↔ ∃ stem, s = stem +:+ suffix.
Proof.
  induction s as [|c s IH]; simpl.
  - destruct (decide ("" = suffix)) as [<-|Hne].
    + split; [by exists ""|done].
    + split; [done|]. intros ([|c stem] & Heq).
      * by rewrite app_empty_l in Heq.
      * by rewrite app_cons in Heq.
  - destruct (decide (String c s = suffix)) as [<-|Hne].
    + split; [by exists ""|done].
    + rewrite IH. split.
      * intros (stem & ->). exists (String c stem). by rewrite app_cons.
      * intros ([|c' stem] & Heq).
        -- by rewrite app_empty_l in Heq.
        -- rewrite app_cons in Heq. injection Heq as -> ->. by exists stem.
Qed.

Lemma prefix_app part s :
  String.prefix part s = true ↔ ∃ rest, s = part +:+ rest.
Proof.
  revert s. induction part as [|c part IH]; intros s; simpl.
  - destruct s; simpl; (split; [by eexists|done]).
  - destruct s as [|c' s]; simpl.
    + split; [done|]. intros (rest & Heq). by rewrite app_cons in Heq.
    + destruct (Ascii.ascii_dec c c') as [->|Hne].
      * rewrite IH. split.
        -- intros (rest & ->). exists rest. by rewrite app_cons.
        -- intros (rest & Heq). rewrite app_cons in Heq.
           injection Heq as ->. by exists rest.
      * split; [done|]. intros (rest & Heq). rewrite app_cons in Heq.
        injection Heq as -> _. done.
Qed.

Lemma includes_unfold part s :
  includes part s
  = if String.prefix part s then true
    else match s with
         | EmptyString => false
         | String _ rest => includes part rest
         end.
Proof. by destruct s. Qed.

Lemma includes_part part s :
  includes part s = true ↔ ∃ a b, s = a +:+ part +:+ b.
Proof.
  induction s as [|c s IH]; rewrite includes_unfold.
  - destruct (String.prefix part "") eqn:Hp.
    + split; [|done]. intros _. apply prefix_app in Hp as (rest & Heq).
      by exists "", rest.
    + split; [done|]. intros ([|c a] & b & Heq).
      * rewrite app_empty_l in Heq.
        assert (String.prefix part "" = true) as Hp'; [|congruence].
        apply prefix_app. by exists b.
      * by rewrite app_cons in Heq.
  - destruct (String.prefix part (String c s)) eqn:Hp.
    + split; [|done]. intros _. apply prefix_app in Hp as (rest & Heq).
      by exists "", rest.
    + rewrite IH. split.
      * intros (a & b & ->). exists (String c a), b. by rewrite app_cons.
      * intros ([|c' a] & b & Heq).
        -- rewrite app_empty_l in Heq.
           assert (String.prefix part (String c s) = true) as Hp';
             [|congruence].
           apply prefix_app. by exists b.
        -- rewrite app_cons in Heq. injection Heq as -> ->. by exists a, b.
Qed.

End Strings.

Section Maps.

Import Loader.

Context {V : Type}.
Implicit Types (m : list (string * V)).

Lemma filter_replaced_other key key' (v : V) m :
  key' ≠ key →
  filter (λ kv : string * V, kv.1 = key')
    ((λ kv, if decide (kv.1 = key) then (key, v) else kv) <$> m)
  = filter (λ kv : string * V, kv.1 = key') m.
Proof.
  intros Hne. induction m as [|[k x] m IH]; [done|].
  rewrite fmap_cons, !filter_cons, IH. simpl.
  destruct (decide (k = key)) as [->|Hk]; simpl; [|done].
  by rewrite !decide_False by done.
Qed.

Lemma head_filter_replaced key (v : V) m :
  key ∈ m.*1 →
  head (filter (λ kv : string * V, kv.1 = key)
          ((λ kv, if decide (kv.1 = key) then (key, v) else kv) <$> m))
  = Some (key, v).
Proof.
  induction m as [|[k x] m IH]; [by intros ?%elem_of_nil|].
  rewrite !fmap_cons, filter_cons. simpl.
  destruct (decide (k = key)) as [->|Hk]; simpl.
  - by rewrite decide_True.
  - rewrite decide_False by done.
    intros [?|Hin]%elem_of_cons; [congruence|]. by apply IH.
Qed.

Lemma filter_absent_key key m :
  key ∉ m.*1 → filter (λ kv : string * V, kv.1 = key) m = [].
Proof.
  induction m as [|[k x] m IH]; [done|].
  rewrite fmap_cons, not_elem_of_cons. simpl. intros [Hk Hm].
  rewrite filter_cons_False by (simpl; congruence). by apply IH.
Qed.

Lemma Map_get_set key key' (v : V) m :
  Map_get key' (Map_set key v m)
  = if decide (key' = key) then Some v else Map_get key' m.
Proof.
  unfold Map_get, Map_set.
  destruct (decide (key ∈ m.*1)) as [Hin|Hnotin];
    destruct (decide (key' = key)) as [->|Hne].
  - by rewrite head_filter_replaced.
  - by rewrite filter_replaced_other.
  - rewrite filter_app, filter_absent_key by done.
    by rewrite filter_cons_True.
  - rewrite filter_app, filter_cons_False, filter_nil, app_nil_r; [done|].
    simpl. congruence.
Qed.

Lemma Map_get_delete key key' m :
  Map_get key' (Map_delete key m)
  = if decide (key' = key) then None else Map_get key' m.
Proof.
  unfold Map_get, Map_delete. rewrite list_filter_filter.
  destruct (decide (key' = key)) as [->|Hne].
  - assert (Hnone : filter (λ kv : string * V, kv.1 = key ∧ kv.1 ≠ key) m
                    = []).
    { induction m as [|kv m IH]; [done|].
      rewrite filter_cons_False by tauto. done. }
    by rewrite Hnone.
  - do 2 f_equal. apply list_filter_iff. intros kv. split; [tauto|].
    intros Heq. split; [done|]. congruence.
Qed.

Lemma Map_delete_all m :
  foldl (λ m' kv, Map_delete kv.1 m') m m = [].
Proof.
  assert (Hgen : ∀ xs m0, (∀ kv, kv ∈ m0 → kv.1 ∈ xs.*1) →
    foldl (λ m' (kv : string * V), Map_delete kv.1 m') m0 xs = []).
  { induction xs as [|x xs IH]; intros m0 Hkeys; simpl.
    - destruct m0 as [|kv m0]; [done|].
      specialize (Hkeys kv ltac:(by left)). by apply elem_of_nil in Hkeys.
    - apply IH. intros kv [Hne Hkv]%list_elem_of_filter.
      specialize (Hkeys kv Hkv). rewrite fmap_cons in Hkeys.
      apply elem_of_cons in Hkeys as [Heq|Hin]; [done|done]. }
  apply Hgen. intros kv Hkv. by apply list_elem_of_fmap_2.
Qed.

End Maps.

Section Loading.

Import Loader.

Context {Host Instance : Type}.
Variable uncache : string → js Host unit.
Variable construct : string → js Host Instance.
Variable destroy : Instance → js Host unit.
Variable Logger_error : error → js Host unit.

Implicit Types (s : Loader.t Host Instance).

Hypothesis Logger_returns : ∀ e h, (Logger_error e h).1 = Normal tt.

Lemma loadAutomation_eq (filename : string) s :
  _loadAutomation construct Logger_error filename s
  = (Normal tt,
     match construct filename (host s) with
     | (Normal c, h) =>
         {| _automations := Map_set filename c (_automations s); host := h |}
     | (Abrupt e, h) => set_host (Logger_error e h).2 s
     end).
Proof.
  unfold _loadAutomation, try_catch, mbind, js_bind, bind, in_host, zoom,
    modify.
  destruct (construct filename (host s)) as [[c|e] h]; simpl; [done|].
  specialize (Logger_returns e h).
  destruct (Logger_error e h) as [r h']; simpl in *. by subst r.
Qed.

Lemma unload_loop (xs : list (string * Instance)) :
  ∀ s,
    for_of xs (λ automation,
      _ ← try_catch (in_host (destroy automation.2))
                    (λ e, in_host (Logger_error e));
      modify (set_automations (Map_delete automation.1))) s
    = (Normal tt,
       {| _automations :=
            foldl (λ m kv, Map_delete kv.1 m) (_automations s) xs;
          host := (for_of xs (λ automation,
                     try_catch (destroy automation.2) Logger_error)
                     (host s)).2 |}).
Proof.
  induction xs as [|[f c] xs IH]; intros s; simpl.
  - unfold ret. by destruct s.
  - unfold mbind, js_bind, bind, try_catch, in_host, zoom, modify. simpl.
    destruct (destroy c (host s)) as [[[]|e] h]; simpl.
    + by rewrite IH.
    + specialize (Logger_returns e h).
      destruct (Logger_error e h) as [r h']; simpl in *. subst r.
      simpl. by rewrite IH.
Qed.

(** X20: [_unload] calls [destroy] on every loaded automation, once and in the
    order of loading, logs the error of each one that throws and goes on
    with the next, and leaves no automation registered. *)
Theorem unload_destroys_every_automation_and_empties_the_registry s :
  _unload destroy Logger_error s
  = (Normal tt,
     {| _automations := [];
        host := (for_of (_automations s) (λ automation,
                   try_catch (destroy automation.2) Logger_error)
                   (host s)).2 |}).
Proof.
  unfold _unload, mbind, js_bind, bind, gets. simpl.
  by rewrite unload_loop, Map_delete_all.
Qed.

Lemma modifiedFile_eq (ev filename : string) s :
  skipped filename = false →
  _modifiedFile uncache construct destroy Logger_error ev filename s
  = match uncache filename (host s) with
    | (Abrupt e, h1) => (Abrupt e, set_host h1 s)
    | (Normal _, h1) =>
        match Map_get filename (_automations s) with
        | Some c =>
            match destroy c h1 with
            | (Abrupt e, h2) => (Abrupt e, set_host h2 s)
            | (Normal _, h2) =>
                let s2 := {| _automations :=
                               Map_delete filename (_automations s);
                             host := h2 |} in
                if loads ev
                then _loadAutomation construct Logger_error filename s2
                else (Normal tt, s2)
            end
        | None =>
            if loads ev
            then _loadAutomation construct Logger_error filename
                   (set_host h1 s)
            else (Normal tt, set_host h1 s)
        end
    end.
Proof.
  intros Heligible. unfold _modifiedFile. rewrite Heligible.
  unfold mbind at 1, js_bind at 1, bind at 1, in_host at 1, zoom at 1.
  destruct (uncache filename (host s)) as [[[]|e] h1]; [|done].
  unfold mbind at 1, js_bind at 1, bind at 1, gets. simpl.
  destruct (Map_get filename (_automations s)) as [c|].
  - unfold mbind, js_bind, bind, in_host, zoom, modify. simpl.
    destruct (destroy c h1) as [[[]|e] h2]; simpl; [|done].
    destruct (loads ev); [|done].
    unfold try_catch at 1. rewrite !loadAutomation_eq. reflexivity.
  - unfold mbind, js_bind, bind. simpl.
    destruct (loads ev); [|done].
    unfold try_catch at 1. rewrite !loadAutomation_eq. reflexivity.
Qed.

(** X21: A file that the watcher reports as changed or added has its loaded
    automation, if any, destroyed and unregistered, and then a new one
    constructed and registered; when the construction throws, the error is
    logged and the file is left without an automation. A file reported as
    removed has its automation destroyed and unregistered. The automations
    of other files stay registered as they were. This holds when the
    module cache entry can be dropped and the old automation's [destroy]
    returns. *)
Theorem watched_change_replaces_the_automation_of_the_file
    (ev : watched) (filename : string) s (h1 : Host) :
  skipped filename = false →
  uncache filename (host s) = (Normal tt, h1) →
  (∀ c, Map_get filename (_automations s) = Some c →
        (destroy c h1).1 = Normal tt) →
  let h2 := match Map_get filename (_automations s) with
            | Some c => (destroy c h1).2
            | None => h1
            end in
  ∃ s',
    on_watched uncache construct destroy Logger_error ev filename s
    = (Normal tt, s')
    ∧ (∀ other, other ≠ filename →
         Map_get other (_automations s') = Map_get other (_automations s))
    ∧ match ev with
      | Unlink => Map_get filename (_automations s') = None ∧ host s' = h2
      | _ =>
          match construct filename h2 with
          | (Normal c', h3) =>
              Map_get filename (_automations s') = Some c' ∧ host s' = h3
          | (Abrupt e, h3) =>
              Map_get filename (_automations s') = None
              ∧ host s' = (Logger_error e h3).2
          end
      end.
Proof.
  intros Heligible Huncache Hdestroy h2.
  assert (Hrun : ∀ e : string,
    _modifiedFile uncache construct destroy Logger_error e filename s
    = let s2 := {| _automations := Map_delete filename (_automations s);
                   host := h2 |} in
      if loads e
      then _loadAutomation construct Logger_error filename s2
      else (Normal tt, s2)).
  { intros e. rewrite modifiedFile_eq, Huncache by done. subst h2.
    destruct (Map_get filename (_automations s)) as [c|] eqn:Hc.
    - specialize (Hdestroy c eq_refl).
      destruct (destroy c h1) as [[[]|e'] h]; [done|done].
    - assert (Hsame : Map_delete filename (_automations s) = _automations s).
      { unfold Map_delete. apply filter_keeps_every. intros kv Hkv Heq.
        unfold Map_get in Hc.
        destruct (filter (λ kv, kv.1 = filename) (_automations s))
          as [|kv' l] eqn:Hf; [|done].
        assert (Hin : kv ∈ filter (λ kv, kv.1 = filename) (_automations s))
          by by apply list_elem_of_filter.
        rewrite Hf in Hin. by apply elem_of_nil in Hin. }
      rewrite Hsame. by destruct s. }
  assert (Hloaded : ∀ e : string, loads e = true →
    ∃ s', _modifiedFile uncache construct destroy Logger_error e filename s
          = (Normal tt, s')
      ∧ (∀ other, other ≠ filename →
           Map_get other (_automations s') = Map_get other (_automations s))
      ∧ match construct filename h2 with
        | (Normal c', h3) =>
            Map_get filename (_automations s') = Some c' ∧ host s' = h3
        | (Abrupt e, h3) =>
            Map_get filename (_automations s') = None
            ∧ host s' = (Logger_error e h3).2
        end).
  { intros e He. rewrite Hrun. simpl. rewrite He, loadAutomation_eq. simpl.
    eexists. split; [reflexivity|].
    destruct (construct filename h2) as [[c'|e'] h3]; simpl.
    - split.
      + intros other Hother.
        by rewrite Map_get_set, decide_False, Map_get_delete, decide_False.
      + split; [|done]. by rewrite Map_get_set, decide_True.
    - split.
      + intros other Hother. by rewrite Map_get_delete, decide_False.
      + split; [|done]. by rewrite Map_get_delete, decide_True. }
  destruct ev; simpl.
  - by apply Hloaded.
  - by apply Hloaded.
  - rewrite Hrun. simpl.
    replace (loads "remove") with false by (by vm_compute).
    eexists. split; [reflexivity|]. simpl. split.
    + intros other Hother. by rewrite Map_get_delete, decide_False.
    + split; [|done]. by rewrite Map_get_delete, decide_True.
Qed.

End Loading.

Section Loading_abandoned.

Import Loader.

Context {Host Instance : Type}.
Variable uncache : string → js Host unit.
Variable construct : string → js Host Instance.
Variable destroy : Instance → js Host unit.
Variable Logger_error : error → js Host unit.

Implicit Types (s : Loader.t Host Instance).

(** X22: Outside its last step [_modifiedFile] catches nothing. When dropping
    the module cache entry throws, nothing else is done. When the
    [destroy] of the loaded automation throws, that automation stays
    registered and no new one is constructed. Either way the error goes
    to the watcher. *)
Theorem change_is_abandoned_when_the_old_automation_cannot_be_destroyed
    (ev : watched) (filename : string) s :
  skipped filename = false →
  (∀ e h1,
     uncache filename (host s) = (Abrupt e, h1) →
     on_watched uncache construct destroy Logger_error ev filename s
     = (Abrupt e, set_host h1 s))
  ∧ (∀ h1 c e h2,
       uncache filename (host s) = (Normal tt, h1) →
       Map_get filename (_automations s) = Some c →
       destroy c h1 = (Abrupt e, h2) →
       on_watched uncache construct destroy Logger_error ev filename s
       = (Abrupt e, set_host h2 s)).
Proof.
  intros Heligible.
  assert (Hev : ∃ e : string,
    on_watched uncache construct destroy Logger_error ev filename s
    = _modifiedFile uncache construct destroy Logger_error e filename s).
  { destruct ev; by eexists. }
  destruct Hev as [e0 ->]. unfold _modifiedFile. rewrite Heligible.
  split.
  - intros e h1 Huncache.
    unfold mbind at 1, js_bind at 1, bind at 1, in_host at 1, zoom at 1.
    by rewrite Huncache.
  - intros h1 c e h2 Huncache Hc Hdestroy.
    unfold mbind at 1, js_bind at 1, bind at 1, in_host at 1, zoom at 1.
    rewrite Huncache.
    unfold mbind at 1, js_bind at 1, bind at 1, gets. simpl. rewrite Hc.
    unfold mbind, js_bind, bind, in_host, zoom. simpl.
    by rewrite Hdestroy.
Qed.

(** X23: The files the loader passes over: those whose name does not end in
    [.ts] and those with a [/lib/] or [/.lib/] in their path. For them no
    watcher event does anything. *)
Theorem files_that_are_no_automations_are_passed_over (filename : string) :
  (skipped filename = true
   ↔ ¬ (∃ stem, filename = stem +:+ ".ts")
     ∨ (∃ a b, filename = a +:+ "/lib/" +:+ b)
     ∨ (∃ a b, filename = a +:+ "/.lib/" +:+ b))
  ∧ (skipped filename = true →
     ∀ ev s,
       on_watched uncache construct destroy Logger_error ev filename s
       = (Normal tt, s)).
Proof.
  split.
  - unfold skipped.
    rewrite !orb_true_iff, negb_true_iff, <- not_true_iff_false.
    by rewrite ends_with_suffix, !includes_part.
  - intros Hskipped ev s. destruct ev; simpl; unfold _modifiedFile;
      by rewrite Hskipped.
Qed.

End Loading_abandoned.

(** ** The shipped modules *)

Section Power_button.

Import Automation Expected Modules.

Context {Mqtt : Type}.
Implicit Types (w : world Mqtt).

Variable connection :
  string → string → gmap string value → completion value.

Lemma all_cached (cache : gmap string IState) (lights : list string) :
  (∀ light, light ∈ lights → is_Some (cache !! light)) →
  ∃ entityStates,
    all ((λ light,
            API.getState light
              {| API._states := cache; API._stateListeners := ∅;
                 API._automationListeners := ∅ |}) <$> lights)
    = Normal entityStates
    ∧ Some <$> entityStates = (λ light, cache !! light) <$> lights.
Proof.
  induction lights as [|light lights IH]; intros Hall.
  - by exists [].
  - destruct IH as (entityStates & Heq & Hstates).
    { intros l Hl. apply Hall. by right. }
    destruct (Hall light ltac:(by left)) as [s Hs].
    exists (s :: entityStates). rewrite !fmap_cons. simpl.
    unfold API.getState at 1. simpl. rewrite Hs, Heq.
    split; [done|]. by rewrite Hstates.
Qed.

Lemma getState_cache (light : string) (a : API.t) :
  API.getState light a
  = API.getState light
      {| API._states := API._states a; API._stateListeners := ∅;
         API._automationListeners := ∅ |}.
Proof. done. Qed.

Lemma all_first_missing (a : API.t) (before : list string) (light : string)
    (after : list string) :
  (∀ l, l ∈ before → is_Some (API._states a !! l)) →
  API._states a !! light = None →
  all ((λ light, API.getState light a) <$> before ++ light :: after)
  = Abrupt (light +:+ " state not available").
Proof.
  intros Hbefore Hlight.
  induction before as [|l before IH].
  - rewrite app_nil_l, fmap_cons. simpl.
    unfold API.getState. by rewrite Hlight.
  - rewrite <- app_comm_cons, fmap_cons. simpl.
    destruct (Hbefore l ltac:(by left)) as [s Hs].
    unfold API.getState at 1. rewrite Hs.
    rewrite IH; [done|]. intros l' Hl'. apply Hbefore. by right.
Qed.

Lemma switch_light (service light : string) w :
  light ≠ "" →
  ∃ j,
    forget (in_broker (API.callService connection "light" service
                         (Some light) (Truthy ∅))) w
    = (Normal tt, set_broker (api w, j) w)
    ∧ service_calls j
      = service_calls (journal w)
        ++ [("light", service,
             ({[ "entity_id" := VStr light ]} : gmap string value))].
Proof.
  intros Hlight.
  unfold forget, in_broker, zoom, API.callService, mbind, js_bind, bind,
    API.log, modify. simpl.
  assert (Hopt : API.callService_options (Some light) (Truthy ∅)
                 = {[ "entity_id" := VStr light ]}).
  { unfold API.callService_options. simpl.
    rewrite bool_decide_eq_false_2 by done.
    by rewrite (left_id_L ∅ (∪)). }
  rewrite Hopt.
  destruct (connection "light" service _) as [v|e]; simpl;
    (eexists; split; [reflexivity|]);
    unfold service_calls; rewrite !omap_app; simpl;
    by rewrite ?app_nil_r.
Qed.

Lemma switch_lights (service : string) (lights : list string) :
  "" ∉ lights →
  ∀ w, ∃ j,
    for_of lights (λ light,
      forget (in_broker (API.callService connection "light" service
                           (Some light) (Truthy ∅)))) w
    = (Normal tt, set_broker (api w, j) w)
    ∧ service_calls j
      = service_calls (journal w)
        ++ ((λ light, ("light", service,
                       ({[ "entity_id" := VStr light ]}
                          : gmap string value))) <$> lights).
Proof.
  induction lights as [|light lights IH]; intros Hne w.
  - exists (journal w). simpl. rewrite app_nil_r. by destruct w.
  - apply not_elem_of_cons in Hne as [Hlight Hne].
    simpl. unfold bind at 1.
    destruct (switch_light service light w) as (j1 & -> & Hj1); [done|].
    destruct (IH Hne (set_broker (api w, j1) w)) as (j & -> & Hj).
    exists j. split; [done|]. rewrite Hj. simpl. rewrite Hj1.
    by rewrite <- app_assoc.
Qed.

(** X24: The power button: when the state of every light is cached, all the
    lights are turned on if one of them is off and all are turned off
    otherwise, one request for each light in order; when the state of a
    light is not cached, nothing is sent and the handler's promise is
    rejected with the error of the first such light. *)
Theorem power_button_turns_all_lights_on_when_one_is_off
    (lights : list string) w :
  "" ∉ lights →
  (∀ entityStates,
     Some <$> entityStates
     = (λ light, API._states (api w) !! light) <$> lights →
     ∃ w',
       onPowerButtonToggle connection lights w = (Normal (Normal tt), w')
       ∧ service_calls (journal w')
         = service_calls (journal w)
           ++ ((λ light,
                  ("light",
                   if bool_decide ("off" ∈ state <$> entityStates)
                   then "turn_on" else "turn_off",
                   ({[ "entity_id" := VStr light ]} : gmap string value)))
               <$> lights)
       ∧ api w' = api w ∧ this w' = this w ∧ timers w' = timers w)
  ∧ (∀ before light after,
       lights = before ++ light :: after →
       (∀ l, l ∈ before → is_Some (API._states (api w) !! l)) →
       API._states (api w) !! light = None →
       onPowerButtonToggle connection lights w
       = (Normal (Abrupt (light +:+ " state not available")), w)).
Proof.
  intros Hne. split.
  - intros entityStates Hstates.
    unfold onPowerButtonToggle, mbind, js_bind, bind, gets. simpl.
    destruct (all_cached (API._states (api w)) lights)
      as (found & Hall & Hfound).
    { intros light Hlight.
      assert (Hin : API._states (api w) !! light
                    ∈ (λ light, API._states (api w) !! light) <$> lights)
        by by apply (list_elem_of_fmap_2
                       (λ light, API._states (api w) !! light)).
      rewrite <- Hstates in Hin.
      apply list_elem_of_fmap in Hin as (s & -> & _). by eexists. }
    assert (found = entityStates) as ->.
    { apply (inj (fmap Some)). by rewrite Hfound, Hstates. }
    erewrite list_fmap_ext; [rewrite Hall|].
    2:{ intros i light _. apply getState_cache. }
    unfold lightTurnOn, lightTurnOff.
    destruct (bool_decide ("off" ∈ state <$> entityStates)).
    + destruct (switch_lights "turn_on" lights Hne w) as (j & -> & Hj).
      eexists. split; [reflexivity|]. by simpl.
    + destruct (switch_lights "turn_off" lights Hne w) as (j & -> & Hj).
      eexists. split; [reflexivity|]. by simpl.
  - intros before light after -> Hbefore Hlight.
    unfold onPowerButtonToggle, mbind, js_bind, bind, gets. simpl.
    by rewrite all_first_missing.
Qed.

End Power_button.

Section Litter_box.

Import Automation Expected Modules.

Context {Mqtt : Type}.

Variable connection :
  string → string → gmap string value → completion value.
Variable persistent_tag : value.
Variable tag : value.

Implicit Types (w : world Mqtt) (s : LitterBox Mqtt).

Lemma notify_options (props : gmap string value) :
  props !! "entity_id" = None →
  API.callService_options None (Truthy props) = props.
Proof.
  intros Hnone. unfold API.callService_options. simpl.
  rewrite delete_union, delete_singleton_eq, (right_id_L ∅ (∪)).
  by apply delete_id.
Qed.

Lemma notify_device (device : string) (props : gmap string value) w :
  props !! "entity_id" = None →
  ∃ j,
    forget (callService connection "notify" device None (Truthy props)) w
    = (Normal tt, set_broker (api w, j) w)
    ∧ service_calls j
      = service_calls (journal w) ++ [("notify", device, props)].
Proof.
  intros Hnone.
  unfold forget, callService, in_broker, zoom, API.callService, mbind,
    js_bind, bind, API.log, modify. simpl.
  rewrite notify_options by done.
  destruct (connection "notify" device _) as [v|e]; simpl;
    (eexists; split; [reflexivity|]);
    unfold service_calls; rewrite !omap_app; simpl;
    by rewrite ?app_nil_r.
Qed.

Lemma notify_both (props : gmap string value) w :
  props !! "entity_id" = None →
  ∃ j,
    for_of [declansPhone; lynnsPhone] (λ device,
      forget (callService connection "notify" device None (Truthy props))) w
    = (Normal tt, set_broker (api w, j) w)
    ∧ service_calls j
      = service_calls (journal w)
        ++ [("notify", declansPhone, props); ("notify", lynnsPhone, props)].
Proof.
  intros Hnone. simpl. unfold bind.
  destruct (notify_device declansPhone props w Hnone) as (j1 & -> & Hj1).
  destruct (notify_device lynnsPhone props (set_broker (api w, j1) w) Hnone)
    as (j2 & -> & Hj2).
  exists j2. split; [done|]. rewrite Hj2. simpl. rewrite Hj1.
  by rewrite <- app_assoc.
Qed.

(** X25: The reminder of [LitterBox]. A change that finds the litter box on
    sends the notification to both phones and starts an interval with the
    host's own [setInterval]: the module remembers its handle, in place of
    the one it remembered before, whose interval goes on; the handle is in
    neither tracking list, so that the interval is still live after
    [destroy], however [destroy] ends. A change that finds the litter box
    in another state sends the clearing notification and ends the
    remembered interval only. A change that finds no cached state sends
    nothing and the handler's promise is rejected. *)
Theorem litter_box_reminder_is_not_tracked_by_the_module s :
  let n := next_timer (base s) in
  let cached := API._states (api (base s)) !! litterBoxBoolean in
  (∀ litterBox,
     cached = Some litterBox → state litterBox = "on" →
     ∃ s',
       onLitterBoxChange connection persistent_tag tag s
       = (Normal (Normal tt), s')
       ∧ reminderHandle s' = Some n
       ∧ timers (base s') = {[n]} ∪ timers (base s)
       ∧ this (base s') = this (base s)
       ∧ service_calls (journal (base s'))
         = service_calls (journal (base s))
           ++ (let options : gmap string value :=
                 {[ "title" := VStr "Litter box";
                    "message" := VStr "Litter box needs to be cleaned";
                    "data" := persistent_tag ]} in
               [("notify", declansPhone, options);
                ("notify", lynnsPhone, options)])
       ∧ (∀ h, reminderHandle s = Some h →
               h ∈ timers (base s) → h ∈ timers (base s'))
       ∧ (∀ mqtt_unsubscribe : string → Z → js Mqtt unit,
            n ∉ _timeouts (this (base s)) →
            n ∉ _intervals (this (base s)) →
            n ∈ timers (destroy mqtt_unsubscribe (base s')).2))
  ∧ (∀ litterBox,
       cached = Some litterBox → state litterBox ≠ "on" →
       ∃ s',
         onLitterBoxChange connection persistent_tag tag s
         = (Normal (Normal tt), s')
         ∧ reminderHandle s' = reminderHandle s
         ∧ timers (base s')
           = match reminderHandle s with
             | Some h => timers (base s) ∖ {[h]}
             | None => timers (base s)
             end
         ∧ this (base s') = this (base s)
         ∧ service_calls (journal (base s'))
           = service_calls (journal (base s))
             ++ (let options : gmap string value :=
                   {[ "message" := VStr "clear_notification";
                      "data" := tag ]} in
                 [("notify", declansPhone, options);
                  ("notify", lynnsPhone, options)]))
  ∧ (cached = None →
     onLitterBoxChange connection persistent_tag tag s
     = (Normal (Abrupt (litterBoxBoolean +:+ " state not available")), s)).
Proof.
  intros n cached. subst cached.
  split; [|split].
  - intros litterBox Hcached Hon.
    unfold onLitterBoxChange.
    unfold mbind at 1, js_bind at 1, bind at 1, in_base at 1, zoom at 1,
      getState, gets, API.getState.
    rewrite Hcached. simpl. rewrite decide_True by done.
    unfold mbind, js_bind, bind at 1 2. unfold in_base at 1, zoom at 1.
    unfold sendPersistentNotification.
    destruct (notify_both
                {[ "title" := VStr "Litter box";
                   "message" := VStr "Litter box needs to be cleaned";
                   "data" := persistent_tag ]} (base s))
      as (j & Hrun & Hj).
    { by rewrite !lookup_insert_ne, lookup_singleton_ne. }
    simpl in Hrun. change (base (set_base (base s) s)) with (base s).
    rewrite Hrun.
    simpl. eexists. split; [reflexivity|]. simpl.
    split; [done|]. split; [done|]. split; [by destruct (base s)|].
    split; [exact Hj|]. split.
    + intros h _ Hlive. by apply elem_of_union_r.
    + intros mqtt_unsubscribe Hto Hiv. rewrite destroy_timers. simpl.
      rewrite !elem_of_difference, elem_of_union, elem_of_singleton,
        !elem_of_list_to_set.
      split; [split; [by left|]|]; by destruct (base s) as [? ? ? ? ? ? []].
  - intros litterBox Hcached Hoff.
    unfold onLitterBoxChange.
    unfold mbind at 1, js_bind at 1, bind at 1, in_base at 1, zoom at 1,
      getState, gets, API.getState.
    rewrite Hcached. simpl. rewrite decide_False by done.
    unfold mbind, js_bind, bind at 1 2. unfold in_base at 1, zoom at 1.
    unfold clearPersistentNotification.
    destruct (notify_both
                {[ "message" := VStr "clear_notification"; "data" := tag ]}
                (base s))
      as (j & Hrun & Hj).
    { by rewrite lookup_insert_ne, lookup_singleton_ne. }
    simpl in Hrun. change (base (set_base (base s) s)) with (base s).
    rewrite Hrun.
    simpl. unfold bind, gets. simpl.
    destruct (reminderHandle s) as [h|] eqn:Hh; simpl;
      (eexists; split; [reflexivity|]); simpl;
      (split; [done|]); (split; [done|]);
      (split; [by destruct (base s)|]); exact Hj.
  - intros Hcached.
    unfold onLitterBoxChange.
    unfold mbind at 1, js_bind at 1, bind at 1, in_base at 1, zoom at 1,
      getState, gets, API.getState.
    rewrite Hcached. simpl. unfold mret, js_ret, ret.
    by destruct s as [[] ?].
Qed.

End Litter_box.

(** ** The properties above at concrete brokers and modules *)

Section More_witnesses.

Import Automation Expected Scenario.

Lemma small_broker_no_empty_array : no_empty_array small_broker.
Proof.
  split; intros e; simpl.
  - destruct (decide (e = "light.hall")) as [->|Hne].
    + by rewrite lookup_singleton_eq.
    + by rewrite lookup_singleton_ne.
  - destruct (decide (e = "automation.door")) as [->|Hne].
    + by rewrite lookup_singleton_eq.
    + by rewrite lookup_singleton_ne.
Qed.

Lemma subscribing_then_unsubscribing_restores_the_broker_witness :
  let r := OnState "light.hall" quiet in
  let subscribed := register r 7 1714557600000 small_broker in
  no_empty_array small_broker
  ∧ (7 + 1714557600000 ∉ registered_ids r small_broker)
  ∧ registered_ids r subscribed.2 = [5; 1714557600007]
  ∧ unregister r subscribed.1 subscribed.2 = small_broker.
Proof.
  intros r subscribed.
  assert (Hfresh : 7 + 1714557600000 ∉ registered_ids r small_broker).
  { apply (bool_decide_unpack _). vm_compute. exact I. }
  split; [exact small_broker_no_empty_array|]. split; [exact Hfresh|].
  destruct (subscribing_then_unsubscribing_restores_the_broker
              r 7 1714557600000 small_broker) as (Hids & _ & Hback).
  split; [exact Hids|].
  exact (Hback small_broker_no_empty_array Hfresh).
Defined.

Lemma registries_never_hold_an_empty_array_witness :
  let r := OnAutomation "automation.door" quiet_trigger in
  no_empty_array small_broker
  ∧ no_empty_array (register r 7 1714557600000 small_broker).2
  ∧ no_empty_array
      (unregister r {| id := 6; entityId := "automation.door" |}
         small_broker).
Proof.
  intros r.
  destruct (registries_never_hold_an_empty_array small_broker
              small_broker_no_empty_array) as (Hreg & Hunreg & _).
  split; [exact small_broker_no_empty_array|].
  split; [apply Hreg|apply Hunreg].
Defined.

Lemma runAt_queues_a_task_that_clearRunAt_takes_back_witness :
  (_queue (this fresh_module) < length (arrays fresh_module))%nat
  ∧ ∃ w1 w2,
      runAt target (λ _, Returned) 1714557600000 42 fresh_module
      = (Normal "1714557600000-42", w1)
      ∧ q_id <$> queued w1 = ["1714557600000-42"]
      ∧ clearRunAt "1714557600000-42" w1 = (Normal tt, w2)
      ∧ queued w2 = [].
Proof.
  assert (Hbuilt : (_queue (this fresh_module)
                    < length (arrays fresh_module))%nat).
  { vm_compute. lia. }
  split; [exact Hbuilt|].
  destruct (runAt_queues_a_task_that_clearRunAt_takes_back
              fresh_module target (λ _, Returned) 1714557600000 42 Hbuilt)
    as (w1 & w2 & Hrun & Hq1 & Hclear & Hq2 & _).
  exists w1, w2. split; [exact Hrun|].
  split; [by rewrite Hq1|]. split; [exact Hclear|]. by rewrite Hq2.
Defined.

Lemma tidy_module_has_no_pending_task :
  ∀ q j, q ∈ queued tidy_module → q_callback q j ≠ StillPending.
Proof.
  intros q j Hq. vm_compute in Hq.
  apply elem_of_cons in Hq as [->|Hq]; [discriminate|].
  apply elem_of_cons in Hq as [->|Hq]; [discriminate|].
  by apply elem_of_nil in Hq.
Qed.

Lemma cleared_task_is_not_called_by_later_polls_witness :
  (∀ q j, q ∈ queued tidy_module → q_callback q j ≠ StillPending)
  ∧ ∃ w1 w2,
      clearRunAt "1714557600000-42" tidy_module = (Normal tt, w1)
      ∧ q_id <$> queued w1 = ["1714557600000-43"]
      ∧ _checkQueue 1714557602000 w1 = (Normal Finished, w2)
      ∧ queue_calls (journal w2) = ["1714557600000-43"].
Proof.
  split; [exact tidy_module_has_no_pending_task|].
  destruct (cleared_task_is_not_called_by_later_polls
              tidy_module "1714557600000-42" 1714557602000
              tidy_module_has_no_pending_task)
    as (w1 & w2 & Hclear & Hq1 & _ & Hpoll & Hcalls & _).
  exists w1, w2. split; [exact Hclear|].
  split; [by rewrite Hq1|]. split; [exact Hpoll|].
  rewrite Hcalls, Hq1. reflexivity.
Defined.

Lemma task_ids_coincide_only_for_equal_clock_and_random_part_witness :
  (0 ≤ 1714557600000 ∧ 0 ≤ 42 ∧ 0 ≤ 43)
  ∧ ((runAt target (λ _, Returned) 1714557600000 42 fresh_module).1
     = (runAt None (λ _, StillPending) 1714557600000 43 tidy_module).1
     ↔ 1714557600000 = 1714557600000 ∧ 42 = 43).
Proof.
  split; [lia|].
  apply (task_ids_coincide_only_for_equal_clock_and_random_part
           fresh_module tidy_module target None (λ _, Returned)
           (λ _, StillPending) (λ _, Normal tt) (λ _, Normal tt)
           1714557600000 42 1714557600000 43); lia.
Defined.

Lemma poll_suspended_by_a_pending_task_leaves_the_queue_as_it_was_witness :
  queued slow_module = [] ++ slow_task :: []
  ∧ date_ge (Some 1714557602000) (q_date slow_task) = true
  ∧ ∃ w1,
      _checkQueue 1714557602000 slow_module
      = (Normal (Suspended {| f_now := 1714557602000; f_array := 0;
                              f_next := 1 |}), w1)
      ∧ queue_calls (journal w1) = ["1714557600000-42"]
      ∧ queued w1 = queued slow_module.
Proof.
  assert (Hq : queued slow_module = [] ++ slow_task :: []) by reflexivity.
  assert (Hdue : date_ge (Some 1714557602000) (q_date slow_task) = true)
    by reflexivity.
  split; [exact Hq|]. split; [exact Hdue|].
  destruct (poll_suspended_by_a_pending_task_leaves_the_queue_as_it_was
              slow_module 1714557602000 [] slow_task [] Hq)
    as (w1 & Hrun & Hcalls & Hsame & _).
  { intros q' j Hq'. by apply elem_of_nil in Hq'. }
  { exact Hdue. }
  { reflexivity. }
  exists w1. split; [exact Hrun|]. split; [exact Hcalls|exact Hsame].
Defined.

Lemma resumed_poll_visits_the_rest_of_the_array_it_iterated_witness :
  let f := {| f_now := 1714557602000; f_array := 0; f_next := 1 |} in
  let w := (_checkQueue 1714557602000 busy_module).2 in
  (_checkQueue 1714557602000 busy_module).1 = Normal (Suspended f)
  ∧ (∀ q j, q ∈ drop (f_next f) (default [] (arrays w !! f_array f)) →
            q_callback q j ≠ StillPending)
  ∧ ∃ w',
      _checkQueue_resume f (Abrupt "no answer") w = (Normal Finished, w')
      ∧ queue_calls (journal w')
        = ["1714557600000-42"; "1714557600000-43"]
      ∧ queued w' = [].
Proof.
  intros f w.
  assert (Hrest : ∀ q j,
    q ∈ drop (f_next f) (default [] (arrays w !! f_array f)) →
    q_callback q j ≠ StillPending).
  { intros q j Hq. vm_compute in Hq.
    apply elem_of_cons in Hq as [->|Hq]; [discriminate|].
    by apply elem_of_nil in Hq. }
  split; [reflexivity|]. split; [exact Hrest|].
  destruct (resumed_poll_visits_the_rest_of_the_array_it_iterated
              w f (Abrupt "no answer") Hrest)
    as (w' & Hrun & Hcalls & _ & Hq & _).
  exists w'. split; [exact Hrun|].
  split; [rewrite Hcalls; reflexivity|rewrite Hq; reflexivity].
Defined.

Lemma module_destroyed_after_construction_leaves_nothing_behind_witness :
  (next_timer blank ∉ timers blank)
  ∧ (S (next_timer blank) ∉ timers blank)
  ∧ ∃ w1 w2,
      constructor 30 blank = (Normal tt, w1)
      ∧ _intervals (this w1) = [0%nat; 1%nat]
      ∧ destroy quiet_unsubscribe w1 = (Normal tt, w2)
      ∧ timers w2 = timers blank
      ∧ _intervals (this w2) = [].
Proof.
  assert (H0 : next_timer blank ∉ timers blank) by apply not_elem_of_empty.
  assert (H1 : S (next_timer blank) ∉ timers blank)
    by apply not_elem_of_empty.
  split; [exact H0|]. split; [exact H1|].
  destruct (module_destroyed_after_construction_leaves_nothing_behind
              quiet_unsubscribe blank 30 H0 H1)
    as (w1 & w2 & Hc & Hiv & _ & _ & _ & _ & _ & Hd & Htm & _ & _ & _ & Hiv2).
  exists w1, w2. repeat split; assumption.
Defined.

Lemma mqttSubscribe_records_one_id_for_each_topic_witness :
  NoDup (_mqttSubscriptions (this fresh_module)).*1
  ∧ ∃ w',
      mqttSubscribe answering_subscribe "home/door" fresh_module
      = (Normal tt, w')
      ∧ NoDup (_mqttSubscriptions (this w')).*1
      ∧ journal w' = journal fresh_module
      ∧ ("home/door", 1) ∈ _mqttSubscriptions (this w').
Proof.
  assert (Hnodup : NoDup (_mqttSubscriptions (this fresh_module)).*1)
    by constructor.
  split; [exact Hnodup|].
  destruct (mqttSubscribe_records_one_id_for_each_topic
              answering_subscribe fresh_module "home/door" Hnodup)
    as (w' & Hrun & _ & Hnodup' & Hjournal & Hsubs).
  exists w'. split; [exact Hrun|]. split; [exact Hnodup'|].
  split; [exact Hjournal|]. apply Hsubs. by left.
Defined.

Lemma logger_returns :
  ∀ (e : error) (w : world unit), (Logger_error e w).1 = Normal tt.
Proof. reflexivity. Qed.

Lemma unload_destroys_every_automation_and_empties_the_registry_witness :
  (∀ (e : error) (w : world unit), (Logger_error e w).1 = Normal tt)
  ∧ ∃ s',
      Loader._unload destroy_module Logger_error (loaded colliding_module)
      = (Normal tt, s')
      ∧ Loader._automations s' = []
      ∧ journal (Loader.host s')
        = [LoggerError "Cannot read properties of undefined (reading 'id')"].
Proof.
  split; [exact logger_returns|].
  eexists. split.
  - exact (unload_destroys_every_automation_and_empties_the_registry
             destroy_module Logger_error logger_returns
             (loaded colliding_module)).
  - split; [reflexivity|]. vm_compute. reflexivity.
Defined.

Lemma watched_change_replaces_the_automation_of_the_file_witness :
  (∀ (e : error) (w : world unit), (Logger_error e w).1 = Normal tt)
  ∧ Loader.skipped door_file = false
  ∧ keep_cache door_file tidy_module = (Normal tt, tidy_module)
  ∧ (destroy_module 0 tidy_module).1 = Normal tt
  ∧ ∃ s',
      Loader.on_watched keep_cache construct_module destroy_module
        Logger_error Loader.Change door_file (loaded tidy_module)
      = (Normal tt, s')
      ∧ Loader.Map_get door_file (Loader._automations s') = Some 1%nat.
Proof.
  assert (Hfile : Loader.skipped door_file = false) by reflexivity.
  assert (Hcache : keep_cache door_file tidy_module = (Normal tt, tidy_module))
    by reflexivity.
  assert (Hdestroy : (destroy_module 0 tidy_module).1 = Normal tt)
    by (vm_compute; reflexivity).
  split; [exact logger_returns|]. split; [exact Hfile|].
  split; [exact Hcache|]. split; [exact Hdestroy|].
  destruct (watched_change_replaces_the_automation_of_the_file
              keep_cache construct_module destroy_module Logger_error
              logger_returns Loader.Change door_file (loaded tidy_module)
              tidy_module Hfile Hcache)
    as (s' & Hrun & _ & Hnew).
  { intros c [= <-]. exact Hdestroy. }
  exists s'. split; [exact Hrun|].
  simpl in Hnew. exact (proj1 Hnew).
Defined.

Lemma change_is_abandoned_when_the_old_automation_cannot_be_destroyed_witness :
  Loader.skipped door_file = false
  ∧ keep_cache door_file colliding_module = (Normal tt, colliding_module)
  ∧ Loader.Map_get door_file (Loader._automations (loaded colliding_module))
    = Some 0%nat
  ∧ (destroy_module 0 colliding_module).1
    = Abrupt "Cannot read properties of undefined (reading 'id')"
  ∧ Loader.on_watched keep_cache construct_module destroy_module
      Logger_error Loader.Change door_file (loaded colliding_module)
    = (Abrupt "Cannot read properties of undefined (reading 'id')",
       Loader.set_host (destroy_module 0 colliding_module).2
         (loaded colliding_module)).
Proof.
  assert (Hfile : Loader.skipped door_file = false) by reflexivity.
  assert (Hthrown : (destroy_module 0 colliding_module).1
                    = Abrupt
                        "Cannot read properties of undefined (reading 'id')")
    by (vm_compute; reflexivity).
  split; [exact Hfile|]. split; [reflexivity|]. split; [reflexivity|].
  split; [exact Hthrown|].
  apply (proj2 (change_is_abandoned_when_the_old_automation_cannot_be_destroyed
                  keep_cache construct_module destroy_module Logger_error
                  Loader.Change door_file (loaded colliding_module) Hfile)
           colliding_module 0%nat).
  - reflexivity.
  - reflexivity.
  - rewrite <- Hthrown. by destruct (destroy_module 0 colliding_module).
Defined.

Lemma power_button_turns_all_lights_on_when_one_is_off_witness :
  ("" ∉ Modules.TradfriRemote_lights)
  ∧ ∃ w',
      Modules.onPowerButtonToggle acknowledge Modules.TradfriRemote_lights
        desk_lights
      = (Normal (Normal tt), w')
      ∧ service_calls (journal w')
        = [("light", "turn_on",
            ({[ "entity_id" := VStr "light.lynneals_desk" ]}
               : gmap string value));
           ("light", "turn_on",
            ({[ "entity_id" := VStr "light.declans_desk" ]}
               : gmap string value))].
Proof.
  assert (Hnames : "" ∉ Modules.TradfriRemote_lights).
  { apply (bool_decide_unpack _). vm_compute. exact I. }
  split; [exact Hnames|].
  destruct (proj1 (power_button_turns_all_lights_on_when_one_is_off
                     acknowledge Modules.TradfriRemote_lights desk_lights
                     Hnames)
              [entity "light.lynneals_desk" "off";
               entity "light.declans_desk" "on"])
    as (w' & Hrun & Hcalls & _).
  { simpl. by rewrite lookup_insert_eq, lookup_insert_ne,
      lookup_singleton_eq. }
  exists w'. split; [exact Hrun|]. rewrite Hcalls. reflexivity.
Defined.

Lemma state_listener_of_a_destroyed_module_is_not_called_witness :
  ∃ w1 w2,
    onStateChange "light.hall" quiet 7 1714557600000 fresh_module
    = (Normal tt, w1)
    ∧ state_listener_ids (api w1) "light.hall" = [1714557600007]
    ∧ destroy quiet_unsubscribe w1 = (Normal tt, w2)
    ∧ ∃ a3 added,
        API._onStateChange
          {| API.sc_entity_id := "light.hall";
             API.new_state := Some (entity "light.hall" "on");
             API.old_state := None |}
          (api w2, journal w2)
        = (Normal tt, (a3, journal w2 ++ added))
        ∧ called_state_listeners added = [].
Proof.
  destruct (state_listener_of_a_destroyed_module_is_not_called
              quiet_unsubscribe fresh_module "light.hall" quiet 7
              1714557600000)
    as (w1 & Hrun & Hreg & _ & Hreleased).
  assert (Hdestroy : ∃ w2, destroy quiet_unsubscribe w1 = (Normal tt, w2)).
  { injection Hrun as <-. eexists. vm_compute. reflexivity. }
  destruct Hdestroy as (w2 & Hdestroy).
  destruct (Hreleased w2 Hdestroy "light.hall" (entity "light.hall" "on")
              None eq_refl)
    as (a3 & added & Hevent & Hcalls & _).
  exists w1, w2. split; [exact Hrun|].
  split; [unfold state_listener_ids; by rewrite Hreg|].
  split; [exact Hdestroy|].
  exists a3, added. split; [exact Hevent|]. by rewrite Hcalls.
Defined.

Lemma litter_box_reminder_is_not_tracked_by_the_module_witness :
  API._states (api (Modules.base litter_box_on))
    !! Modules.litterBoxBoolean
  = Some (entity Modules.litterBoxBoolean "on")
  ∧ (2%nat ∉ _timeouts (this (Modules.base litter_box_on)))
  ∧ (2%nat ∉ _intervals (this (Modules.base litter_box_on)))
  ∧ ∃ s',
      Modules.onLitterBoxChange acknowledge (VRef 1) (VRef 2) litter_box_on
      = (Normal (Normal tt), s')
      ∧ Modules.reminderHandle s' = Some 2%nat
      ∧ _intervals (this (Modules.base s')) = [0%nat; 1%nat]
      ∧ 2%nat ∈ timers (destroy quiet_unsubscribe (Modules.base s')).2.
Proof.
  assert (Hcached :
    API._states (api (Modules.base litter_box_on))
      !! Modules.litterBoxBoolean
    = Some (entity Modules.litterBoxBoolean "on"))
    by apply lookup_singleton_eq.
  assert (Hto : 2%nat ∉ _timeouts (this (Modules.base litter_box_on)))
    by apply not_elem_of_nil.
  assert (Hiv : 2%nat ∉ _intervals (this (Modules.base litter_box_on))).
  { apply (bool_decide_unpack _). vm_compute. exact I. }
  split; [exact Hcached|]. split; [exact Hto|]. split; [exact Hiv|].
  destruct (proj1 (litter_box_reminder_is_not_tracked_by_the_module
                     acknowledge (VRef 1) (VRef 2) litter_box_on)
              (entity Modules.litterBoxBoolean "on") Hcached eq_refl)
    as (s' & Hrun & Hhandle & _ & Hthis & _ & _ & Hlive).
  exists s'. split; [exact Hrun|]. split; [exact Hhandle|].
  split; [by rewrite Hthis|].
  exact (Hlive quiet_unsubscribe Hto Hiv).
Defined.

Lemma tidy_module_minutely_callbacks_return :
  ∀ item j, item ∈ _eachMinutes (this tidy_module) →
            em_callback item j = Normal tt.
Proof.
  intros item j Hitem. vm_compute in Hitem.
  apply elem_of_cons in Hitem as [->|Hitem]; [reflexivity|].
  by apply elem_of_nil in Hitem.
Qed.

Lemma per_minute_callbacks_run_once_when_the_minute_changes_witness :
  31 ≠ _lastMinute (this tidy_module)
  ∧ (∀ item j, item ∈ _eachMinutes (this tidy_module) →
               em_callback item j = Normal tt)
  ∧ ∃ w',
      _checkEachMinute 31 tidy_module = (Normal tt, w')
      ∧ each_minute_calls (journal w') = ["1714557600000-5"]
      ∧ _checkEachMinute 31 w' = (Normal tt, w').
Proof.
  assert (Hnew : 31 ≠ _lastMinute (this tidy_module)) by discriminate.
  split; [exact Hnew|].
  split; [exact tidy_module_minutely_callbacks_return|].
  destruct (per_minute_callbacks_run_once_when_the_minute_changes
              tidy_module 31) as (_ & Hround & _ & Hagain).
  destruct (Hround Hnew tidy_module_minutely_callbacks_return)
    as (w' & Hrun & Hcalls & _).
  exists w'. split; [exact Hrun|].
  split; [rewrite Hcalls; reflexivity|exact (Hagain _ _ Hrun)].
Defined.

Lemma cleared_per_minute_callback_is_not_called_again_witness :
  31 ≠ _lastMinute (this tidy_module)
  ∧ ∃ w1 w2 w3,
      setEachMinute (λ _, Abrupt "late") 1714557600001 6 tidy_module
      = (Normal "1714557600001-6", w1)
      ∧ em_id <$> _eachMinutes (this w1)
        = ["1714557600000-5"; "1714557600001-6"]
      ∧ clearEachMinute "1714557600001-6" w1 = (Normal tt, w2)
      ∧ _checkEachMinute 31 w2 = (Normal tt, w3)
      ∧ each_minute_calls (journal w3) = ["1714557600000-5"].
Proof.
  assert (Hnew : 31 ≠ _lastMinute (this tidy_module)) by discriminate.
  split; [exact Hnew|].
  destruct (cleared_per_minute_callback_is_not_called_again
              tidy_module (λ _, Abrupt "late") 1714557600001 6 31)
    as (w1 & w2 & Hset & Hitems & Hclear & _ & _ & _ & Hcheck).
  destruct (Hcheck Hnew) as (w3 & Hrun & Hcalls & _).
  { intros item j Hitem. vm_compute in Hitem.
    apply elem_of_cons in Hitem as [->|Hitem]; [reflexivity|].
    by apply elem_of_nil in Hitem. }
  exists w1, w2, w3. split; [exact Hset|].
  split; [by rewrite Hitems|]. split; [exact Hclear|].
  split; [exact Hrun|]. rewrite Hcalls. reflexivity.
Defined.

Lemma clearing_a_tracked_handle_untracks_that_handle_witness :
  tracked Timeout two_timeouts = [] ++ 2%nat :: [3%nat]
  ∧ (2%nat ∉ ([] : list nat))
  ∧ ∃ w',
      clear_timer Timeout 2 two_timeouts = (Normal tt, w')
      ∧ tracked Timeout w' = [3%nat]
      ∧ timers w' = timers two_timeouts ∖ {[2%nat]}
      ∧ tracked Interval w' = tracked Interval two_timeouts.
Proof.
  assert (Htracked : tracked Timeout two_timeouts = [] ++ 2%nat :: [3%nat])
    by reflexivity.
  assert (Hfirst : 2%nat ∉ ([] : list nat)) by apply not_elem_of_nil.
  split; [exact Htracked|]. split; [exact Hfirst|].
  destruct (proj1 (clearing_a_tracked_handle_untracks_that_handle
                     Timeout two_timeouts) 2%nat [] [3%nat] Htracked Hfirst)
    as (w' & Hrun & Htr & Htm & Hother).
  exists w'. split; [exact Hrun|]. split; [exact Htr|].
  split; [exact Htm|]. by apply Hother.
Defined.

Lemma automation_listener_of_a_destroyed_module_is_not_called_witness :
  ∃ w1 w2,
    onAutomationTrigger "automation.door" quiet_trigger 8 1714557600000
      fresh_module
    = (Normal tt, w1)
    ∧ automation_listener_ids (api w1) "automation.door" = [1714557600008]
    ∧ destroy quiet_unsubscribe w1 = (Normal tt, w2)
    ∧ ∃ added,
        API._onAutomationTrigger
          {| API.name := "door"; API.at_entity_id := "automation.door" |}
          (api w2, journal w2)
        = (Normal tt, (api w2, journal w2 ++ added))
        ∧ called_automation_listeners added = [].
Proof.
  destruct (automation_listener_of_a_destroyed_module_is_not_called
              quiet_unsubscribe fresh_module "automation.door" quiet_trigger
              8 1714557600000)
    as (w1 & Hrun & Hreg & _ & Hreleased).
  assert (Hdestroy : ∃ w2, destroy quiet_unsubscribe w1 = (Normal tt, w2)).
  { injection Hrun as <-. eexists. vm_compute. reflexivity. }
  destruct Hdestroy as (w2 & Hdestroy).
  destruct (Hreleased w2 Hdestroy
              {| API.name := "door"; API.at_entity_id := "automation.door" |}
              eq_refl)
    as (added & Hevent & Hcalls & _).
  exists w1, w2. split; [exact Hrun|].
  split; [unfold automation_listener_ids; by rewrite Hreg|].
  split; [exact Hdestroy|].
  exists added. split; [exact Hevent|]. by rewrite Hcalls.
Defined.

End More_witnesses.
